(** * Audio-Deduplication: a shallow embedding of the ingestion core

    The development follows the backend sources:
    - [modules/upload/upload.utils.js]   ([isSupportedAudio], [computeFileHash])
    - [modules/upload/upload.service.js] ([processUpload])
    - [modules/upload/upload.controller.js] ([uploadAudio])
    - [modules/audio/fingerprint.service.js] ([runFpcalc], [process])
    - [modules/audio/similarity.service.js] ([hammingDistance], [findSimilar])
    - [modules/upload/sse.controller.js] ([subscribeToWarnings], [notifyWarning])
    - [modules/upload/warnings.controller.js] ([getWarnings], [getAllWarnings])
    - [middleware/errorHandler.js]
    - [db/schema.sql] (tables [audio_files], [upload_attempts],
      [similarity_warnings]).

    Logging is not modelled, nor are the timestamps the database and the
    events carry.  Part I holds the definitions, Part II the theorems. *)

From Stdlib Require Import ZArith QArith Qround Qpower String Ascii List Lia Lqa.
From Stdlib Require Floats.SpecFloat.
From stdpp Require Import gmap strings list fin_maps.

Open Scope Z_scope.

(* ===================================================================== *)
(** * Part I: definitions *)
(* ===================================================================== *)

(** ** JavaScript strings

    A string is a sequence of code units; the model keeps the code units
    below 256 ([ascii]). *)

Definition code (c : ascii) : Z := Z.of_nat (nat_of_ascii c).

(** [String.prototype.length]. *)
Definition strlen (s : string) : Z := Z.of_nat (String.length s).

(** The code units [String.prototype.trim] strips: TAB, LF, VT, FF, CR,
    SPACE and NBSP. *)
Definition isWhiteSpace (c : ascii) : bool :=
  let n := code c in
  ((9 <=? n) && (n <=? 13)) || (n =? 32) || (n =? 160).

Fixpoint trimStart (s : string) : string :=
  match s with
  | EmptyString => EmptyString
  | String c rest => if isWhiteSpace c then trimStart rest else s
  end.

Fixpoint trimEnd (s : string) : string :=
  match s with
  | EmptyString => EmptyString
  | String c rest =>
      match trimEnd rest with
      | EmptyString => if isWhiteSpace c then EmptyString else String c EmptyString
      | kept => String c kept
      end
  end.

Definition trim (s : string) : string := trimEnd (trimStart s).

(** Truthiness of a string: [!s] holds exactly for the empty string. *)
Definition falsy (s : string) : bool :=
  match s with EmptyString => true | String _ _ => false end.

(** [s.startsWith(p)]. *)
Fixpoint startsWith (p s : string) : bool :=
  match p, s with
  | EmptyString, _ => true
  | String a p', String b s' => if Ascii.eqb a b then startsWith p' s' else false
  | String _ _, EmptyString => false
  end.

(** [s.split(sep)] for a one-character separator: the pieces between the
    occurrences of [sep]; always at least one piece. *)
Fixpoint split (sep : ascii) (s : string) : list string :=
  match s with
  | EmptyString => [EmptyString]
  | String c rest =>
      if Ascii.eqb c sep then EmptyString :: split sep rest
      else match split sep rest with
           | piece :: pieces => String c piece :: pieces
           | [] => [String c EmptyString]
           end
  end.

(** ** JavaScript numbers

    A Number is an IEEE 754 binary64 value.  The model keeps the exact
    rational value of a finite double, together with the three special
    values, and rounds the exact result of every operation to the
    nearest double, ties to the even significand ([to_double]), as the
    language prescribes.  The exponent range is not bounded: overflow to
    an infinity and gradual underflow are not modelled (the numbers of
    this program are bit counts, their quotients and percentages, all far
    from both ends of the range).  Zero is [+0]: the code never produces
    a negative zero divisor. *)

Inductive number : Type :=
| Fin (q : Q)
| Infinity
| NegInfinity
| NaN.

Definition pow2 (e : Z) : Q := (2 ^ e)%Q.

(** The integer nearest to [x], the even one on a tie. *)
Definition round_half_even (x : Q) : Z :=
  let f := Qfloor x in
  match (x - inject_Z f ?= 1 # 2)%Q with
  | Lt => f
  | Gt => f + 1
  | Eq => if Z.even f then f else f + 1
  end.

(** The binary exponent [e] of a positive rational [a]:
    [2^e <= a < 2^(e+1)] ([exponent_spec]). *)
Definition exponent (a : Q) : Z :=
  let g := Z.log2 (Qnum a) - Z.log2 (Zpos (Qden a)) in
  if Qle_bool (pow2 g) a then g else g - 1.

(** A positive rational rounded to 53 significant bits. *)
Definition round_positive (a : Q) : Q :=
  let t := exponent a - 52 in
  (inject_Z (round_half_even (a / pow2 t)) * pow2 t)%Q.

(** The double nearest to [x]. *)
Definition to_double (x : Q) : Q :=
  let r := Qred x in
  match Qnum r with
  | Z0 => 0%Q
  | Zpos _ => round_positive r
  | Zneg _ => (- round_positive (- r))%Q
  end.

(** The Number of an integer (a length, a bit count, a literal). *)
Definition num (z : Z) : number := Fin (to_double (inject_Z z)).

Definition Qsign (q : Q) : Z := Z.sgn (Qnum q).

(** [a - b]. *)
Definition js_sub (a b : number) : number :=
  match a, b with
  | NaN, _ | _, NaN => NaN
  | Fin x, Fin y => Fin (to_double (x - y))
  | Fin _, Infinity => NegInfinity
  | Fin _, NegInfinity => Infinity
  | Infinity, Infinity => NaN
  | Infinity, _ => Infinity
  | NegInfinity, NegInfinity => NaN
  | NegInfinity, _ => NegInfinity
  end.

(** [a / b]. *)
Definition js_div (a b : number) : number :=
  match a, b with
  | NaN, _ | _, NaN => NaN
  | Fin x, Fin y =>
      if Qeq_bool y 0 then
        match Qsign x with
        | Z0 => NaN
        | Zpos _ => Infinity
        | Zneg _ => NegInfinity
        end
      else Fin (to_double (x / y))
  | Fin _, _ => Fin 0
  | Infinity, Fin y => if Qle_bool 0 y then Infinity else NegInfinity
  | NegInfinity, Fin y => if Qle_bool 0 y then NegInfinity else Infinity
  | _, _ => NaN
  end.

(** [a * b]. *)
Definition js_mul (a b : number) : number :=
  match a, b with
  | NaN, _ | _, NaN => NaN
  | Fin x, Fin y => Fin (to_double (x * y))
  | Fin x, Infinity | Infinity, Fin x =>
      match Qsign x with
      | Z0 => NaN
      | Zpos _ => Infinity
      | Zneg _ => NegInfinity
      end
  | Fin x, NegInfinity | NegInfinity, Fin x =>
      match Qsign x with
      | Z0 => NaN
      | Zpos _ => NegInfinity
      | Zneg _ => Infinity
      end
  | Infinity, Infinity | NegInfinity, NegInfinity => Infinity
  | Infinity, NegInfinity | NegInfinity, Infinity => NegInfinity
  end.

(** [a >= b]; any comparison with [NaN] is false. *)
Definition js_ge (a b : number) : bool :=
  match a, b with
  | NaN, _ | _, NaN => false
  | Fin x, Fin y => Qle_bool y x
  | Infinity, _ => true
  | _, NegInfinity => true
  | Fin _, Infinity => false
  | NegInfinity, _ => false
  end.

(** *** The Standard Library's binary64

    [SpecFloat] is the Standard Library's specification of IEEE 754
    arithmetic.  At the binary64 format it gives a second account of the
    percentage [(m - d) / m * 100], with which [to_double] is compared
    ([percent_is_binary64]). *)

Definition binary64_of_Z (z : Z) : SpecFloat.spec_float :=
  SpecFloat.binary_normalize 53 1024 z 0 false.

Definition binary64_value (f : SpecFloat.spec_float) : number :=
  match f with
  | SpecFloat.S754_zero _ => Fin 0
  | SpecFloat.S754_infinity false => Infinity
  | SpecFloat.S754_infinity true => NegInfinity
  | SpecFloat.S754_nan => NaN
  | SpecFloat.S754_finite s m e =>
      let v := (inject_Z (Zpos m) * pow2 e)%Q in Fin (if s then (- v)%Q else v)
  end.

Definition binary64_percent (m d : Z) : SpecFloat.spec_float :=
  SpecFloat.SFmul 53 1024
    (SpecFloat.SFdiv 53 1024
       (SpecFloat.SFsub 53 1024 (binary64_of_Z m) (binary64_of_Z d))
       (binary64_of_Z m))
    (binary64_of_Z 100).

(** The same value of two numbers. *)
Definition same_number (a b : number) : bool :=
  match a, b with
  | Fin x, Fin y => Qeq_bool x y
  | Infinity, Infinity | NegInfinity, NegInfinity | NaN, NaN => true
  | _, _ => false
  end.

(** The bit counts [6 n] for [1 <= n <= nmax], each with the distances
    from 0 to the bit count. *)
Definition small_pairs (nmax : nat) : list (Z * Z) :=
  flat_map (fun n => map (fun d => (6 * Z.of_nat (S n), Z.of_nat d)) (seq 0 (6 * S n + 1)))
    (seq 0 nmax).

(** [x.toFixed(2)], as the decimal its text denotes.  For a finite [x]
    that is [n / 100], with [n] the integer for which [n / 100 - x] is
    closest to zero, the larger one on a tie, [x] being the exact value
    of the double; the other values print as their names.  (Only values
    of at least 70 are ever formatted, so the rule for negative numbers
    is not needed.)  The text goes to a NUMERIC column, which keeps the
    decimal as it is. *)
Definition round2 (x : Q) : Q := Qfloor (x * 100 + (1 # 2)) # 100.

Definition toFixed2 (x : number) : number :=
  match x with
  | Fin q => Fin (round2 q)
  | _ => x
  end.

(** ** [Buffer.from(s, 'base64')]

    The platform decoder: it accepts the standard and the URL-safe
    alphabet, skips every character outside the alphabet, stops at the
    first [=], and turns each group of four sextets into three bytes; a
    trailing group of three gives two bytes, of two gives one byte, and
    a single trailing sextet gives none. *)

Definition unbase64 (c : ascii) : option Z :=
  let n := code c in
  if (65 <=? n) && (n <=? 90) then Some (n - 65)
  else if (97 <=? n) && (n <=? 122) then Some (n - 97 + 26)
  else if (48 <=? n) && (n <=? 57) then Some (n - 48 + 52)
  else if (n =? 43) || (n =? 45) then Some 62
  else if (n =? 47) || (n =? 95) then Some 63
  else None.

Fixpoint sextets (s : string) : list Z :=
  match s with
  | EmptyString => []
  | String c rest =>
      if code c =? 61 then []
      else match unbase64 c with
           | Some v => v :: sextets rest
           | None => sextets rest
           end
  end.

Definition byte1 (a b : Z) : Z :=
  Z.lor (Z.shiftl (Z.land a 63) 2) (Z.shiftr (Z.land b 48) 4).
Definition byte2 (b c : Z) : Z :=
  Z.lor (Z.shiftl (Z.land b 15) 4) (Z.shiftr (Z.land c 60) 2).
Definition byte3 (c d : Z) : Z :=
  Z.lor (Z.shiftl (Z.land c 3) 6) (Z.land d 63).

Fixpoint bytes_of_sextets (l : list Z) : list Z :=
  match l with
  | a :: b :: c :: d :: rest =>
      byte1 a b :: byte2 b c :: byte3 c d :: bytes_of_sextets rest
  | [a; b; c] => [byte1 a b; byte2 b c]
  | [a; b] => [byte1 a b]
  | _ => []
  end.

Definition Buffer_from_base64 (s : string) : list Z :=
  bytes_of_sextets (sextets s).

(** [buf.length] and [buf[i]] (the loop only reads below both lengths). *)
Definition buflen (buf : list Z) : Z := Z.of_nat (length buf).
Definition byteAt (buf : list Z) (i : nat) : Z := nth i buf 0.

(** ** similarity.service.js: [hammingDistance] *)

Definition SIMILARITY_THRESHOLD : number := num 70.

(** [while (xor) { distance += xor & 1; xor >>= 1; }], run for at most
    [fuel] iterations; the result is the final [(xor, distance)].  The
    loop has ended when the first component is 0 ([while_xor_ends] shows
    that 8 iterations are enough for the XOR of two bytes). *)
Fixpoint while_xor (fuel : nat) (xor distance : Z) : Z * Z :=
  match fuel with
  | O => (xor, distance)
  | S fuel' =>
      if xor =? 0 then (xor, distance)
      else while_xor fuel' (Z.shiftr xor 1) (distance + Z.land xor 1)
  end.

(** One iteration of [for (let i = 0; i < minLen; i++)]. *)
Definition for_body (bin1 bin2 : list Z) (distance : Z) (i : nat) : Z :=
  let xor := Z.lxor (byteAt bin1 i) (byteAt bin2 i) in
  snd (while_xor 8 xor distance).

Definition hammingDistance (a b : option string) : number :=
  let fp1 := trim (default EmptyString a) in
  let fp2 := trim (default EmptyString b) in
  if falsy fp1 || falsy fp2 then Infinity
  else
    let bin1 := Buffer_from_base64 fp1 in
    let bin2 := Buffer_from_base64 fp2 in
    let minLen := Z.min (buflen bin1) (buflen bin2) in
    let distance := Z.abs (buflen bin1 - buflen bin2) * 8 in
    num (fold_left (for_body bin1 bin2) (seq 0 (Z.to_nat minLen)) distance).

(** The three lines at the head of the loop body of [findSimilar]. *)
Definition maxBits (fingerprint perceptual_hash : string) : Z :=
  Z.max (strlen fingerprint) (strlen perceptual_hash) * 6.

Definition similarityPercent (fingerprint perceptual_hash : string) : number :=
  let distance := hammingDistance (Some fingerprint) (Some perceptual_hash) in
  let maxBits := num (maxBits fingerprint perceptual_hash) in
  js_mul (js_div (js_sub maxBits distance) maxBits) (num 100).

(** ** The specification's words for the distance (used to state the
    refinement; the code's version is [hammingDistance]) *)

(** Number of bits set in a byte. *)
Definition popcount (x : Z) : Z :=
  Z.of_nat (length (filter (fun k => Z.testbit x (Z.of_nat k) = true) (seq 0 8))).

(** Popcount of the XOR over the overlapping prefix of two byte strings. *)
Fixpoint xor_popcount (bin1 bin2 : list Z) : Z :=
  match bin1, bin2 with
  | x :: bin1', y :: bin2' => popcount (Z.lxor x y) + xor_popcount bin1' bin2'
  | _, _ => 0
  end.

Definition spec_distance (bin1 bin2 : list Z) : Z :=
  Z.abs (buflen bin1 - buflen bin2) * 8 + xor_popcount bin1 bin2.

(** ** db/schema.sql

    A table is the list of its rows, oldest first.  [gen_random_uuid()]
    is a counter in the database, so every generated id is new.  The
    [created_at] columns are not modelled; the position in the list
    stands for them. *)

Abbreviation uuid := nat.

Inductive status : Type := pending | processed | similar_found.

Record audio_file : Type := mk_audio_file {
  id : uuid;
  content_hash : string;
  perceptual_hash : option string;
  storage_path : string;
  original_filename : string;
  file_size : Z;
  mime_type : string;
  duration_seconds : option number;
  similarity_status : status
}.

Record upload_attempt : Type := mk_upload_attempt {
  attempt_id : uuid;
  attempt_content_hash : string;
  was_duplicate : bool
}.

Record similarity_warning : Type := mk_similarity_warning {
  warning_id : uuid;
  audio_id_a : uuid;
  audio_id_b : uuid;
  filename_a : string;
  filename_b : string;
  similarity_percent : number
}.

Record database : Type := mk_database {
  audio_files : list audio_file;
  upload_attempts : list upload_attempt;
  similarity_warnings : list similarity_warning;
  next_uuid : uuid
}.

Definition empty_database : database := mk_database [] [] [] O.

(** [INSERT INTO audio_files (content_hash, storage_path,
    original_filename, file_size, mime_type) VALUES (...)
    ON CONFLICT (content_hash) DO NOTHING RETURNING id]:
    the new database and the returned rows. *)
Definition insert_audio_file (d : database)
    (contentHash permanentFileName originalFilename : string)
    (fileSize : Z) (mimeType : string) : database * list uuid :=
  if existsb (fun r => String.eqb (content_hash r) contentHash) (audio_files d)
  then (d, [])
  else
    let row := mk_audio_file (next_uuid d) contentHash None permanentFileName
                 originalFilename fileSize mimeType None pending in
    (mk_database (audio_files d ++ [row]) (upload_attempts d)
       (similarity_warnings d) (S (next_uuid d)),
     [next_uuid d]).

(** [INSERT INTO upload_attempts (content_hash, was_duplicate) VALUES (...)]. *)
Definition insert_upload_attempt (d : database) (contentHash : string)
    (wasDuplicate : bool) : database :=
  mk_database (audio_files d)
    (upload_attempts d ++ [mk_upload_attempt (next_uuid d) contentHash wasDuplicate])
    (similarity_warnings d) (S (next_uuid d)).

(** [SELECT storage_path, original_filename FROM audio_files WHERE id=$1]. *)
Definition select_audio_file (d : database) (audioId : uuid) : list audio_file :=
  filter (fun r => id r = audioId) (audio_files d).

(** [UPDATE audio_files SET perceptual_hash=$1, duration_seconds=$2,
    similarity_status='processed' WHERE id=$3]. *)
Definition update_fingerprint (d : database) (fingerprint : string)
    (duration : option number) (audioId : uuid) : database :=
  mk_database
    (map (fun r =>
            if Nat.eqb (id r) audioId
            then mk_audio_file (id r) (content_hash r) (Some fingerprint)
                   (storage_path r) (original_filename r) (file_size r)
                   (mime_type r) duration processed
            else r) (audio_files d))
    (upload_attempts d) (similarity_warnings d) (next_uuid d).

(** [UPDATE audio_files SET similarity_status='similar_found' WHERE id=$1]. *)
Definition update_similar_found (d : database) (audioId : uuid) : database :=
  mk_database
    (map (fun r =>
            if Nat.eqb (id r) audioId
            then mk_audio_file (id r) (content_hash r) (perceptual_hash r)
                   (storage_path r) (original_filename r) (file_size r)
                   (mime_type r) (duration_seconds r) similar_found
            else r) (audio_files d))
    (upload_attempts d) (similarity_warnings d) (next_uuid d).

(** A row of [SELECT id, perceptual_hash, original_filename FROM
    audio_files WHERE id != $1 AND perceptual_hash IS NOT NULL]. *)
Record candidate : Type := mk_candidate {
  cand_id : uuid;
  cand_perceptual_hash : string;
  cand_original_filename : string
}.

Definition select_candidates (d : database) (audioId : uuid) : list candidate :=
  flat_map (fun r =>
              match perceptual_hash r with
              | Some h =>
                  if Nat.eqb (id r) audioId then []
                  else [mk_candidate (id r) h (original_filename r)]
              | None => []
              end) (audio_files d).

(** A thrown error: its message and its [status] property, if any. *)
Record error : Type := mk_error {
  message : string;
  error_status : option Z
}.

Definition Error (msg : string) : error := mk_error msg None.

Inductive outcome (A : Type) : Type :=
| Return (a : A)
| Throw (e : error).
Arguments Return {A} a.
Arguments Throw {A} e.

(** [INSERT INTO similarity_warnings (audio_id_a, audio_id_b, filename_a,
    filename_b, similarity_percent) VALUES (...)
    ON CONFLICT (audio_id_a, audio_id_b) DO NOTHING].  Both ids
    [REFERENCES audio_files(id)]: a row that would be inserted with an
    unknown id makes the query fail. *)
Definition known_id (d : database) (i : uuid) : bool :=
  existsb (fun r => Nat.eqb (id r) i) (audio_files d).

Definition insert_similarity_warning (d : database) (a b : uuid)
    (filenameA filenameB : string) (percent : number) : outcome database :=
  if existsb (fun w => Nat.eqb (audio_id_a w) a && Nat.eqb (audio_id_b w) b)
       (similarity_warnings d)
  then Return d
  else if known_id d a && known_id d b then
    Return (mk_database (audio_files d) (upload_attempts d)
              (similarity_warnings d ++
                 [mk_similarity_warning (next_uuid d) a b filenameA filenameB percent])
              (S (next_uuid d)))
  else Throw (Error "violates foreign key constraint").

(** ** sse.controller.js: the subscriber registry

    A response object ([res]) is identified by a number.  The hub holds
    the module-level [warningSubscribers] map, what has been written on
    each response so far (oldest first), the responses whose [write]
    throws, and the responses that were ended. *)

Abbreviation res := nat.

Inductive sse_event : Type :=
| connected
| similarity_detected (file1_id : uuid) (file1_filename : string)
    (file2_id : uuid) (file2_filename : string) (similarityPercent : number).

Record hub : Type := mk_hub {
  warningSubscribers : gmap uuid (list res);
  written : list (res * sse_event);
  broken : gset res;
  ended : gset res
}.

Definition empty_hub : hub := mk_hub ∅ [] ∅ ∅.

(** [res.write(data)] inside [try { } catch { }]: a throwing write is
    logged and leaves nothing on the stream. *)
Definition try_write (h : hub) (r : res) (e : sse_event) : hub :=
  if decide (r ∈ broken h) then h
  else mk_hub (warningSubscribers h) (written h ++ [(r, e)]) (broken h) (ended h).

(** The body of [[audioIdA, audioIdB].forEach(audioId => ...)]. *)
Definition notify_one (warning : sse_event) (h : hub) (audioId : uuid) : hub :=
  match warningSubscribers h !! audioId with
  | Some subscribers => fold_left (fun h r => try_write h r warning) subscribers h
  | None => h
  end.

(** [notifyWarning(audioIdA, audioIdB, filenameA, filenameB,
    similarityPercent)]; the event carries [parseFloat] of the text that
    [toFixed(2)] printed, and is written as JSON, where that double
    prints back as the same two-decimal text: the model keeps the
    decimal this text denotes. *)
Definition notifyWarning (h : hub) (audioIdA audioIdB : uuid)
    (filenameA filenameB : string) (similarityPercent : number) : hub :=
  let warning :=
    similarity_detected audioIdA filenameA audioIdB filenameB similarityPercent in
  fold_left (notify_one warning) [audioIdA; audioIdB] h.

(** [subscribers.indexOf(res)] followed by [splice(index, 1)] when the
    index is not -1: the first occurrence goes. *)
Fixpoint splice_first (r : res) (subscribers : list res) : list res :=
  match subscribers with
  | [] => []
  | x :: rest => if Nat.eqb x r then rest else x :: splice_first r rest
  end.

Definition remove_subscriber (h : hub) (audioId : uuid) (r : res)
    : gmap uuid (list res) :=
  match warningSubscribers h !! audioId with
  | Some subscribers => <[audioId := splice_first r subscribers]> (warningSubscribers h)
  | None => warningSubscribers h
  end.

(** A warning as the two warning endpoints print it. *)
Record warning_json : Type := mk_warning_json {
  json_id : uuid;
  file1_id : uuid;
  file1_filename : string;
  file2_id : uuid;
  file2_filename : string;
  similarityPercent_json : number
}.

(** An HTTP response: status code and JSON body. *)
Inductive body : Type :=
| body_error (msg : string)
| body_duplicate (msg : string)
| body_accepted (audioId : uuid)
| body_warnings (audioId : uuid) (warnings : list warning_json)
| body_all_warnings (total : nat) (warnings : list warning_json).

Record response : Type := mk_response {
  status_code : Z;
  json : body
}.

(** [subscribeToWarnings(req, res)]; [audioId] is [req.params.audioId],
    [None] when it is missing or empty.  The result is the immediate JSON
    answer, if there is one, and the hub.  The first [res.write] is not
    guarded: when it throws, the handler stops before registering. *)
Definition subscribeToWarnings (h : hub) (audioId : option uuid) (r : res)
    : option response * hub :=
  match audioId with
  | None => (Some (mk_response 400 (body_error "audioId parameter required")), h)
  | Some audioId =>
      if decide (r ∈ broken h) then (None, h)
      else
        let h1 := mk_hub (warningSubscribers h) (written h ++ [(r, connected)])
                    (broken h) (ended h) in
        let subs := default [] (warningSubscribers h1 !! audioId) in
        (None,
         mk_hub (<[audioId := subs ++ [r]]> (warningSubscribers h1))
           (written h1) (broken h1) (ended h1))
  end.

(** The handler of [req.on('close', ...)]. *)
Definition on_close (h : hub) (audioId : uuid) (r : res) : hub :=
  mk_hub (remove_subscriber h audioId r) (written h) (broken h) ({[r]} ∪ ended h).

(** The handler of [req.on('error', ...)]. *)
Definition on_error (h : hub) (audioId : uuid) (r : res) : hub :=
  mk_hub (remove_subscriber h audioId r) (written h) (broken h) (ended h).

(** ** warnings.controller.js

    [ORDER BY created_at DESC] lists the rows newest first, that is, in
    the reverse of the order of insertion. *)

Definition warning_to_json (row : similarity_warning) : warning_json :=
  mk_warning_json (warning_id row) (audio_id_a row) (filename_a row)
    (audio_id_b row) (filename_b row) (similarity_percent row).

(** [SELECT ... FROM similarity_warnings WHERE audio_id_a = $1 OR
    audio_id_b = $1 ORDER BY created_at DESC]. *)
Definition select_warnings_of (d : database) (audioId : uuid)
    : list similarity_warning :=
  rev (List.filter (fun w => Nat.eqb (audio_id_a w) audioId
                             || Nat.eqb (audio_id_b w) audioId)
         (similarity_warnings d)).

(** [SELECT ... FROM similarity_warnings ORDER BY created_at DESC LIMIT 100]. *)
Definition select_recent_warnings (d : database) : list similarity_warning :=
  take 100 (rev (similarity_warnings d)).


(** [getAllWarnings(req, res)]. *)
Definition getAllWarnings (d : database) : response :=
  let rows := select_recent_warnings d in
  mk_response 200 (body_all_warnings (length rows) (map warning_to_json rows)).

(** ** similarity.service.js: [findSimilar] *)

Record similar : Type := mk_similar {
  similar_id : uuid;
  similar_filename : string;
  similarity : number
}.

(** The [for (const row of result.rows)] loop. *)
Fixpoint findSimilar_loop (d : database) (h : hub) (audioId : uuid)
    (fingerprint filename : string) (rows : list candidate)
    : outcome (option similar) * database * hub :=
  match rows with
  | [] => (Return None, d, h)
  | row :: rest =>
      let percent := similarityPercent fingerprint (cand_perceptual_hash row) in
      if js_ge percent SIMILARITY_THRESHOLD then
        match insert_similarity_warning d audioId (cand_id row) filename
                (cand_original_filename row) (toFixed2 percent) with
        | Throw e => (Throw e, d, h)
        | Return d' =>
            (Return (Some (mk_similar (cand_id row) (cand_original_filename row)
                             (toFixed2 percent))),
             d',
             notifyWarning h audioId (cand_id row) filename
               (cand_original_filename row) (toFixed2 percent))
        end
      else findSimilar_loop d h audioId fingerprint filename rest
  end.

Definition findSimilar (d : database) (h : hub) (audioId : uuid)
    (fingerprint filename : string)
    : outcome (option similar) * database * hub :=
  findSimilar_loop d h audioId fingerprint filename (select_candidates d audioId).

(** ** The stores the services share *)

Record job : Type := mk_job {
  job_name : string;
  job_audioId : uuid;
  job_filename : string
}.

Record world : Type := mk_world {
  pool : database;                            (* PostgreSQL *)
  temp_uploads : gmap string (list Z);        (* bucket 'temp-uploads' *)
  audio_files_bucket : gmap string (list Z);  (* bucket 'audio-files' *)
  disk : gmap string (list Z);                (* local files *)
  fingerprintQueue : list job;                (* BullMQ queue *)
  sse : hub
}.

Definition empty_world : world := mk_world empty_database ∅ ∅ ∅ [] empty_hub.

Definition set_pool (w : world) (d : database) : world :=
  mk_world d (temp_uploads w) (audio_files_bucket w) (disk w)
    (fingerprintQueue w) (sse w).
Definition set_temp_uploads (w : world) (b : gmap string (list Z)) : world :=
  mk_world (pool w) b (audio_files_bucket w) (disk w) (fingerprintQueue w) (sse w).
Definition set_audio_files_bucket (w : world) (b : gmap string (list Z)) : world :=
  mk_world (pool w) (temp_uploads w) b (disk w) (fingerprintQueue w) (sse w).
Definition set_disk (w : world) (f : gmap string (list Z)) : world :=
  mk_world (pool w) (temp_uploads w) (audio_files_bucket w) f
    (fingerprintQueue w) (sse w).
Definition set_fingerprintQueue (w : world) (q : list job) : world :=
  mk_world (pool w) (temp_uploads w) (audio_files_bucket w) (disk w) q (sse w).
Definition set_sse (w : world) (h : hub) : world :=
  mk_world (pool w) (temp_uploads w) (audio_files_bucket w) (disk w)
    (fingerprintQueue w) h.

(** [if (fs.existsSync(p)) fs.unlinkSync(p)]. *)
Definition unlink_if_exists (w : world) (p : string) : world :=
  set_disk w (delete p (disk w)).

(** ** fingerprint.service.js *)

(** What [execFile] hands to its callback. *)
Inductive exec_result : Type :=
| exec_error (e : error) (stderr : string)
| exec_ok (stdout : string).

Section FingerprintService.

(** The platform: [parseFloat], the extractor run on a file (the bytes at
    the path, if any), and [os.tmpdir()]. *)
Variable parseFloat : string -> number.
Variable fpcalc : option (list Z) -> exec_result.
Variable tmpdir : string.

Definition runFpcalc (w : world) (localFilePath : string)
    : outcome (string * option number) :=
  match fpcalc (disk w !! localFilePath) with
  | exec_error e _ => Throw e
  | exec_ok stdout =>
      let lines := split "010"%char stdout in
      let fingerprintLine := List.find (startsWith "FINGERPRINT=") lines in
      let durationLine := List.find (startsWith "DURATION=") lines in
      match fingerprintLine with
      | None => Throw (Error "Fingerprint not generated")
      | Some fingerprintLine =>
          let fingerprint := nth 1 (split "="%char fingerprintLine) EmptyString in
          let duration :=
            match durationLine with
            | Some durationLine =>
                Some (parseFloat (nth 1 (split "="%char durationLine) EmptyString))
            | None => None
            end in
          Return (fingerprint, duration)
      end
  end.

(** [randomUUID] is the text [crypto.randomUUID()] returns in this call. *)
Definition downloadFromSupabase (w : world) (randomUUID storagePath : string)
    : outcome string * world :=
  match audio_files_bucket w !! storagePath with
  | None => (Throw (Error "Object not found"), w)
  | Some buffer =>
      let tempFileName := "fp_" +:+ randomUUID +:+ ".tmp" in
      let tempFilePath := tmpdir +:+ "/" +:+ tempFileName in
      (Return tempFilePath, set_disk w (<[tempFilePath := buffer]> (disk w)))
  end.

(** The [try] block of [process] from step 3 on, once the file is local. *)
Definition process_local (w : world) (audioId : uuid)
    (filename tempFilePath : string) : outcome unit * world :=
  match runFpcalc w tempFilePath with
  | Throw e => (Throw e, w)
  | Return (fingerprint, duration) =>
      let d1 := update_fingerprint (pool w) fingerprint duration audioId in
      match findSimilar d1 (sse w) audioId fingerprint filename with
      | (Throw e, d2, h2) => (Throw e, set_sse (set_pool w d2) h2)
      | (Return (Some _), d2, h2) =>
          (Return tt, set_sse (set_pool w (update_similar_found d2 audioId)) h2)
      | (Return None, d2, h2) => (Return tt, set_sse (set_pool w d2) h2)
      end
  end.

Definition process (w : world) (randomUUID : string) (audioId : uuid)
    : outcome unit * world :=
  match select_audio_file (pool w) audioId with
  | [] => (Throw (Error "Audio not found"), w)
  | row :: _ =>
      match downloadFromSupabase w randomUUID (storage_path row) with
      | (Throw e, w1) => (Throw e, w1)
      | (Return tempFilePath, w1) =>
          let '(r, w2) := process_local w1 audioId (original_filename row) tempFilePath in
          (r, unlink_if_exists w2 tempFilePath)
      end
  end.

End FingerprintService.

(** ** upload.utils.js *)

Definition allowed : list string :=
  [ "audio/mpeg"; "audio/wav"; "audio/ogg"; "audio/m4a"; "audio/aac"; "audio/flac";
    "audio/x-wav"; "audio/x-ogg"; "audio/x-m4a"; "audio/x-aac"; "audio/x-flac";
    "audio/x-mpeg" ]%string.

Definition isSupportedAudio (mimeType : string) : bool :=
  existsb (String.eqb mimeType) allowed.

(** The chunks a read stream delivers: pieces of [highWaterMark] bytes,
    the last one shorter; none for an empty file.  [fuel] bounds the
    number of full pieces. *)
Fixpoint chunks (fuel highWaterMark : nat) (data : list Z) : list (list Z) :=
  match data, fuel with
  | [], _ => []
  | _, O => [data]
  | _, S fuel' =>
      take highWaterMark data :: chunks fuel' highWaterMark (drop highWaterMark data)
  end.

Definition highWaterMark : nat := Z.to_nat 65536.

Definition createReadStream (data : list Z) : list (list Z) :=
  chunks (length data) highWaterMark data.

(** The multer file of a request. *)
Record file : Type := mk_file {
  path : string;
  mimetype : string;
  size : Z;
  originalname : string
}.

(** What [processUpload] returns. *)
Inductive upload_result : Type :=
| duplicate_true (msg : string)
| duplicate_false (audioId : uuid).

(** What the collaborators answer during one call of [processUpload]:
    the text of [crypto.randomUUID()], the [error] fields of the three
    storage calls, and the error [fs.unlinkSync] throws, if any. *)
Record answers : Type := mk_answers {
  randomUUID : string;
  uploadError : option error;
  deleteError : option error;
  moveError : option error;
  unlinkError : option error
}.

(** Where a call of [processUpload] stands: one constructor per [await]. *)
Inductive pc : Type :=
| Start
| Hashed (contentHash : string)
| Uploaded (contentHash : string)
| Removing (contentHash : string)
| RecordingDuplicate (contentHash : string)
| Moving (contentHash : string) (audioId : uuid)
| Recording (contentHash : string) (audioId : uuid)
| Queueing (audioId : uuid)
| Returned (r : upload_result)
| Thrown (e : error).

Section UploadService.

(** [crypto.createHash('sha256')]: the hex digest of the bytes fed to it. *)
Variable sha256_hex : list Z -> string.

(** [hash.update(chunk)] appends to what the hash object has seen. *)
Definition computeFileHash (w : world) (filePath : string) : outcome string :=
  match disk w !! filePath with
  | None => Throw (Error "ENOENT")
  | Some data =>
      let hash := fold_left (fun seen chunk => seen ++ chunk) (createReadStream data) [] in
      Return (sha256_hex hash)
  end.

Definition tempFileName (a : answers) (f : file) : string :=
  randomUUID a +:+ "_" +:+ originalname f.

Definition permanentFileName (contentHash : string) (f : file) : string :=
  contentHash +:+ "_" +:+ originalname f.

(** Leaving the function, by [return] or by [throw]: the [finally] block
    removes the local file when it exists.  An error of [unlinkSync] is
    caught and logged: the file then stays, and the call settles as it
    was about to. *)
Definition leave (w : world) (f : file) (a : answers) (p : pc) : world * pc :=
  match unlinkError a with
  | Some _ => (w, p)
  | None => (unlink_if_exists w (path f), p)
  end.

(** The local files after the [finally] block of a call on [w]. *)
Definition disk_left (w : world) (f : file) (a : answers) : gmap string (list Z) :=
  match unlinkError a with
  | Some _ => disk w
  | None => delete (path f) (disk w)
  end.

(** One step of [processUpload (file)]: the code up to and including the
    effect of the next awaited call. *)
Definition upload_step (w : world) (f : file) (a : answers) (p : pc) : world * pc :=
  match p with
  | Start =>
      match computeFileHash w (path f) with
      | Throw e => leave w f a (Thrown e)
      | Return contentHash => (w, Hashed contentHash)
      end
  | Hashed contentHash =>
      match disk w !! path f with
      | None => leave w f a (Thrown (Error "ENOENT"))
      | Some fileBuffer =>
          match uploadError a with
          | Some e => leave w f a (Thrown e)
          | None =>
              (set_temp_uploads w (<[tempFileName a f := fileBuffer]> (temp_uploads w)),
               Uploaded contentHash)
          end
      end
  | Uploaded contentHash =>
      let '(d, rows) :=
        insert_audio_file (pool w) contentHash (permanentFileName contentHash f)
          (originalname f) (size f) (mimetype f) in
      match rows with
      | [] => (set_pool w d, Removing contentHash)
      | audioId :: _ => (set_pool w d, Moving contentHash audioId)
      end
  | Removing contentHash =>
      match deleteError a with
      | Some _ => (w, RecordingDuplicate contentHash)
      | None =>
          (set_temp_uploads w (delete (tempFileName a f) (temp_uploads w)),
           RecordingDuplicate contentHash)
      end
  | RecordingDuplicate contentHash =>
      leave (set_pool w (insert_upload_attempt (pool w) contentHash true)) f a
        (Returned (duplicate_true "Exact duplicate detected"))
  | Moving contentHash audioId =>
      match moveError a, temp_uploads w !! tempFileName a f with
      | Some e, _ => leave w f a (Thrown e)
      | None, None => leave w f a (Thrown (Error "Object not found"))
      | None, Some data =>
          (set_audio_files_bucket
             (set_temp_uploads w (delete (tempFileName a f) (temp_uploads w)))
             (<[permanentFileName contentHash f := data]> (audio_files_bucket w)),
           Recording contentHash audioId)
      end
  | Recording contentHash audioId =>
      (set_pool w (insert_upload_attempt (pool w) contentHash false), Queueing audioId)
  | Queueing audioId =>
      leave (set_fingerprintQueue w
               (fingerprintQueue w ++ [mk_job "fingerprint" audioId (originalname f)]))
        f a (Returned (duplicate_false audioId))
  | Returned _ | Thrown _ => (w, p)
  end.

Fixpoint upload_steps (n : nat) (w : world) (f : file) (a : answers) (p : pc)
    : world * pc :=
  match n with
  | O => (w, p)
  | S n' => let '(w', p') := upload_step w f a p in upload_steps n' w' f a p'
  end.

(** How the promise of a call has settled ([processUpload_settles]: after
    six steps it always has). *)
Definition settled (p : pc) : outcome upload_result :=
  match p with
  | Returned r => Return r
  | Thrown e => Throw e
  | _ => Throw (Error "not settled")
  end.

(** [processUpload(file)] run without interruption: six awaits at most. *)
Definition processUpload (w : world) (f : file) (a : answers)
    : world * outcome upload_result :=
  let '(w', p) := upload_steps 6 w f a Start in (w', settled p).

(** *** middleware/errorHandler.js *)

Definition errorHandler (err : error) : response :=
  let status :=
    match error_status err with
    | Some s => if s =? 0 then 500 else s
    | None => 500
    end in
  mk_response status
    (body_error (if falsy (message err) then "Internal Server Error" else message err)).

(** *** upload.controller.js: [uploadAudio]; [reqfile] is [req.file]. *)
Definition uploadAudio (w : world) (reqfile : option file) (a : answers)
    : world * response :=
  match reqfile with
  | None => (w, mk_response 400 (body_error "No file uploaded"))
  | Some f =>
      if negb (isSupportedAudio (mimetype f))
      then (w, mk_response 400 (body_error "Unsupported audio format"))
      else
        match processUpload w f a with
        | (w', Return (duplicate_true msg)) => (w', mk_response 409 (body_duplicate msg))
        | (w', Return (duplicate_false audioId)) =>
            (w', mk_response 201 (body_accepted audioId))
        | (w', Throw err) => (w', errorHandler err)
        end
  end.

(** [upload.single('audio')] in upload.routes.js: multer stores the body
    of the request at [file.path] before the handler runs. *)
Definition multer_store (w : world) (f : file) (data : list Z) : world :=
  set_disk w (<[path f := data]> (disk w)).

(** *** Concurrent calls

    Each call of [processUpload] advances by [upload_step]; a schedule
    names, step by step, the call that moves next.  A name outside the
    list, or of a settled call, changes nothing. *)

Record call : Type := mk_call {
  call_file : file;
  call_answers : answers;
  call_pc : pc
}.

Definition sched_step (st : world * list call) (i : nat) : world * list call :=
  let '(w, calls) := st in
  match calls !! i with
  | None => st
  | Some c =>
      let '(w', p') := upload_step w (call_file c) (call_answers c) (call_pc c) in
      (w', <[i := mk_call (call_file c) (call_answers c) p']> calls)
  end.

Definition run_schedule (schedule : list nat) (st : world * list call)
    : world * list call :=
  fold_left sched_step schedule st.

End UploadService.


(** ** Auxiliary notions used in the statements *)

(** The values a [Buffer] holds. *)
Definition is_byte (x : Z) : Prop := 0 <= x < 256.

(** The numbers [0 .. n-1]. *)
Definition bytes_upto (n : nat) : list Z := map Z.of_nat (seq 0 n).

(** The values of the base64 alphabet. *)
Definition is_sextet (x : Z) : Prop := 0 <= x < 64.

(** The test [similarityPercent >= SIMILARITY_THRESHOLD] on a candidate. *)
Definition is_match (fingerprint : string) (row : candidate) : bool :=
  js_ge (similarityPercent fingerprint (cand_perceptual_hash row)) SIMILARITY_THRESHOLD.

(** What [findSimilar] returns for a matching candidate. *)
Definition match_of (fingerprint : string) (row : candidate) : similar :=
  mk_similar (cand_id row) (cand_original_filename row)
    (toFixed2 (similarityPercent fingerprint (cand_perceptual_hash row))).

(** The file has a row with a fingerprint. *)
Definition fingerprinted (d : database) (audioId : uuid) : bool :=
  existsb (fun r => Nat.eqb (id r) audioId
                    && match perceptual_hash r with Some _ => true | None => false end)
    (audio_files d).

(** The queries the services issue, as steps of the database.
    [findSimilar] is only called by [process], for a file whose
    fingerprint it has just stored. *)
Inductive db_step : database -> database -> Prop :=
| step_insert_audio_file d contentHash storagePath filename fileSize mimeType :
    db_step d (fst (insert_audio_file d contentHash storagePath filename fileSize mimeType))
| step_insert_upload_attempt d contentHash wasDuplicate :
    db_step d (insert_upload_attempt d contentHash wasDuplicate)
| step_update_fingerprint d fingerprint duration audioId :
    db_step d (update_fingerprint d fingerprint duration audioId)
| step_update_similar_found d audioId :
    db_step d (update_similar_found d audioId)
| step_findSimilar d h audioId fingerprint filename :
    fingerprinted d audioId = true ->
    db_step d (snd (fst (findSimilar d h audioId fingerprint filename))).

(** The databases the services can produce from the empty schema. *)
Definition reachable (d : database) : Prop := rtc db_step empty_database d.

(** A stored percentage: finite, between 70 and 100. *)
Definition percent_ok (w : similarity_warning) : Prop :=
  exists q : Q, similarity_percent w = Fin q /\ (0 <= q)%Q /\ (70 <= q)%Q /\ (q <= 100)%Q.

(** A stored percentage as the NUMERIC column holds it: a decimal with
    two places, [n / 100] with [n] between 7000 and 10000. *)
Definition two_decimals (w : similarity_warning) : Prop :=
  exists n : Z, similarity_percent w = Fin (n # 100) /\ 7000 <= n <= 10000.

(** ** A small run, used to instantiate the statements

    Two files are admitted, both are fingerprinted, and the second one is
    compared with the first. *)
Definition run_db1 : database :=
  fst (insert_audio_file empty_database "h1" "h1_a.mp3" "a.mp3" 10 "audio/mpeg").
Definition run_db2 : database :=
  fst (insert_audio_file run_db1 "h2" "h2_b.flac" "b.flac" 20 "audio/flac").
Definition run_db3 : database := update_fingerprint run_db2 "AAAA" None 0%nat.
Definition run_db4 : database := update_fingerprint run_db3 "AAAB" None 1%nat.
Definition run_db5 : database :=
  snd (fst (findSimilar run_db4 empty_hub 1%nat "AAAB" "b.flac")).


(** The rows of the warning table that relate two given files, in either
    orientation. *)
Definition warnings_between (d : database) (x y : uuid) : list similarity_warning :=
  List.filter (fun w => (Nat.eqb (audio_id_a w) x && Nat.eqb (audio_id_b w) y)
                        || (Nat.eqb (audio_id_a w) y && Nat.eqb (audio_id_b w) x))
    (similarity_warnings d).

(** Both files of the small run are compared, each as the subject. *)
Definition run_db6 : database :=
  snd (fst (findSimilar run_db5 empty_hub 0%nat "AAAA" "a.mp3")).



(** ** Notions for the concurrent admission statement *)

(** The digest a call carries, once it has computed it. *)
Definition pc_hash (p : pc) : option string :=
  match p with
  | Hashed h | Uploaded h | Removing h | RecordingDuplicate h
  | Moving h _ | Recording h _ => Some h
  | _ => None
  end.

(** The call won the insert and has not failed since. *)
Definition admitted_pc (p : pc) : bool :=
  match p with
  | Moving _ _ | Recording _ _ | Queueing _ | Returned (duplicate_false _) => true
  | _ => false
  end.

(** The call has issued its insert and has not failed since. *)
Definition past_insert_pc (p : pc) : bool :=
  match p with
  | Removing _ | RecordingDuplicate _ | Moving _ _ | Recording _ _ | Queueing _
  | Returned _ => true
  | _ => false
  end.

Definition thrown_pc (p : pc) : bool :=
  match p with Thrown _ => true | _ => false end.

Definition returned_pc (p : pc) : bool :=
  match p with Returned _ => true | _ => false end.

Definition accepted_pc (p : pc) : bool :=
  match p with Returned (duplicate_false _) => true | _ => false end.

Definition duplicate_pc (p : pc) : bool :=
  match p with Returned (duplicate_true _) => true | _ => false end.

(** Number of elements of a list that pass a test. *)
Definition count {A : Type} (f : A -> bool) (l : list A) : nat :=
  length (List.filter f l).

(** Number of ledger rows with a given digest. *)
Definition rows_with_hash (D : string) (d : database) : nat :=
  count (fun r => String.eqb (content_hash r) D) (audio_files d).

(** The call submits bytes whose digest is [D]: the file multer stored for
    it in the initial world [w0] hashes to [D]. *)
Definition hashes_to (sha256_hex : list Z -> string) (w0 : world) (D : string)
    (c : call) : bool :=
  match disk w0 !! path (call_file c) with
  | Some data => String.eqb (sha256_hex data) D
  | None => false
  end.

(** The digest a call carries is the digest of its file. *)
Definition pc_ok (sha256_hex : list Z -> string) (w0 : world) (c : call) : Prop :=
  forall h, pc_hash (call_pc c) = Some h ->
            exists data, disk w0 !! path (call_file c) = Some data /\ sha256_hex data = h.

(** What every interleaving keeps true for a digest [D], from the world
    [w0] on: the rows for [D] are those of [w0] and one more per admitted
    call, one at most and none when [w0] has a row already. *)
Definition upload_inv (sha256_hex : list Z -> string) (w0 : world) (D : string)
    (st : world * list call) : Prop :=
  let attempt := hashes_to sha256_hex w0 D in
  let admitted := count (fun c => attempt c && admitted_pc (call_pc c)) (snd st) in
  let past := count (fun c => attempt c && past_insert_pc (call_pc c)) (snd st) in
  let thrown := count (fun c => attempt c && thrown_pc (call_pc c)) (snd st) in
  let rows := rows_with_hash D (pool (fst st)) in
  let rows0 := rows_with_hash D (pool w0) in
  disk (fst st) ⊆ disk w0 /\
  Forall (pc_ok sha256_hex w0) (snd st) /\
  (admitted + rows0 <= rows)%nat /\ (rows <= Nat.max 1 rows0)%nat /\
  ((0 < past)%nat -> (1 <= rows)%nat) /\
  (rows0 = 0%nat -> rows = 1%nat -> admitted = 1%nat \/ (0 < thrown)%nat).

(** ** Three concurrent uploads, used to instantiate the statements

    Two requests carry the same bytes under different names and types, a
    third one carries other bytes.  The stand-in digest spells the bytes
    out, so that different bytes have different digests. *)
Definition spell (data : list Z) : string :=
  fold_right (fun b s => String (ascii_of_nat (Z.to_nat b)) s) EmptyString data.

Definition song : list Z := [73; 68; 51; 4].
Definition other_song : list Z := [102; 76; 97; 67].

Definition file_a : file := mk_file "uploads/aa01" "audio/mpeg" 4 "song.mp3".
Definition file_b : file := mk_file "uploads/bb02" "audio/x-wav" 9000 "renamed.wav".
Definition file_c : file := mk_file "uploads/cc03" "audio/flac" 4 "other.flac".

Definition three_uploads_world : world :=
  multer_store (multer_store (multer_store empty_world file_a song) file_b song)
    file_c other_song.

Definition three_uploads : list call :=
  [ mk_call file_a (mk_answers "u1" None None None None) Start;
    mk_call file_b (mk_answers "u2" None None None None) Start;
    mk_call file_c (mk_answers "u3" None None None None) Start ].

Definition three_uploads_schedule : list nat :=
  [1; 0; 2; 0; 1; 2; 1; 0; 2; 2; 1; 0; 0; 0; 1; 2; 1; 2; 0; 1; 2]%nat.

(** The key of the unique constraint of [similarity_warnings]. *)
Definition pair_of (w : similarity_warning) : uuid * uuid :=
  (audio_id_a w, audio_id_b w).

(** The unique constraints of [audio_files], with the freshness of the
    generated ids. *)
Definition ledger_inv (d : database) : Prop :=
  NoDup (map content_hash (audio_files d)) /\
  NoDup (map id (audio_files d)) /\
  Forall (fun r => (id r < next_uuid d)%nat) (audio_files d).

(** A warning relates two different files of the ledger. *)
Definition warning_refs_ok (d : database) (w : similarity_warning) : Prop :=
  audio_id_a w <> audio_id_b w /\
  known_id d (audio_id_a w) = true /\ known_id d (audio_id_b w) = true.

(** The same bytes submitted once more after the three uploads. *)
Definition replay_world : world :=
  multer_store
    (fst (run_schedule spell three_uploads_schedule (three_uploads_world, three_uploads)))
    file_b song.

Definition replay : list call :=
  [ mk_call file_b (mk_answers "u4" None None None None) Start ].

(** Two concurrent uploads of the same bytes, where the storage move of
    the first one fails after its insert went through. *)
Definition failed_move_world : world :=
  multer_store (multer_store empty_world file_a song) file_b song.

Definition failed_move_uploads : list call :=
  [ mk_call file_a (mk_answers "u1" None None (Some (Error "move failed")) None) Start;
    mk_call file_b (mk_answers "u2" None None None None) Start ].

Definition failed_move_schedule : list nat :=
  [0; 1; 0; 1; 0; 1; 0; 1; 1]%nat.

(** ** The ways a call of [processUpload] can end *)

Inductive upload_path (sha256_hex : list Z -> string) (w : world) (f : file)
    (a : answers) : Prop :=
| path_missing :
    disk w !! path f = None ->
    processUpload sha256_hex w f a
    = (fst (leave w f a Start), Throw (Error "ENOENT")) ->
    upload_path sha256_hex w f a
| path_upload_fails data e :
    disk w !! path f = Some data -> uploadError a = Some e ->
    processUpload sha256_hex w f a = (fst (leave w f a Start), Throw e) ->
    upload_path sha256_hex w f a
| path_duplicate data :
    disk w !! path f = Some data -> uploadError a = None ->
    existsb (fun r => String.eqb (content_hash r) (sha256_hex data))
      (audio_files (pool w)) = true ->
    processUpload sha256_hex w f a
    = (mk_world (insert_upload_attempt (pool w) (sha256_hex data) true)
         (match deleteError a with
          | Some _ => <[tempFileName a f := data]> (temp_uploads w)
          | None => delete (tempFileName a f) (<[tempFileName a f := data]> (temp_uploads w))
          end)
         (audio_files_bucket w) (disk_left w f a) (fingerprintQueue w) (sse w),
       Return (duplicate_true "Exact duplicate detected")) ->
    upload_path sha256_hex w f a
| path_move_fails data e :
    disk w !! path f = Some data -> uploadError a = None -> moveError a = Some e ->
    existsb (fun r => String.eqb (content_hash r) (sha256_hex data))
      (audio_files (pool w)) = false ->
    processUpload sha256_hex w f a
    = (mk_world
         (fst (insert_audio_file (pool w) (sha256_hex data)
                 (permanentFileName (sha256_hex data) f) (originalname f) (size f)
                 (mimetype f)))
         (<[tempFileName a f := data]> (temp_uploads w))
         (audio_files_bucket w) (disk_left w f a) (fingerprintQueue w) (sse w),
       Throw e) ->
    upload_path sha256_hex w f a
| path_accepted data :
    disk w !! path f = Some data -> uploadError a = None -> moveError a = None ->
    existsb (fun r => String.eqb (content_hash r) (sha256_hex data))
      (audio_files (pool w)) = false ->
    processUpload sha256_hex w f a
    = (mk_world
         (insert_upload_attempt
            (fst (insert_audio_file (pool w) (sha256_hex data)
                    (permanentFileName (sha256_hex data) f) (originalname f) (size f)
                    (mimetype f)))
            (sha256_hex data) false)
         (delete (tempFileName a f) (<[tempFileName a f := data]> (temp_uploads w)))
         (<[permanentFileName (sha256_hex data) f := data]> (audio_files_bucket w))
         (disk_left w f a)
         (fingerprintQueue w ++ [mk_job "fingerprint" (next_uuid (pool w)) (originalname f)])
         (sse w),
       Return (duplicate_false (next_uuid (pool w)))) ->
    upload_path sha256_hex w f a.

(** ** Notions for the statements about the hub *)

(** The subscribers registered under an id. *)
Definition subscribers_of (h : hub) (audioId : uuid) : list res :=
  default [] (warningSubscribers h !! audioId).

(** The responses of a list whose [write] does not throw. *)
Definition live (h : hub) (subscribers : list res) : list res :=
  List.filter (fun r => negb (bool_decide (r ∈ broken h))) subscribers.

(** What has been written on one response. *)
Definition received (h : hub) (r : res) : list sse_event :=
  map snd (List.filter (fun x => Nat.eqb (fst x) r) (written h)).

(** The row of an analysed file: the fingerprint, the duration and the
    status are set, the other columns are kept. *)
Definition analysed (fingerprint : string) (duration : option number) (s : status)
    (audioId : uuid) (r : audio_file) : audio_file :=
  if Nat.eqb (id r) audioId
  then mk_audio_file (id r) (content_hash r) (Some fingerprint) (storage_path r)
         (original_filename r) (file_size r) (mime_type r) duration s
  else r.

(** The world of the small run when the first file is analysed and the
    second one is not yet, and an extractor that answers for it. *)
Definition run_world3 : world :=
  mk_world run_db3 ∅ {[ "h2_b.flac"%string := [102; 76; 97; 67] ]} ∅ [] empty_hub.

Definition newline : string := String "010"%char EmptyString.

Definition fpcalc_AAAB (_ : option (list Z)) : exec_result :=
  exec_ok ("DURATION=12" +:+ newline +:+ "FINGERPRINT=AAAB" +:+ newline).

(** The character does not occur in the string. *)
Fixpoint lacks (c : ascii) (s : string) : bool :=
  match s with
  | EmptyString => true
  | String x rest => negb (Ascii.eqb x c) && lacks c rest
  end.

(** An extractor whose fingerprint line ends with base64 padding. *)
Definition fpcalc_padded (_ : option (list Z)) : exec_result :=
  exec_ok ("DURATION=" +:+ "12.5" +:+ newline
           +:+ "FINGERPRINT=" +:+ "AQID" +:+ "==" +:+ newline).
(* ===================================================================== *)
(** * Part II: theorems *)
(* ===================================================================== *)

(** ** Rounding to a double *)

Lemma pow2_pos e : (0 < pow2 e)%Q.
Proof. apply Qpower_0_lt. reflexivity. Qed.

Lemma pow2_plus a b : (pow2 (a + b) == pow2 a * pow2 b)%Q.
Proof. apply Qpower_plus. discriminate. Qed.

Lemma pow2_le a b : a <= b -> (pow2 a <= pow2 b)%Q.
Proof. intros H. apply Qpower_le_compat_l; [exact H|]. discriminate. Qed.

Lemma pow2_lt a b : a < b -> (pow2 a < pow2 b)%Q.
Proof. intros H. apply Qpower_lt_compat_l; [exact H|]. reflexivity. Qed.

Lemma pow2_lt_inv a b : (pow2 a < pow2 b)%Q -> a < b.
Proof. intros H. apply (Qpower_lt_compat_l_inv 2); [exact H|]. reflexivity. Qed.

Lemma pow2_Z e : 0 <= e -> (pow2 e == inject_Z (2 ^ e))%Q.
Proof. intros H. unfold pow2. rewrite Zpower_Qpower by exact H. reflexivity. Qed.

Lemma binade_unique (a : Q) (e1 e2 : Z) :
  (pow2 e1 <= a)%Q -> (a < pow2 (e1 + 1))%Q ->
  (pow2 e2 <= a)%Q -> (a < pow2 (e2 + 1))%Q -> e1 = e2.
Proof.
  intros H1 H2 H3 H4.
  assert (e1 < e2 + 1) by (apply pow2_lt_inv; eapply Qle_lt_trans; eauto).
  assert (e2 < e1 + 1) by (apply pow2_lt_inv; eapply Qle_lt_trans; eauto).
  lia.
Qed.

Lemma exponent_spec (a : Q) :
  (0 < a)%Q -> (pow2 (exponent a) <= a)%Q /\ (a < pow2 (exponent a + 1))%Q.
Proof.
  intros Ha. destruct a as [n d].
  assert (Hn : 0 < n) by (unfold Qlt in Ha; cbn in Ha; lia).
  unfold exponent. cbn [Qnum Qden].
  pose proof (Z.log2_spec n Hn) as [Ln1 Ln2].
  pose proof (Z.log2_spec (Z.pos d) (Pos2Z.is_pos d)) as [Ld1 Ld2].
  pose proof (Z.log2_nonneg n) as Nn.
  pose proof (Z.log2_nonneg (Z.pos d)) as Nd.
  set (ln := Z.log2 n) in *. set (ld := Z.log2 (Z.pos d)) in *.
  assert (Ea : (n # d == inject_Z n / inject_Z (Z.pos d))%Q) by apply Qmake_Qdiv.
  assert (Dpos : (0 < inject_Z (Z.pos d))%Q) by (unfold Qlt; cbn; lia).
  assert (Em : ((n # d) * inject_Z (Z.pos d) == inject_Z n)%Q).
  { rewrite Ea. field. intros E. rewrite E in Dpos. discriminate. }
  assert (Q1 : (inject_Z (2 ^ ln) <= inject_Z n)%Q) by (rewrite <- Zle_Qle; exact Ln1).
  assert (Q2 : (inject_Z n < inject_Z (2 ^ Z.succ ln))%Q) by (rewrite <- Zlt_Qlt; exact Ln2).
  assert (Q3 : (inject_Z (2 ^ ld) <= inject_Z (Z.pos d))%Q) by (rewrite <- Zle_Qle; exact Ld1).
  assert (Q4 : (inject_Z (Z.pos d) < inject_Z (2 ^ Z.succ ld))%Q) by (rewrite <- Zlt_Qlt; exact Ld2).
  rewrite <- !pow2_Z in Q1, Q2, Q3, Q4 by lia.
  destruct (Qle_bool (pow2 (ln - ld)) (n # d)) eqn:B.
  - apply Qle_bool_iff in B. split; [exact B|].
    assert (E : (pow2 (ln - ld + 1) * pow2 ld == pow2 (Z.succ ln))%Q).
    { rewrite <- pow2_plus. replace (ln - ld + 1 + ld) with (Z.succ ln) by lia. reflexivity. }
    pose proof (pow2_pos ld). pose proof (pow2_pos (ln - ld + 1)).
    apply Qnot_le_lt. intros C. 
    assert ((pow2 (ln - ld + 1) * pow2 ld <= (n # d) * inject_Z (Z.pos d))%Q).
    { apply Qle_trans with ((n # d) * pow2 ld)%Q.
      - apply Qmult_le_compat_r; [exact C | apply Qlt_le_weak; assumption].
      - rewrite !(Qmult_comm (n # d)). apply Qmult_le_compat_r; [exact Q3|].
        apply Qlt_le_weak. exact Ha. }
    rewrite E, Em in H1. apply (Qlt_not_le _ _ Q2). exact H1.
  - assert (B' : ~ (pow2 (ln - ld) <= n # d)%Q).
    { intros C. apply Qle_bool_iff in C. congruence. }
    apply Qnot_le_lt in B'. split.
    + assert (E : (pow2 (ln - ld - 1) * pow2 (Z.succ ld) == pow2 ln)%Q).
      { rewrite <- pow2_plus. replace (ln - ld - 1 + Z.succ ld) with ln by lia. reflexivity. }
      pose proof (pow2_pos (Z.succ ld)). pose proof (pow2_pos (ln - ld - 1)).
      apply Qnot_lt_le. intros C.
      assert (((n # d) * inject_Z (Z.pos d) < pow2 (ln - ld - 1) * pow2 (Z.succ ld))%Q).
      { apply Qle_lt_trans with ((n # d) * pow2 (Z.succ ld))%Q.
        - rewrite !(Qmult_comm (n # d)). apply Qmult_le_compat_r.
          + apply Qlt_le_weak. exact Q4.
          + apply Qlt_le_weak. exact Ha.
        - apply Qmult_lt_compat_r; assumption. }
      rewrite E, Em in H1. apply (Qlt_not_le _ _ H1). exact Q1.
    + replace (ln - ld - 1 + 1) with (ln - ld) by lia. exact B'.
Qed.

Lemma exponent_unique (a : Q) (e : Z) :
  (pow2 e <= a)%Q -> (a < pow2 (e + 1))%Q -> exponent a = e.
Proof.
  intros H1 H2.
  assert (Ha : (0 < a)%Q) by (eapply Qlt_le_trans; [apply pow2_pos | exact H1]).
  destruct (exponent_spec a Ha). eapply binade_unique; eauto.
Qed.

Lemma round_half_even_bounds (x : Q) : Qfloor x <= round_half_even x <= Qfloor x + 1.
Proof.
  unfold round_half_even. destruct (_ ?= _)%Q; [destruct (Z.even _)| |]; lia.
Qed.

Lemma round_half_even_Z (k : Z) : round_half_even (inject_Z k) = k.
Proof.
  unfold round_half_even. rewrite Qfloor_Z.
  destruct (Qcompare_spec (inject_Z k - inject_Z k) (1 # 2)) as [E|L|G].
  - exfalso. assert ((inject_Z k - inject_Z k == 0)%Q) by ring. rewrite H in E. discriminate.
  - reflexivity.
  - exfalso. assert (H : (inject_Z k - inject_Z k == 0)%Q) by ring. rewrite H in G. discriminate.
Qed.

Lemma round_half_even_comp (x y : Q) : (x == y)%Q -> round_half_even x = round_half_even y.
Proof.
  intros E. unfold round_half_even. rewrite (Qfloor_comp x y E).
  assert (C : (x - inject_Z (Qfloor y) ?= 1 # 2)%Q = (y - inject_Z (Qfloor y) ?= 1 # 2)%Q).
  { apply Qcompare_comp; [rewrite E|]; reflexivity. }
  rewrite C. reflexivity.
Qed.

Lemma round_half_even_le (x y : Q) : (x <= y)%Q -> round_half_even x <= round_half_even y.
Proof.
  intros L.
  pose proof (Qfloor_resp_le x y L) as F.
  pose proof (round_half_even_bounds x). pose proof (round_half_even_bounds y).
  destruct (Z.eq_dec (Qfloor x) (Qfloor y)) as [E|N]; [|lia].
  unfold round_half_even. rewrite E.
  destruct (Qcompare_spec (x - inject_Z (Qfloor y)) (1 # 2)) as [E1|L1|G1];
    destruct (Qcompare_spec (y - inject_Z (Qfloor y)) (1 # 2)) as [E2|L2|G2];
    try destruct (Z.even (Qfloor y)); try lia; exfalso; lra.
Qed.

(** The scaled value of a positive rational lies in [2^52, 2^53). *)
Lemma scaled_range (a : Q) :
  (0 < a)%Q ->
  (pow2 52 <= a / pow2 (exponent a - 52))%Q /\ (a / pow2 (exponent a - 52) < pow2 53)%Q.
Proof.
  intros Ha. destruct (exponent_spec a Ha) as [L U].
  pose proof (pow2_pos (exponent a - 52)) as P.
  assert (E1 : (pow2 (exponent a) == pow2 52 * pow2 (exponent a - 52))%Q).
  { rewrite <- pow2_plus. replace (52 + (exponent a - 52)) with (exponent a) by lia. reflexivity. }
  assert (E2 : (pow2 (exponent a + 1) == pow2 53 * pow2 (exponent a - 52))%Q).
  { rewrite <- pow2_plus. replace (53 + (exponent a - 52)) with (exponent a + 1) by lia. reflexivity. }
  rewrite E1 in L. rewrite E2 in U. split.
  - apply Qle_shift_div_l; assumption.
  - apply Qlt_shift_div_r; assumption.
Qed.

Lemma significand_range (a : Q) :
  (0 < a)%Q -> 2 ^ 52 <= round_half_even (a / pow2 (exponent a - 52)) <= 2 ^ 53.
Proof.
  intros Ha. destruct (scaled_range a Ha) as [L U].
  rewrite (pow2_Z 52) in L by lia. rewrite (pow2_Z 53) in U by lia. split.
  - rewrite <- (round_half_even_Z (2 ^ 52)). apply round_half_even_le. exact L.
  - rewrite <- (round_half_even_Z (2 ^ 53)). apply round_half_even_le. apply Qlt_le_weak. exact U.
Qed.

Lemma round_positive_bounds (a : Q) :
  (0 < a)%Q ->
  (pow2 (exponent a) <= round_positive a)%Q /\ (round_positive a <= pow2 (exponent a + 1))%Q.
Proof.
  intros Ha. destruct (significand_range a Ha) as [L U].
  pose proof (pow2_pos (exponent a - 52)) as P.
  assert (E1 : (pow2 (exponent a) == pow2 52 * pow2 (exponent a - 52))%Q).
  { rewrite <- pow2_plus. replace (52 + (exponent a - 52)) with (exponent a) by lia. reflexivity. }
  assert (E2 : (pow2 (exponent a + 1) == pow2 53 * pow2 (exponent a - 52))%Q).
  { rewrite <- pow2_plus. replace (53 + (exponent a - 52)) with (exponent a + 1) by lia. reflexivity. }
  unfold round_positive. rewrite E1, E2.
  rewrite (pow2_Z 52), (pow2_Z 53) by lia. split.
  - apply Qmult_le_compat_r; [|apply Qlt_le_weak; exact P].
    rewrite <- Zle_Qle. exact L.
  - apply Qmult_le_compat_r; [|apply Qlt_le_weak; exact P].
    rewrite <- Zle_Qle. exact U.
Qed.

Lemma round_positive_pos (a : Q) : (0 < a)%Q -> (0 < round_positive a)%Q.
Proof.
  intros Ha. eapply Qlt_le_trans; [apply pow2_pos|].
  apply (round_positive_bounds a Ha).
Qed.

Lemma round_positive_comp (x y : Q) : (0 < x)%Q -> (x == y)%Q -> (round_positive x == round_positive y)%Q.
Proof.
  intros Hx E.
  assert (Hy : (0 < y)%Q) by (rewrite <- E; exact Hx).
  assert (I : exponent x = exponent y).
  { destruct (exponent_spec y Hy). apply exponent_unique; rewrite E; assumption. }
  unfold round_positive. rewrite I.
  rewrite (round_half_even_comp (x / pow2 (exponent y - 52)) (y / pow2 (exponent y - 52))).
  - reflexivity.
  - rewrite E. reflexivity.
Qed.

Lemma round_positive_le (x y : Q) :
  (0 < x)%Q -> (x <= y)%Q -> (round_positive x <= round_positive y)%Q.
Proof.
  intros Hx L.
  assert (Hy : (0 < y)%Q) by (eapply Qlt_le_trans; eauto).
  destruct (exponent_spec x Hx) as [Lx Ux]. destruct (exponent_spec y Hy) as [Ly Uy].
  assert (I : exponent x <= exponent y).
  { assert (exponent x < exponent y + 1); [|lia].
    apply pow2_lt_inv. eapply Qle_lt_trans; [exact Lx|].
    eapply Qle_lt_trans; [exact L | exact Uy]. }
  destruct (Z.eq_dec (exponent x) (exponent y)) as [E|N].
  - unfold round_positive. rewrite E.
    pose proof (pow2_pos (exponent y - 52)) as P.
    apply Qmult_le_compat_r; [|apply Qlt_le_weak; exact P].
    rewrite <- Zle_Qle. apply round_half_even_le.
    apply Qmult_le_compat_r; [exact L|].
    apply Qlt_le_weak. apply Qinv_lt_0_compat. exact P.
  - apply Qle_trans with (pow2 (exponent x + 1)).
    + apply (round_positive_bounds x Hx).
    + apply Qle_trans with (pow2 (exponent y)).
      * apply pow2_le. lia.
      * apply (round_positive_bounds y Hy).
Qed.

Lemma round_positive_idem (a : Q) :
  (0 < a)%Q -> (round_positive (round_positive a) == round_positive a)%Q.
Proof.
  intros Ha.
  destruct (significand_range a Ha) as [L U].
  set (e := exponent a) in *. set (k := round_half_even (a / pow2 (e - 52))) in *.
  assert (R : (round_positive a == inject_Z k * pow2 (e - 52))%Q) by reflexivity.
  pose proof (pow2_pos (e - 52)) as P.
  assert (Pn : ~ (pow2 (e - 52) == 0)%Q) by (intros E; rewrite E in P; discriminate).
  destruct (Z.eq_dec k (2 ^ 53)) as [K|K].
  - (* the significand rounded up to the next power of two *)
    assert (V : (round_positive a == pow2 (e + 1))%Q).
    { rewrite R, K, <- pow2_Z by lia. rewrite <- pow2_plus.
      replace (53 + (e - 52)) with (e + 1) by lia. reflexivity. }
    assert (I : exponent (round_positive a) = e + 1).
    { apply exponent_unique; rewrite V; [apply Qle_refl | apply pow2_lt; lia]. }
    unfold round_positive at 1. rewrite I.
    rewrite (round_half_even_comp _ (inject_Z (2 ^ 52))).
    + rewrite round_half_even_Z, V, <- pow2_Z by lia. rewrite <- pow2_plus.
      replace (52 + (e + 1 - 52)) with (e + 1) by lia. reflexivity.
    + rewrite V, <- pow2_Z by lia.
      assert (E : (pow2 (e + 1) == pow2 52 * pow2 (e + 1 - 52))%Q).
      { rewrite <- pow2_plus. replace (52 + (e + 1 - 52)) with (e + 1) by lia. reflexivity. }
      rewrite E. field.
      pose proof (pow2_pos (e + 1 - 52)) as P'. intros E'. rewrite E' in P'. discriminate.
  - assert (I : exponent (round_positive a) = e).
    { apply exponent_unique.
      - apply (round_positive_bounds a Ha).
      - rewrite R.
        assert (E : (pow2 (e + 1) == pow2 53 * pow2 (e - 52))%Q).
        { rewrite <- pow2_plus. replace (53 + (e - 52)) with (e + 1) by lia. reflexivity. }
        rewrite E, (pow2_Z 53) by lia.
        apply Qmult_lt_compat_r; [exact P|]. rewrite <- Zlt_Qlt. lia. }
    unfold round_positive at 1. rewrite I.
    rewrite (round_half_even_comp _ (inject_Z k)).
    + rewrite round_half_even_Z. reflexivity.
    + rewrite R. field. exact Pn.
Qed.

Lemma to_double_comp (x y : Q) : (x == y)%Q -> to_double x = to_double y.
Proof. intros E. unfold to_double. rewrite (Qred_complete x y E). reflexivity. Qed.

Lemma Qnum_sign (r : Q) :
  match Qnum r with
  | Z0 => (r == 0)%Q
  | Zpos _ => (0 < r)%Q
  | Zneg _ => (r < 0)%Q
  end.
Proof.
  destruct r as [[|p|p] d]; unfold Qeq, Qlt; cbn; lia.
Qed.

Lemma to_double_zero (x : Q) : (x == 0)%Q -> to_double x = 0%Q.
Proof. intros E. rewrite (to_double_comp x 0 E). reflexivity. Qed.

Lemma to_double_pos (x : Q) :
  (0 < x)%Q -> (to_double x == round_positive x)%Q /\ (0 < to_double x)%Q.
Proof.
  intros Hx. unfold to_double.
  pose proof (Qred_correct x) as E. pose proof (Qnum_sign (Qred x)) as S.
  destruct (Qnum (Qred x)).
  - exfalso. lra.
  - assert (C : (round_positive (Qred x) == round_positive x)%Q) by (apply round_positive_comp; assumption).
    split; [exact C|]. rewrite C. apply round_positive_pos, Hx.
  - exfalso. lra.
Qed.

Lemma to_double_neg (x : Q) :
  (x < 0)%Q -> (to_double x == - round_positive (- x))%Q /\ (to_double x < 0)%Q.
Proof.
  intros Hx. unfold to_double.
  pose proof (Qred_correct x) as E. pose proof (Qnum_sign (Qred x)) as S.
  assert (Hx' : (0 < - x)%Q) by lra.
  destruct (Qnum (Qred x)).
  - exfalso. lra.
  - exfalso. lra.
  - assert (C : (round_positive (- Qred x) == round_positive (- x))%Q).
    { apply round_positive_comp; [rewrite E; exact Hx' | rewrite E; reflexivity]. }
    rewrite C. split; [reflexivity|].
    pose proof (round_positive_pos (- x) Hx'). lra.
Qed.

Lemma to_double_nonneg (x : Q) : (0 <= x)%Q -> (0 <= to_double x)%Q.
Proof.
  intros Hx. destruct (Qlt_le_dec 0 x) as [P|N].
  - apply Qlt_le_weak, to_double_pos, P.
  - rewrite to_double_zero by lra. apply Qle_refl.
Qed.

(** Rounding is monotone. *)
Lemma to_double_le (x y : Q) : (x <= y)%Q -> (to_double x <= to_double y)%Q.
Proof.
  intros L.
  destruct (Qlt_le_dec 0 x) as [Px|Nx].
  - assert (Py : (0 < y)%Q) by lra.
    destruct (to_double_pos x Px) as [Ex _]. destruct (to_double_pos y Py) as [Ey _].
    rewrite Ex, Ey. apply round_positive_le; assumption.
  - destruct (Qlt_le_dec x 0) as [Nx'|Zx].
    + destruct (to_double_neg x Nx') as [Ex Sx].
      destruct (Qlt_le_dec y 0) as [Ny|Py].
      * destruct (to_double_neg y Ny) as [Ey _]. rewrite Ex, Ey.
        assert ((round_positive (- y) <= round_positive (- x))%Q) by (apply round_positive_le; lra).
        lra.
      * pose proof (to_double_nonneg y Py). lra.
    + rewrite (to_double_zero x) by lra. apply to_double_nonneg. lra.
Qed.

(** A double rounds to itself. *)
Lemma to_double_idem (x : Q) : (to_double (to_double x) == to_double x)%Q.
Proof.
  destruct (Qlt_le_dec 0 x) as [Px|Nx].
  - destruct (to_double_pos x Px) as [Ex Sx].
    destruct (to_double_pos _ Sx) as [E2 _].
    rewrite E2. rewrite (round_positive_comp _ _ Sx Ex). rewrite Ex.
    apply round_positive_idem, Px.
  - destruct (Qlt_le_dec x 0) as [Nx'|Zx].
    + destruct (to_double_neg x Nx') as [Ex Sx].
      destruct (to_double_neg _ Sx) as [E2 _].
      assert (Hx' : (0 < - x)%Q) by lra.
      pose proof (round_positive_pos (- x) Hx') as R.
      rewrite E2.
      rewrite (round_positive_comp (- to_double x) (round_positive (- x))).
      * rewrite Ex. rewrite (round_positive_idem (- x) Hx'). reflexivity.
      * lra.
      * rewrite Ex. ring.
    + rewrite (to_double_zero x) by lra. reflexivity.
Qed.

Lemma to_double_constants :
  to_double 0 = 0%Q /\ (to_double 1 == 1)%Q /\ (to_double 70 == 70)%Q /\ (to_double 100 == 100)%Q.
Proof. repeat split; vm_compute; reflexivity. Qed.

(** Rounding moves a number by half a unit in the last place at most. *)
Lemma round_half_even_near (x : Q) :
  (inject_Z (round_half_even x) - x <= 1 # 2)%Q /\
  (x - inject_Z (round_half_even x) <= 1 # 2)%Q.
Proof.
  unfold round_half_even.
  pose proof (Qfloor_le x) as L. pose proof (Qlt_floor x) as U.
  rewrite inject_Z_plus in U. change (inject_Z 1) with 1%Q in U.
  destruct (Qcompare_spec (x - inject_Z (Qfloor x)) (1 # 2)) as [E|E|E];
    [destruct (Z.even (Qfloor x))| |];
    rewrite ?inject_Z_plus; change (inject_Z 1) with 1%Q; split; lra.
Qed.

Lemma round_positive_near (a : Q) :
  (0 < a)%Q ->
  (round_positive a - a <= pow2 (exponent a - 53))%Q /\
  (a - round_positive a <= pow2 (exponent a - 53))%Q.
Proof.
  intros Ha. unfold round_positive.
  pose proof (pow2_pos (exponent a - 52)) as P.
  assert (Pn : ~ (pow2 (exponent a - 52) == 0)%Q) by lra.
  assert (E : (pow2 (exponent a - 52) == 2 * pow2 (exponent a - 53))%Q).
  { replace (exponent a - 52) with (1 + (exponent a - 53)) by lia.
    rewrite pow2_plus. reflexivity. }
  destruct (round_half_even_near (a / pow2 (exponent a - 52))) as [N1 N2].
  set (k := inject_Z (round_half_even (a / pow2 (exponent a - 52)))) in *.
  assert (E1 : (k * pow2 (exponent a - 52) - a
                == (k - a / pow2 (exponent a - 52)) * pow2 (exponent a - 52))%Q)
    by (field; exact Pn).
  assert (E2 : (a - k * pow2 (exponent a - 52)
                == (a / pow2 (exponent a - 52) - k) * pow2 (exponent a - 52))%Q)
    by (field; exact Pn).
  split.
  - rewrite E1.
    apply Qle_trans with ((1 # 2) * pow2 (exponent a - 52))%Q; [|lra].
    apply Qmult_le_compat_r; lra.
  - rewrite E2.
    apply Qle_trans with ((1 # 2) * pow2 (exponent a - 52))%Q; [|lra].
    apply Qmult_le_compat_r; lra.
Qed.

(** Integers below 2^53 are doubles. *)
Lemma to_double_Z (z : Z) :
  0 <= z < 2 ^ 53 -> (to_double (inject_Z z) == inject_Z z)%Q.
Proof.
  intros [H0 H1]. destruct (Z.eq_dec z 0) as [->|Hz]; [reflexivity|].
  assert (Ha : (0 < inject_Z z)%Q) by (rewrite <- (Zlt_Qlt 0); lia).
  destruct (to_double_pos _ Ha) as [E _]. rewrite E.
  destruct (exponent_spec _ Ha) as [L U].
  set (e := exponent (inject_Z z)) in *.
  assert (He : e < 53).
  { apply pow2_lt_inv. eapply Qle_lt_trans; [exact L|].
    rewrite (pow2_Z 53) by lia. rewrite <- Zlt_Qlt. exact H1. }
  unfold round_positive. fold e.
  assert (S : (inject_Z z / pow2 (e - 52) == inject_Z (z * 2 ^ (52 - e)))%Q).
  { rewrite inject_Z_mult, <- pow2_Z by lia.
    unfold Qdiv. replace (52 - e) with (- (e - 52)) by lia.
    unfold pow2. rewrite Qpower_opp. reflexivity. }
  rewrite (round_half_even_comp _ _ S), round_half_even_Z.
  rewrite inject_Z_mult, <- pow2_Z by lia.
  rewrite <- Qmult_assoc, <- pow2_plus.
  replace (52 - e + (e - 52)) with 0 by lia.
  change (pow2 0) with 1%Q. ring.
Qed.

(** [to_double] against the Standard Library's binary64: for fingerprints
    of up to 24 characters and every distance up to the bit count, and for
    longer ones near a tie of [toFixed] and on both sides of the
    threshold, the percentage computed is the binary64 one. *)
Lemma percent_is_binary64_table :
  forallb (fun p => same_number
                      (js_mul (js_div (js_sub (num (fst p)) (num (snd p))) (num (fst p)))
                         (num 100))
                      (binary64_value (binary64_percent (fst p) (snd p))))
    (small_pairs 24 ++ [(12000, 9); (12000, 3600); (12000, 3601); (60, 18); (60, 19);
                         (6000000, 1800001); (0, 0); (0, 8); (6, 8)])
  = true.
Proof. vm_compute. reflexivity. Qed.

Lemma percent_is_binary64 (n d : Z) :
  1 <= n <= 24 -> 0 <= d <= 6 * n ->
  same_number (js_mul (js_div (js_sub (num (6 * n)) (num d)) (num (6 * n))) (num 100))
    (binary64_value (binary64_percent (6 * n) d)) = true.
Proof.
  intros Hn Hd. pose proof percent_is_binary64_table as T.
  rewrite forallb_app in T. apply andb_true_iff in T. destruct T as [T _].
  rewrite forallb_forall in T.
  apply (T (6 * n, d)). unfold small_pairs. apply in_flat_map.
  exists (Z.to_nat (n - 1)). split; [apply in_seq; lia|].
  apply in_map_iff. exists (Z.to_nat d). split.
  - f_equal; lia.
  - apply in_seq. lia.
Qed.

(** ** The bit-counting loop *)

Lemma while_xor_shift (fuel : nat) (xor d : Z) :
  while_xor fuel xor d = (fst (while_xor fuel xor 0), d + snd (while_xor fuel xor 0)).
Proof.
  revert xor d. induction fuel as [|fuel IH]; intros xor d; simpl.
  - f_equal. lia.
  - destruct (xor =? 0); simpl.
    + f_equal. lia.
    + rewrite (IH _ (d + Z.land xor 1)), (IH _ (0 + Z.land xor 1)). simpl.
      f_equal. lia.
Qed.

Lemma in_bytes_upto (n : nat) (x : Z) : 0 <= x < Z.of_nat n -> In x (bytes_upto n).
Proof.
  intros Hx. unfold bytes_upto. apply in_map_iff. exists (Z.to_nat x). split.
  - lia.
  - apply in_seq. lia.
Qed.

Lemma while_xor_table :
  forallb (fun x => (fst (while_xor 8 x 0) =? 0) && (snd (while_xor 8 x 0) =? popcount x))
    (bytes_upto 256) = true.
Proof. vm_compute. reflexivity. Qed.

(** Eight iterations end the loop on a byte, and it has then added the
    number of bits set. *)
Lemma while_xor_ends (xor d : Z) :
  is_byte xor -> while_xor 8 xor d = (0, d + popcount xor).
Proof.
  intros Hx. rewrite while_xor_shift.
  pose proof while_xor_table as T. rewrite forallb_forall in T.
  specialize (T xor (in_bytes_upto 256 xor Hx)).
  apply andb_prop in T as [T1 T2].
  apply Z.eqb_eq in T1, T2. rewrite T1, T2. reflexivity.
Qed.

Lemma lxor_byte (x y : Z) : is_byte x -> is_byte y -> is_byte (Z.lxor x y).
Proof.
  unfold is_byte. intros Hx Hy. split.
  - apply Z.lxor_nonneg. lia.
  - destruct (Z.eq_dec (Z.lxor x y) 0) as [->|Hne]; [lia|].
    apply (Z.log2_lt_pow2 _ 8); [pose proof (proj2 (Z.lxor_nonneg x y)); lia|].
    eapply Z.le_lt_trans; [apply Z.log2_lxor; lia|].
    apply Z.max_lub_lt.
    + destruct (Z.eq_dec x 0) as [->|]; [simpl; lia|]. apply Z.log2_lt_pow2; lia.
    + destruct (Z.eq_dec y 0) as [->|]; [simpl; lia|]. apply Z.log2_lt_pow2; lia.
Qed.

(** ** The decoder yields bytes *)

Lemma unbase64_sextet (c : ascii) (v : Z) : unbase64 c = Some v -> is_sextet v.
Proof.
  unfold unbase64, is_sextet. intros H.
  repeat match type of H with
         | (if ?b then _ else _) = _ => destruct b eqn:?
         end; inversion H; subst; lia.
Qed.

Lemma sextets_range (s : string) : Forall is_sextet (sextets s).
Proof.
  induction s as [|c s IH]; simpl; [constructor|].
  destruct (code c =? 61); [constructor|].
  destruct (unbase64 c) eqn:E; [|exact IH].
  constructor; [eapply unbase64_sextet; eauto|exact IH].
Qed.

Lemma byte_table :
  forallb (fun a => forallb (fun b =>
      (0 <=? byte1 a b) && (byte1 a b <? 256) && (0 <=? byte2 a b) && (byte2 a b <? 256)
      && (0 <=? byte3 a b) && (byte3 a b <? 256)) (bytes_upto 64)) (bytes_upto 64) = true.
Proof. vm_compute. reflexivity. Qed.

Lemma bytes_of_two_sextets (a b : Z) :
  is_sextet a -> is_sextet b ->
  is_byte (byte1 a b) /\ is_byte (byte2 a b) /\ is_byte (byte3 a b).
Proof.
  intros Ha Hb. pose proof byte_table as T. rewrite forallb_forall in T.
  specialize (T a (in_bytes_upto 64 a Ha)). rewrite forallb_forall in T.
  specialize (T b (in_bytes_upto 64 b Hb)).
  repeat (apply andb_prop in T as [T ?]). unfold is_byte. lia.
Qed.

Lemma bytes_of_sextets_range (l : list Z) :
  Forall is_sextet l -> Forall is_byte (bytes_of_sextets l).
Proof.
  revert l. fix IH 1. intros l H.
  destruct l as [|a [|b [|c [|d rest]]]]; simpl; try constructor.
  - inversion H as [|? ? Ha H1]; subst. inversion H1 as [|? ? Hb H2]; subst.
    apply (bytes_of_two_sextets a b Ha Hb).
  - constructor.
  - inversion H as [|? ? Ha H1]; subst. inversion H1 as [|? ? Hb H2]; subst.
    apply (bytes_of_two_sextets a b Ha Hb).
  - inversion H as [|? ? Ha H1]; subst. inversion H1 as [|? ? Hb H2]; subst.
    inversion H2 as [|? ? Hc H3]; subst.
    constructor; [apply (bytes_of_two_sextets b c Hb Hc)|constructor].
  - inversion H as [|? ? Ha H1]; subst. inversion H1 as [|? ? Hb H2]; subst.
    apply (bytes_of_two_sextets a b Ha Hb).
  - inversion H as [|? ? Ha H1]; subst. inversion H1 as [|? ? Hb H2]; subst.
    inversion H2 as [|? ? Hc H3]; subst. inversion H3 as [|? ? Hd H4]; subst.
    constructor; [apply (bytes_of_two_sextets b c Hb Hc)|].
    constructor; [apply (bytes_of_two_sextets c d Hc Hd)|].
    apply IH. exact H4.
Qed.

Lemma Buffer_from_base64_bytes (s : string) : Forall is_byte (Buffer_from_base64 s).
Proof. apply bytes_of_sextets_range, sextets_range. Qed.

(** ** The [for] loop of [hammingDistance] *)

Lemma for_body_popcount (p1 p2 l1 l2 : list Z) (x y d : Z) :
  length p1 = length p2 -> is_byte x -> is_byte y ->
  for_body (p1 ++ x :: l1) (p2 ++ y :: l2) d (length p1) = d + popcount (Z.lxor x y).
Proof.
  intros Hlen Hx Hy. unfold for_body, byteAt.
  rewrite nth_middle. rewrite Hlen, nth_middle.
  rewrite while_xor_ends by (apply lxor_byte; assumption). reflexivity.
Qed.

Lemma for_loop_popcount (l1 : list Z) :
  forall (l2 p1 p2 : list Z) (d : Z),
    length p1 = length p2 -> Forall is_byte l1 -> Forall is_byte l2 ->
    fold_left (for_body (p1 ++ l1) (p2 ++ l2))
      (seq (length p1) (Nat.min (length l1) (length l2))) d
    = d + xor_popcount l1 l2.
Proof.
  induction l1 as [|x l1 IH]; intros l2 p1 p2 d Hlen H1 H2.
  - simpl. lia.
  - destruct l2 as [|y l2].
    + simpl. lia.
    + inversion H1 as [|? ? Hx H1']; subst. inversion H2 as [|? ? Hy H2']; subst.
      cbn [length Nat.min seq fold_left xor_popcount].
      rewrite for_body_popcount by assumption.
      replace (p1 ++ x :: l1) with ((p1 ++ [x]) ++ l1) by (rewrite <- app_assoc; reflexivity).
      replace (p2 ++ y :: l2) with ((p2 ++ [y]) ++ l2) by (rewrite <- app_assoc; reflexivity).
      replace (S (length p1)) with (length (p1 ++ [x])) by (rewrite length_app; simpl; lia).
      rewrite IH; [lia| |assumption|assumption].
      rewrite !length_app. simpl. lia.
Qed.

(** The code's distance on two decoded buffers is the specification's. *)
Lemma distance_loop_spec (bin1 bin2 : list Z) :
  Forall is_byte bin1 -> Forall is_byte bin2 ->
  fold_left (for_body bin1 bin2)
    (seq 0 (Z.to_nat (Z.min (buflen bin1) (buflen bin2))))
    (Z.abs (buflen bin1 - buflen bin2) * 8)
  = spec_distance bin1 bin2.
Proof.
  intros H1 H2. unfold spec_distance, buflen.
  replace (Z.to_nat (Z.min (Z.of_nat (length bin1)) (Z.of_nat (length bin2))))
    with (Nat.min (length bin1) (length bin2)) by lia.
  exact (for_loop_popcount bin1 bin2 [] [] _ eq_refl H1 H2).
Qed.

Lemma hammingDistance_nonempty (a b : string) :
  falsy (trim a) = false -> falsy (trim b) = false ->
  hammingDistance (Some a) (Some b)
  = num (spec_distance (Buffer_from_base64 (trim a)) (Buffer_from_base64 (trim b))).
Proof.
  intros Ha Hb. unfold hammingDistance. simpl default. rewrite Ha, Hb. simpl orb.
  cbv zeta. rewrite distance_loop_spec by apply Buffer_from_base64_bytes. reflexivity.
Qed.

(** ** Trimming and decoding *)

Lemma whitespace_skipped (c : ascii) (s : string) :
  isWhiteSpace c = true -> sextets (String c s) = sextets s.
Proof.
  unfold isWhiteSpace. intros H. simpl. unfold unbase64.
  assert (Hc : 9 <= code c <= 13 \/ code c = 32 \/ code c = 160) by lia.
  destruct (code c =? 61) eqn:E1; [lia|].
  destruct ((65 <=? code c) && (code c <=? 90)) eqn:E2; [lia|].
  destruct ((97 <=? code c) && (code c <=? 122)) eqn:E3; [lia|].
  destruct ((48 <=? code c) && (code c <=? 57)) eqn:E4; [lia|].
  destruct ((code c =? 43) || (code c =? 45)) eqn:E5; [lia|].
  destruct ((code c =? 47) || (code c =? 95)) eqn:E6; [lia|].
  reflexivity.
Qed.

Lemma sextets_trimStart (s : string) : sextets (trimStart s) = sextets s.
Proof.
  induction s as [|c s IH]; [reflexivity|].
  cbn [trimStart]. destruct (isWhiteSpace c) eqn:E; [|reflexivity].
  rewrite whitespace_skipped by exact E. exact IH.
Qed.

Lemma sextets_cons_congr (c : ascii) (s t : string) :
  sextets s = sextets t -> sextets (String c s) = sextets (String c t).
Proof. intros H. simpl. rewrite H. reflexivity. Qed.

Lemma sextets_trimEnd (s : string) : sextets (trimEnd s) = sextets s.
Proof.
  induction s as [|c s IH]; [reflexivity|].
  cbn [trimEnd]. destruct (trimEnd s) as [|k kept] eqn:E.
  - destruct (isWhiteSpace c) eqn:W.
    + rewrite whitespace_skipped by exact W. exact IH.
    + apply sextets_cons_congr. exact IH.
  - apply sextets_cons_congr. exact IH.
Qed.

(** The decoder ignores the white space [trim] removes. *)
Lemma Buffer_from_base64_trim (s : string) :
  Buffer_from_base64 (trim s) = Buffer_from_base64 s.
Proof.
  unfold Buffer_from_base64, trim. rewrite sextets_trimEnd, sextets_trimStart.
  reflexivity.
Qed.

Lemma trimStart_nonempty (s : string) : falsy (trimStart s) = false -> falsy s = false.
Proof. destruct s; simpl; [discriminate|reflexivity]. Qed.

Lemma trimEnd_nonempty (s : string) : falsy (trimEnd s) = false -> falsy s = false.
Proof. destruct s; simpl; [discriminate|reflexivity]. Qed.

Lemma trim_nonempty (s : string) : falsy (trim s) = false -> 1 <= strlen s.
Proof.
  intros H. apply trimEnd_nonempty, trimStart_nonempty in H.
  destruct s; [discriminate|]. unfold strlen. simpl. lia.
Qed.

Lemma popcount_nonneg (x : Z) : 0 <= popcount x.
Proof. unfold popcount. lia. Qed.

Lemma xor_popcount_nonneg (bin1 bin2 : list Z) : 0 <= xor_popcount bin1 bin2.
Proof.
  revert bin2. induction bin1 as [|x bin1 IH]; intros [|y bin2]; simpl; try lia.
  pose proof (popcount_nonneg (Z.lxor x y)). pose proof (IH bin2). lia.
Qed.

Lemma spec_distance_nonneg (bin1 bin2 : list Z) : 0 <= spec_distance bin1 bin2.
Proof. unfold spec_distance. pose proof (xor_popcount_nonneg bin1 bin2). lia. Qed.

(** ** The distance never exceeds [maxBits] *)

Lemma sextets_length (s : string) : (length (sextets s) <= String.length s)%nat.
Proof.
  induction s as [|c s IH]; simpl; [lia|].
  destruct (code c =? 61); [simpl; lia|].
  destruct (unbase64 c); simpl; lia.
Qed.

Lemma bytes_of_sextets_length (l : list Z) :
  (4 * length (bytes_of_sextets l) <= 3 * length l)%nat.
Proof.
  revert l. fix IH 1. intros l.
  destruct l as [|a [|b [|c [|d rest]]]]; simpl; try lia.
  specialize (IH rest). lia.
Qed.

Lemma Buffer_from_base64_length (s : string) :
  4 * buflen (Buffer_from_base64 s) <= 3 * strlen s.
Proof.
  unfold buflen, strlen, Buffer_from_base64.
  pose proof (bytes_of_sextets_length (sextets s)). pose proof (sextets_length s). lia.
Qed.

Lemma popcount_le_8 (x : Z) : popcount x <= 8.
Proof.
  unfold popcount.
  pose proof (length_filter (fun k => Z.testbit x (Z.of_nat k) = true) (seq 0 8)) as H.
  rewrite length_seq in H. lia.
Qed.

Lemma xor_popcount_le (bin1 bin2 : list Z) :
  xor_popcount bin1 bin2 <= 8 * Z.min (buflen bin1) (buflen bin2).
Proof.
  unfold buflen. revert bin2.
  induction bin1 as [|x bin1 IH]; intros [|y bin2]; simpl length; simpl xor_popcount;
    try lia.
  pose proof (popcount_le_8 (Z.lxor x y)). specialize (IH bin2). lia.
Qed.

Lemma spec_distance_le (bin1 bin2 : list Z) :
  spec_distance bin1 bin2 <= 8 * Z.max (buflen bin1) (buflen bin2).
Proof. unfold spec_distance. pose proof (xor_popcount_le bin1 bin2). lia. Qed.

(** ** The percentage *)

Lemma distance_bounds (a b : string) :
  falsy (trim a) = false ->
  let d := spec_distance (Buffer_from_base64 a) (Buffer_from_base64 b) in
  0 < maxBits a b /\ 0 <= d <= maxBits a b.
Proof.
  intros Ha d. unfold maxBits.
  pose proof (trim_nonempty a Ha).
  pose proof (spec_distance_nonneg (Buffer_from_base64 a) (Buffer_from_base64 b)).
  pose proof (spec_distance_le (Buffer_from_base64 a) (Buffer_from_base64 b)).
  pose proof (Buffer_from_base64_length a). pose proof (Buffer_from_base64_length b).
  subst d. unfold strlen in *. lia.
Qed.

(** [(m - d) / m * 100] in double arithmetic, for a bit count [m] and a
    distance [d] of at most [m]. *)
Lemma percent_value (m d : Z) :
  0 < m -> 0 <= d <= m ->
  exists q : Q,
    js_mul (js_div (js_sub (num m) (num d)) (num m)) (num 100) = Fin q /\
    (0 <= q)%Q /\ (q <= 100)%Q /\ (d = 0 -> (q == 100)%Q).
Proof.
  intros Hm [Hd0 Hdm]. unfold num. cbn [js_sub js_div].
  destruct to_double_constants as (_ & E1 & _ & E100).
  assert (PM : (0 < to_double (inject_Z m))%Q)
    by (apply to_double_pos; rewrite <- (Zlt_Qlt 0); exact Hm).
  assert (PD : (0 <= to_double (inject_Z d))%Q)
    by (apply to_double_nonneg; rewrite <- (Zle_Qle 0); exact Hd0).
  assert (DM : (to_double (inject_Z d) <= to_double (inject_Z m))%Q)
    by (apply to_double_le; rewrite <- Zle_Qle; exact Hdm).
  assert (Z : Qeq_bool (to_double (inject_Z m)) 0 = false).
  { destruct (Qeq_bool (to_double (inject_Z m)) 0) eqn:E; [|reflexivity].
    apply Qeq_bool_iff in E. lra. }
  rewrite Z. cbn [js_mul].
  pose proof (to_double_idem (inject_Z m)) as Idem.
  set (M := to_double (inject_Z m)) in *. set (D := to_double (inject_Z d)) in *.
  assert (X0 : (0 <= to_double (M - D))%Q) by (apply to_double_nonneg; lra).
  assert (XM : (to_double (M - D) <= M)%Q).
  { assert (L : (to_double (M - D) <= to_double M)%Q) by (apply to_double_le; lra).
    lra. }
  set (X := to_double (M - D)) in *.
  assert (R0 : (0 <= to_double (X / M))%Q).
  { apply to_double_nonneg. apply Qle_shift_div_l; lra. }
  assert (R1 : (to_double (X / M) <= 1)%Q).
  { assert (L : (to_double (X / M) <= to_double 1)%Q).
    { apply to_double_le. apply Qle_shift_div_r; lra. }
    lra. }
  set (r := to_double (X / M)) in *.
  exists (to_double (r * to_double 100)). split; [reflexivity|]. split; [|split].
  - apply to_double_nonneg. apply Qmult_le_0_compat; lra.
  - apply Qle_trans with (to_double 100); [|lra].
    apply to_double_le. rewrite E100.
    apply Qle_trans with (1 * 100)%Q; [|lra].
    apply Qmult_le_compat_r; lra.
  - intros ->.
    assert (EX : X = to_double M).
    { subst X. apply to_double_comp. subst D. change (to_double (inject_Z 0)) with 0%Q. ring. }
    assert (Er : r = to_double 1).
    { subst r. apply to_double_comp. rewrite EX, Idem. field. lra. }
    rewrite (to_double_comp (r * to_double 100) 100); [exact E100|].
    rewrite Er, E1, E100. reflexivity.
Qed.

(** The same value when the bit count is below 2^53 (it always is: a
    string has fewer than 2^53 code units): the integers are exact, and
    the division and the multiplication round once each. *)
Lemma percent_exact (m d : Z) :
  0 < m < 2 ^ 53 -> 0 <= d <= m ->
  js_mul (js_div (js_sub (num m) (num d)) (num m)) (num 100)
  = Fin (to_double (to_double ((inject_Z m - inject_Z d) / inject_Z m) * 100)).
Proof.
  intros [Hm0 Hm1] [Hd0 Hdm]. unfold num. cbn [js_sub js_div].
  destruct to_double_constants as (_ & _ & _ & E100).
  pose proof (to_double_Z m ltac:(lia)) as EM.
  pose proof (to_double_Z d ltac:(lia)) as ED.
  pose proof (to_double_Z (m - d) ltac:(lia)) as EX.
  assert (PM : (0 < inject_Z m)%Q) by (rewrite <- (Zlt_Qlt 0); exact Hm0).
  assert (Z : Qeq_bool (to_double (inject_Z m)) 0 = false).
  { destruct (Qeq_bool (to_double (inject_Z m)) 0) eqn:E; [|reflexivity].
    apply Qeq_bool_iff in E. lra. }
  rewrite Z. cbn [js_mul]. f_equal.
  assert (Esub : (inject_Z (m - d) == inject_Z m - inject_Z d)%Q).
  { unfold Z.sub. rewrite inject_Z_plus, inject_Z_opp. reflexivity. }
  assert (E1 : (to_double (to_double (inject_Z m) - to_double (inject_Z d))
                == inject_Z m - inject_Z d)%Q).
  { rewrite (to_double_comp _ (inject_Z (m - d))); [rewrite EX; exact Esub|].
    rewrite EM, ED, Esub. reflexivity. }
  apply to_double_comp. rewrite E100.
  rewrite (to_double_comp _ ((inject_Z m - inject_Z d) / inject_Z m)); [reflexivity|].
  rewrite E1, EM. reflexivity.
Qed.

Lemma percent_formula (a b : string) :
  falsy (trim a) = false -> falsy (trim b) = false ->
  let bin1 := Buffer_from_base64 a in
  let bin2 := Buffer_from_base64 b in
  let distance := Z.abs (buflen bin1 - buflen bin2) * 8 + xor_popcount bin1 bin2 in
  let maxbits := Z.max (strlen a) (strlen b) * 6 in
  hammingDistance (Some a) (Some b) = num distance /\
  maxBits a b = maxbits /\
  similarityPercent a b
  = js_mul (js_div (js_sub (num maxbits) (num distance)) (num maxbits)) (num 100) /\
  (maxbits < 2 ^ 53 ->
   similarityPercent a b
   = Fin (to_double
            (to_double ((inject_Z maxbits - inject_Z distance) / inject_Z maxbits) * 100))).
Proof.
  intros Ha Hb bin1 bin2 distance maxbits.
  assert (Hd : hammingDistance (Some a) (Some b) = num distance).
  { rewrite hammingDistance_nonempty by assumption.
    rewrite !Buffer_from_base64_trim. reflexivity. }
  assert (Hp : similarityPercent a b
               = js_mul (js_div (js_sub (num maxbits) (num distance)) (num maxbits))
                   (num 100)).
  { unfold similarityPercent. rewrite Hd. reflexivity. }
  split; [exact Hd|]. split; [reflexivity|]. split; [exact Hp|].
  intros Hsmall. rewrite Hp.
  destruct (distance_bounds a b Ha) as [Hm Hdm].
  apply percent_exact; [split; [exact Hm|exact Hsmall]|exact Hdm].
Qed.

(** C3, the statement as given fails for a blank fingerprint: the empty
    string decodes to no byte, so against ["AAAA"] the formula gives a
    distance of 24, but the code answers [Infinity] before it decodes
    anything, and the percentage is [-Infinity]. *)
Lemma blank_distance_counterexample :
  let bin1 := Buffer_from_base64 "" in
  let bin2 := Buffer_from_base64 "AAAA" in
  bin1 = [] /\ bin2 = [0; 0; 0] /\
  Z.abs (buflen bin1 - buflen bin2) * 8 + xor_popcount bin1 bin2 = 24 /\
  hammingDistance (Some "") (Some "AAAA") = Infinity /\
  hammingDistance (Some "") (Some "AAAA") <> num 24 /\
  similarityPercent "" "AAAA" = NegInfinity.
Proof.
  cbv zeta. split; [reflexivity|]. split; [reflexivity|]. split; [reflexivity|].
  split; [reflexivity|]. split; [discriminate|reflexivity].
Qed.

(** C3, amended. For two fingerprints neither of which is empty or
    white space only, the distance is [|len1 - len2| * 8] plus the
    popcount of the XOR over the common prefix of the decoded bytes,
    [maxBits] is six times the longer encoded length, and the percentage
    is [(maxBits - distance) / maxBits * 100] in double arithmetic: with
    [maxBits] below 2^53, the double nearest to 100 times the double
    nearest to the quotient. *)
Theorem similarity_formula (a b : string) :
  falsy (trim a) = false -> falsy (trim b) = false ->
  let bin1 := Buffer_from_base64 a in
  let bin2 := Buffer_from_base64 b in
  let distance := Z.abs (buflen bin1 - buflen bin2) * 8 + xor_popcount bin1 bin2 in
  let maxbits := Z.max (strlen a) (strlen b) * 6 in
  hammingDistance (Some a) (Some b) = num distance /\
  maxBits a b = maxbits /\
  similarityPercent a b
  = js_mul (js_div (js_sub (num maxbits) (num distance)) (num maxbits)) (num 100) /\
  (maxbits < 2 ^ 53 ->
   similarityPercent a b
   = Fin (to_double
            (to_double ((inject_Z maxbits - inject_Z distance) / inject_Z maxbits) * 100))).
Proof. exact (percent_formula a b). Qed.

Lemma similarity_formula_witness :
  falsy (trim "AQID") = false /\ falsy (trim "AAAA") = false /\
  hammingDistance (Some "AQID") (Some "AAAA") = num 4 /\
  maxBits "AQID" "AAAA" = 24 /\
  similarityPercent "AQID" "AAAA"
  = js_mul (js_div (js_sub (num 24) (num 4)) (num 24)) (num 100) /\
  (24 < 2 ^ 53 ->
   similarityPercent "AQID" "AAAA"
   = Fin (to_double (to_double ((inject_Z 24 - inject_Z 4) / inject_Z 24) * 100))).
Proof.
  split; [reflexivity|]. split; [reflexivity|].
  apply (similarity_formula "AQID" "AAAA"); reflexivity.
Defined.

(** ** Symmetry *)

Lemma for_body_sym (bin1 bin2 : list Z) (d : Z) (i : nat) :
  for_body bin1 bin2 d i = for_body bin2 bin1 d i.
Proof. unfold for_body. rewrite Z.lxor_comm. reflexivity. Qed.

Lemma fold_for_body_sym (bin1 bin2 : list Z) (l : list nat) (d : Z) :
  fold_left (for_body bin1 bin2) l d = fold_left (for_body bin2 bin1) l d.
Proof.
  revert d. induction l as [|i l IH]; intros d; simpl; [reflexivity|].
  rewrite for_body_sym. apply IH.
Qed.

Lemma hammingDistance_sym (a b : option string) :
  hammingDistance a b = hammingDistance b a.
Proof.
  unfold hammingDistance. rewrite orb_comm.
  destruct (falsy (trim (default EmptyString b)) || falsy (trim (default EmptyString a)));
    [reflexivity|].
  cbv zeta. rewrite fold_for_body_sym, Z.min_comm.
  replace (Z.abs (buflen (Buffer_from_base64 (trim (default EmptyString a)))
                  - buflen (Buffer_from_base64 (trim (default EmptyString b)))))
    with (Z.abs (buflen (Buffer_from_base64 (trim (default EmptyString b)))
                 - buflen (Buffer_from_base64 (trim (default EmptyString a))))) by lia.
  reflexivity.
Qed.

Lemma maxBits_sym (a b : string) : maxBits a b = maxBits b a.
Proof. unfold maxBits. rewrite Z.max_comm. reflexivity. Qed.

(** C5. The comparison is symmetric: the distance, [maxBits] and the
    percentage are the same whichever fingerprint is the subject. *)
Theorem similarity_symmetric (a b : string) :
  hammingDistance (Some a) (Some b) = hammingDistance (Some b) (Some a) /\
  maxBits a b = maxBits b a /\
  similarityPercent a b = similarityPercent b a.
Proof.
  split; [apply hammingDistance_sym|]. split; [apply maxBits_sym|].
  unfold similarityPercent. rewrite hammingDistance_sym, maxBits_sym. reflexivity.
Qed.

(** ** Blank fingerprints *)

Lemma hammingDistance_blank (a b : option string) :
  falsy (trim (default EmptyString a)) = true \/ falsy (trim (default EmptyString b)) = true ->
  hammingDistance a b = Infinity.
Proof.
  intros H. unfold hammingDistance.
  destruct (falsy (trim (default EmptyString a))), (falsy (trim (default EmptyString b)));
    simpl; try reflexivity.
  destruct H; discriminate.
Qed.

Lemma maxBits_nonneg (a b : string) : 0 <= maxBits a b.
Proof. unfold maxBits, strlen. lia. Qed.

Lemma percent_of_infinite_distance (m : Z) :
  0 <= m -> js_mul (js_div (js_sub (num m) Infinity) (num m)) (num 100) = NegInfinity.
Proof.
  intros Hm. unfold num. cbn [js_sub js_div].
  assert (E : Qle_bool 0 (to_double (inject_Z m)) = true).
  { apply Qle_bool_iff. apply to_double_nonneg. rewrite <- (Zle_Qle 0). exact Hm. }
  rewrite E. reflexivity.
Qed.

(** C6, the statement as given fails: ["A"] and ["B"] both decode to the
    empty buffer, yet their distance is 0 and the pair is a match. *)
Lemma empty_decoding_counterexample :
  Buffer_from_base64 "A" = [] /\ Buffer_from_base64 "B" = [] /\
  hammingDistance (Some "A") (Some "B") = num 0 /\
  hammingDistance (Some "A") (Some "B") <> Infinity /\
  js_ge (similarityPercent "A" "B") SIMILARITY_THRESHOLD = true.
Proof.
  split; [reflexivity|]. split; [reflexivity|]. split; [reflexivity|].
  split; [discriminate|reflexivity].
Qed.

Lemma blank_percent (a b : string) :
  falsy (trim a) = true \/ falsy (trim b) = true ->
  hammingDistance (Some a) (Some b) = Infinity /\
  similarityPercent a b = NegInfinity /\
  js_ge (similarityPercent a b) SIMILARITY_THRESHOLD = false.
Proof.
  intros H.
  assert (Hd : hammingDistance (Some a) (Some b) = Infinity)
    by (apply hammingDistance_blank; exact H).
  assert (Hp : similarityPercent a b = NegInfinity).
  { unfold similarityPercent. rewrite Hd.
    apply percent_of_infinite_distance, maxBits_nonneg. }
  split; [exact Hd|]. split; [exact Hp|]. rewrite Hp. reflexivity.
Qed.

(** C6, amended. When one of the two fingerprints is empty or white
    space only, the distance is infinite, the percentage is [-Infinity]
    and the pair is not a match. *)
Theorem blank_fingerprint_never_matches (a b : string) :
  falsy (trim a) = true \/ falsy (trim b) = true ->
  hammingDistance (Some a) (Some b) = Infinity /\
  similarityPercent a b = NegInfinity /\
  js_ge (similarityPercent a b) SIMILARITY_THRESHOLD = false.
Proof. exact (blank_percent a b). Qed.

Lemma blank_fingerprint_never_matches_witness :
  (falsy (trim "   ") = true \/ falsy (trim "AQID") = true) /\
  hammingDistance (Some "   ") (Some "AQID") = Infinity /\
  similarityPercent "   " "AQID" = NegInfinity /\
  js_ge (similarityPercent "   " "AQID") SIMILARITY_THRESHOLD = false.
Proof.
  split; [left; reflexivity|].
  apply (blank_fingerprint_never_matches "   " "AQID"). left. reflexivity.
Defined.

(** ** The percentage of a match *)

Lemma nonblank_percent (a b : string) :
  falsy (trim a) = false -> falsy (trim b) = false ->
  exists q : Q,
    similarityPercent a b = Fin q /\ (0 <= q)%Q /\ (q <= 100)%Q /\
    (spec_distance (Buffer_from_base64 a) (Buffer_from_base64 b) = 0 -> (q == 100)%Q).
Proof.
  intros Ha Hb. destruct (percent_formula a b Ha Hb) as (_ & _ & Hp & _).
  destruct (distance_bounds a b Ha) as [Hm Hd].
  destruct (percent_value _ _ Hm Hd) as (q & Hq & H0 & H100 & Hsame).
  exists q. rewrite Hp. split; [exact Hq|]. split; [exact H0|]. split; [exact H100|].
  exact Hsame.
Qed.

Lemma match_percent_range (a b : string) :
  js_ge (similarityPercent a b) SIMILARITY_THRESHOLD = true ->
  exists q : Q, similarityPercent a b = Fin q /\ (70 <= q)%Q /\ (q <= 100)%Q.
Proof.
  intros Hge.
  destruct (falsy (trim a)) eqn:Ea.
  { destruct (blank_percent a b (or_introl Ea)) as (_ & _ & Hno).
    congruence. }
  destruct (falsy (trim b)) eqn:Eb.
  { destruct (blank_percent a b (or_intror Eb)) as (_ & _ & Hno).
    congruence. }
  destruct (nonblank_percent a b Ea Eb) as (q & Hq & _ & Hhi & _).
  exists q. split; [exact Hq|]. split; [|exact Hhi].
  rewrite Hq in Hge. unfold SIMILARITY_THRESHOLD, num in Hge. cbn [js_ge] in Hge.
  apply Qle_bool_iff in Hge.
  destruct to_double_constants as (_ & _ & E70 & _). rewrite E70 in Hge. exact Hge.
Qed.

(** ** The scan of [findSimilar] *)

Lemma findSimilar_loop_skip (d : database) (h : hub) (audioId : uuid)
    (fingerprint filename : string) (pre rest : list candidate) :
  Forall (fun r => is_match fingerprint r = false) pre ->
  findSimilar_loop d h audioId fingerprint filename (pre ++ rest)
  = findSimilar_loop d h audioId fingerprint filename rest.
Proof.
  induction 1 as [|r pre Hr _ IH]; [reflexivity|].
  cbn [app findSimilar_loop]. unfold is_match in Hr. rewrite Hr. exact IH.
Qed.

Lemma findSimilar_loop_hit (d : database) (h : hub) (audioId : uuid)
    (fingerprint filename : string) (row : candidate) (post : list candidate) :
  is_match fingerprint row = true ->
  findSimilar_loop d h audioId fingerprint filename (row :: post)
  = match insert_similarity_warning d audioId (cand_id row) filename
            (cand_original_filename row)
            (toFixed2 (similarityPercent fingerprint (cand_perceptual_hash row))) with
    | Throw e => (Throw e, d, h)
    | Return d' =>
        (Return (Some (match_of fingerprint row)), d',
         notifyWarning h audioId (cand_id row) filename (cand_original_filename row)
           (toFixed2 (similarityPercent fingerprint (cand_perceptual_hash row))))
    end.
Proof.
  intros Hm. cbn [findSimilar_loop]. unfold is_match in Hm. rewrite Hm. reflexivity.
Qed.





(** Two fingerprints of ten characters that differ in 18 bits are at
    exactly 70 percent and match; with 19 differing bits they do not. *)
Lemma threshold_pairs :
  hammingDistance (Some "AAAAAAAAAA") (Some "///AAAAAAA") = num 18 /\
  (exists q : Q,
      similarityPercent "AAAAAAAAAA" "///AAAAAAA" = Fin q /\ (q == 70)%Q) /\
  js_ge (similarityPercent "AAAAAAAAAA" "///AAAAAAA") SIMILARITY_THRESHOLD = true /\
  hammingDistance (Some "AAAAAAAAAA") (Some "///QAAAAAA") = num 19 /\
  js_ge (similarityPercent "AAAAAAAAAA" "///QAAAAAA") SIMILARITY_THRESHOLD = false.
Proof.
  split; [reflexivity|]. split.
  - eexists. split; [reflexivity|]. vm_compute. reflexivity.
  - split; [vm_compute; reflexivity|]. split; [reflexivity|]. vm_compute. reflexivity.
Qed.

(** ** Stored percentages *)

Lemma findSimilar_loop_db (d : database) (h : hub) (audioId : uuid)
    (fingerprint filename : string) (rows : list candidate) :
  let d' := snd (fst (findSimilar_loop d h audioId fingerprint filename rows)) in
  d' = d \/
  exists row : candidate,
    In row rows /\ is_match fingerprint row = true /\
    d' = mk_database (audio_files d) (upload_attempts d)
           (similarity_warnings d ++
              [mk_similarity_warning (next_uuid d) audioId (cand_id row) filename
                 (cand_original_filename row)
                 (toFixed2 (similarityPercent fingerprint (cand_perceptual_hash row)))])
           (S (next_uuid d)).
Proof.
  induction rows as [|row rows IH]; [left; reflexivity|].
  destruct (is_match fingerprint row) eqn:Hm.
  - rewrite findSimilar_loop_hit by exact Hm.
    unfold insert_similarity_warning.
    destruct (existsb _ (similarity_warnings d)); [left; reflexivity|].
    destruct (known_id d audioId && known_id d (cand_id row)); [|left; reflexivity].
    right. exists row. split; [left; reflexivity|]. split; [exact Hm|reflexivity].
  - change (row :: rows) with ([row] ++ rows).
    rewrite findSimilar_loop_skip by (constructor; [exact Hm|constructor]).
    destruct IH as [IH|(r & Hin & Hr & IH)]; [left; exact IH|].
    right. exists r. split; [right; exact Hin|]. split; [exact Hr|exact IH].
Qed.

(** [round2 q] is [n / 100] for the integer [n] nearest to [100 q], the
    larger one on a tie. *)
Lemma round2_nearest (q : Q) :
  exists n : Z,
    round2 q = n # 100 /\
    (inject_Z n - (1 # 2) <= q * 100)%Q /\ (q * 100 < inject_Z n + (1 # 2))%Q.
Proof.
  exists (Qfloor (q * 100 + (1 # 2))). split; [reflexivity|].
  pose proof (Qfloor_le (q * 100 + (1 # 2))) as L.
  pose proof (Qlt_floor (q * 100 + (1 # 2))) as U.
  rewrite inject_Z_plus in U. change (inject_Z 1) with 1%Q in U.
  split; lra.
Qed.

Lemma match_percent_stored (fingerprint : string) (row : candidate) :
  is_match fingerprint row = true ->
  exists (q : Q) (n : Z),
    similarityPercent fingerprint (cand_perceptual_hash row) = Fin q /\
    toFixed2 (similarityPercent fingerprint (cand_perceptual_hash row)) = Fin (n # 100) /\
    (70 <= q)%Q /\ (q <= 100)%Q /\
    (inject_Z n - (1 # 2) <= q * 100)%Q /\ (q * 100 < inject_Z n + (1 # 2))%Q /\
    7000 <= n <= 10000.
Proof.
  intros Hm. destruct (match_percent_range _ _ Hm) as (q & Hq & Hlo & Hhi).
  destruct (round2_nearest q) as (n & Hn & Hn1 & Hn2).
  exists q, n. rewrite Hq. cbn [toFixed2]. rewrite Hn.
  split; [reflexivity|]. split; [reflexivity|].
  split; [exact Hlo|]. split; [exact Hhi|]. split; [exact Hn1|]. split; [exact Hn2|].
  assert (L' : (inject_Z 6999 < inject_Z n)%Q).
  { change (inject_Z 6999) with 6999%Q. lra. }
  assert (U' : (inject_Z n < inject_Z 10001)%Q).
  { change (inject_Z 10001) with 10001%Q. lra. }
  rewrite <- Zlt_Qlt in L', U'. lia.
Qed.

Lemma two_decimals_percent_ok (w : similarity_warning) : two_decimals w -> percent_ok w.
Proof.
  intros (n & Hn & Hlo & Hhi). exists (n # 100). split; [exact Hn|].
  unfold Qle. cbn [Qnum Qden]. lia.
Qed.

Lemma db_step_two_decimals (d d' : database) :
  db_step d d' ->
  Forall two_decimals (similarity_warnings d) -> Forall two_decimals (similarity_warnings d').
Proof.
  intros Hstep Hok. destruct Hstep; try exact Hok.
  - unfold insert_audio_file. destruct (existsb _ _); exact Hok.
  - unfold findSimilar.
    destruct (findSimilar_loop_db d h audioId fingerprint filename
                (select_candidates d audioId)) as [->|(row & _ & Hm & ->)]; [exact Hok|].
    cbn [similarity_warnings]. apply Forall_app. split; [exact Hok|].
    constructor; [|constructor].
    destruct (match_percent_stored _ _ Hm) as (q & n & _ & Hs & _ & _ & _ & _ & Hn).
    exists n. cbn [similarity_percent]. split; [exact Hs|exact Hn].
Qed.

Lemma reachable_two_decimals (d : database) :
  reachable d -> Forall two_decimals (similarity_warnings d).
Proof.
  unfold reachable. intros H.
  apply (rtc_ind_r (R := db_step)
           (fun d => Forall two_decimals (similarity_warnings d)) empty_database);
    [constructor| |exact H].
  intros y z _ Hstep IH. eapply db_step_two_decimals; eauto.
Qed.

Lemma reachable_percent_ok (d : database) :
  reachable d -> Forall percent_ok (similarity_warnings d).
Proof.
  intros H. eapply Forall_impl; [exact (reachable_two_decimals d H)|].
  exact two_decimals_percent_ok.
Qed.

(** The text is that of the double, not of the exact quotient: with
    12000 bits of which 9 differ the quotient is 99.925 and would round
    up, but the double computed is just below it and prints as 99.92. *)
Lemma toFixed2_of_the_double :
  toFixed2 (js_mul (js_div (js_sub (num 12000) (num 9)) (num 12000)) (num 100))
  = Fin (9992 # 100) /\
  ((inject_Z 12000 - inject_Z 9) / inject_Z 12000 * 100 == 99925 # 1000)%Q /\
  round2 (99925 # 1000) = 9993 # 100.
Proof. repeat split; vm_compute; reflexivity. Qed.

(** C9. In every database the services can produce, each warning row
    holds a finite percentage between 70 and 100 (so between 0 and 100),
    written with two decimals; and a row written by [findSimilar] holds
    the percentage [q] computed for its candidate rounded to two
    decimals: [n / 100] for the integer [n] nearest to [100 q], the
    larger one on a tie. *)
Theorem stored_percent_in_range (d : database) :
  reachable d ->
  Forall percent_ok (similarity_warnings d) /\
  Forall two_decimals (similarity_warnings d) /\
  forall (h : hub) (audioId : uuid) (fingerprint filename : string)
         (w : similarity_warning),
    In w (similarity_warnings (snd (fst (findSimilar d h audioId fingerprint filename)))) ->
    ~ In w (similarity_warnings d) ->
    exists (row : candidate) (q : Q) (n : Z),
      In row (select_candidates d audioId) /\
      audio_id_a w = audioId /\ audio_id_b w = cand_id row /\
      similarityPercent fingerprint (cand_perceptual_hash row) = Fin q /\
      (70 <= q)%Q /\ (q <= 100)%Q /\
      similarity_percent w = Fin (n # 100) /\
      (inject_Z n - (1 # 2) <= q * 100)%Q /\ (q * 100 < inject_Z n + (1 # 2))%Q.
Proof.
  intros Hreach. split; [apply reachable_percent_ok; exact Hreach|].
  split; [apply reachable_two_decimals; exact Hreach|].
  intros h audioId fingerprint filename w Hin Hnew. unfold findSimilar in Hin.
  destruct (findSimilar_loop_db d h audioId fingerprint filename
              (select_candidates d audioId)) as [E|(row & Hrow & Hm & E)];
    rewrite E in Hin; [contradiction|].
  cbn [similarity_warnings] in Hin. apply in_app_or in Hin.
  destruct Hin as [Hin|[<-|[]]]; [contradiction|].
  destruct (match_percent_stored _ _ Hm) as (q & n & Hq & Hs & Hlo & Hhi & Hn1 & Hn2 & _).
  exists row, q, n. cbn [audio_id_a audio_id_b similarity_percent].
  repeat split; assumption.
Qed.

Lemma reachable_run_db4 : reachable run_db4.
Proof.
  unfold reachable.
  eapply rtc_r; [|exact (step_update_fingerprint run_db3 "AAAB" None 1%nat)].
  eapply rtc_r; [|exact (step_update_fingerprint run_db2 "AAAA" None 0%nat)].
  eapply rtc_r;
    [|exact (step_insert_audio_file run_db1 "h2" "h2_b.flac" "b.flac" 20 "audio/flac")].
  eapply rtc_r;
    [|exact (step_insert_audio_file empty_database "h1" "h1_a.mp3" "a.mp3" 10 "audio/mpeg")].
  apply rtc_refl.
Defined.

Lemma reachable_run_db5 : reachable run_db5.
Proof.
  unfold reachable.
  eapply rtc_r; [exact reachable_run_db4|].
  exact (step_findSimilar run_db4 empty_hub 1%nat "AAAB" "b.flac" eq_refl).
Defined.

Lemma run_db5_warnings :
  similarity_warnings run_db5
  = [mk_similarity_warning 2%nat 1%nat 0%nat "b.flac" "a.mp3" (Fin (9583 # 100))].
Proof. reflexivity. Qed.

Lemma stored_percent_in_range_witness :
  reachable run_db5 /\
  Forall percent_ok (similarity_warnings run_db5) /\
  Forall two_decimals (similarity_warnings run_db5).
Proof.
  split; [exact reachable_run_db5|].
  split.
  - exact (proj1 (stored_percent_in_range run_db5 reachable_run_db5)).
  - exact (proj1 (proj2 (stored_percent_in_range run_db5 reachable_run_db5))).
Defined.

(** ** The warning table and the reversed pair *)

(** C2, the code at the failing input: once both files are
    fingerprinted, comparing the second with the first and then the first
    with the second stores two rows for the same two files; the second
    insert is not a no-op. *)
Theorem reversed_pair_stored_twice :
  reachable run_db6 /\
  similarity_warnings run_db5
  = [mk_similarity_warning 2%nat 1%nat 0%nat "b.flac" "a.mp3" (Fin (9583 # 100))] /\
  similarity_warnings run_db6
  = [mk_similarity_warning 2%nat 1%nat 0%nat "b.flac" "a.mp3" (Fin (9583 # 100));
     mk_similarity_warning 3%nat 0%nat 1%nat "a.mp3" "b.flac" (Fin (9583 # 100))] /\
  length (warnings_between run_db6 0%nat 1%nat) = 2%nat.
Proof.
  split; [|repeat split; reflexivity].
  eapply rtc_r; [exact reachable_run_db5|].
  exact (step_findSimilar run_db5 empty_hub 0%nat "AAAA" "a.mp3" eq_refl).
Qed.

(** ** Rejected media types *)

Lemma isSupportedAudio_spec (mimeType : string) :
  isSupportedAudio mimeType = true <-> In mimeType allowed.
Proof.
  unfold isSupportedAudio. rewrite existsb_exists. split.
  - intros (x & Hin & Heq). apply String.eqb_eq in Heq. subst. exact Hin.
  - intros Hin. exists mimeType. split; [exact Hin|apply String.eqb_refl].
Qed.

(** C8. A file whose declared type is not one of the twelve allowed
    types is answered with status 400, and nothing is computed or
    written: the stores are left as they were, whatever the digest
    function and the collaborators would have answered. *)
Theorem unsupported_type_rejected (sha256_hex : list Z -> string) (w : world)
    (f : file) (a : answers) :
  ~ In (mimetype f)
      [ "audio/mpeg"; "audio/wav"; "audio/ogg"; "audio/m4a"; "audio/aac"; "audio/flac";
        "audio/x-wav"; "audio/x-ogg"; "audio/x-m4a"; "audio/x-aac"; "audio/x-flac";
        "audio/x-mpeg" ]%string ->
  uploadAudio sha256_hex w (Some f) a
  = (w, mk_response 400 (body_error "Unsupported audio format")) /\
  400 <= status_code (snd (uploadAudio sha256_hex w (Some f) a)) < 500.
Proof.
  intros Hnot.
  assert (E : isSupportedAudio (mimetype f) = false).
  { destruct (isSupportedAudio (mimetype f)) eqn:E; [|reflexivity].
    apply isSupportedAudio_spec in E. contradiction. }
  unfold uploadAudio. rewrite E. simpl. split; [reflexivity|lia].
Qed.

Lemma unsupported_type_rejected_witness :
  let f := mk_file "uploads/8f3a" "video/mp4" 1024 "clip.mp4" in
  let a := mk_answers "u1" None None None None in
  ~ In (mimetype f) allowed /\
  uploadAudio (fun _ => "d"%string) empty_world (Some f) a
  = (empty_world, mk_response 400 (body_error "Unsupported audio format")).
Proof.
  intros f a.
  assert (H : ~ In (mimetype f) allowed).
  { intros H. apply isSupportedAudio_spec in H. discriminate H. }
  split; [exact H|].
  exact (proj1 (unsupported_type_rejected (fun _ => "d"%string) empty_world f a H)).
Defined.

(** ** Failing extraction *)

Section ProcessFacts.

Variable parseFloat : string -> number.
Variable fpcalc : option (list Z) -> exec_result.
Variable tmpdir : string.



End ProcessFacts.


(** ** [processUpload], run alone *)

(** Unfolds one step of the machine and the projections of the world. *)
Ltac run_step :=
  cbn [upload_steps upload_step settled fst snd]; try unfold leave;
  cbn [upload_steps upload_step unlink_if_exists settled unlinkError
       set_pool set_disk set_temp_uploads set_audio_files_bucket set_fingerprintQueue
       pool disk temp_uploads audio_files_bucket fingerprintQueue sse fst snd].

Section UploadFacts.

Variable sha256_hex : list Z -> string.

Lemma chunks_concat (fuel n : nat) (data acc : list Z) :
  fold_left (fun seen chunk => seen ++ chunk) (chunks fuel n data) acc = acc ++ data.
Proof.
  revert data acc. induction fuel as [|fuel IH]; intros data acc.
  - destruct data; simpl; [rewrite app_nil_r|]; reflexivity.
  - destruct data as [|x data]; [simpl; rewrite app_nil_r; reflexivity|].
    cbn [chunks fold_left]. rewrite IH, <- app_assoc, take_drop. reflexivity.
Qed.

(** The digest is a function of the bytes alone, whatever the chunking. *)
Lemma computeFileHash_bytes (w : world) (p : string) (data : list Z) :
  disk w !! p = Some data -> computeFileHash sha256_hex w p = Return (sha256_hex data).
Proof.
  intros H. unfold computeFileHash, createReadStream. rewrite H, chunks_concat.
  reflexivity.
Qed.

Lemma computeFileHash_missing (w : world) (p : string) :
  disk w !! p = None -> computeFileHash sha256_hex w p = Throw (Error "ENOENT").
Proof. intros H. unfold computeFileHash. rewrite H. reflexivity. Qed.

(** The duplicate path, in full. *)
Lemma processUpload_duplicate (w : world) (f : file) (a : answers) (data : list Z) :
  disk w !! path f = Some data ->
  uploadError a = None ->
  existsb (fun r => String.eqb (content_hash r) (sha256_hex data))
    (audio_files (pool w)) = true ->
  processUpload sha256_hex w f a
  = (mk_world (insert_upload_attempt (pool w) (sha256_hex data) true)
       (match deleteError a with
        | Some _ => <[tempFileName a f := data]> (temp_uploads w)
        | None => delete (tempFileName a f) (<[tempFileName a f := data]> (temp_uploads w))
        end)
       (audio_files_bucket w)
       (disk_left w f a)
       (fingerprintQueue w) (sse w),
     Return (duplicate_true "Exact duplicate detected")).
Proof.
  intros Hdisk Hup Hrow. unfold processUpload. run_step.
  rewrite (computeFileHash_bytes w (path f) data Hdisk). run_step.
  rewrite Hdisk, Hup. run_step.
  unfold insert_audio_file. rewrite Hrow. run_step.
  unfold disk_left. destruct (deleteError a); run_step; destruct (unlinkError a); reflexivity.
Qed.

(** The accepted path, in full. *)
Lemma processUpload_accepted (w : world) (f : file) (a : answers) (data : list Z) :
  disk w !! path f = Some data ->
  uploadError a = None ->
  moveError a = None ->
  existsb (fun r => String.eqb (content_hash r) (sha256_hex data))
    (audio_files (pool w)) = false ->
  let contentHash := sha256_hex data in
  let d := fst (insert_audio_file (pool w) contentHash (permanentFileName contentHash f)
                  (originalname f) (size f) (mimetype f)) in
  processUpload sha256_hex w f a
  = (mk_world (insert_upload_attempt d contentHash false)
       (delete (tempFileName a f) (<[tempFileName a f := data]> (temp_uploads w)))
       (<[permanentFileName contentHash f := data]> (audio_files_bucket w))
       (disk_left w f a)
       (fingerprintQueue w ++ [mk_job "fingerprint" (next_uuid (pool w)) (originalname f)])
       (sse w),
     Return (duplicate_false (next_uuid (pool w)))).
Proof.
  intros Hdisk Hup Hmove Hrow contentHash d. unfold processUpload. run_step.
  rewrite (computeFileHash_bytes w (path f) data Hdisk). run_step.
  rewrite Hdisk, Hup. run_step.
  subst d contentHash. unfold insert_audio_file. rewrite Hrow. run_step.
  rewrite Hmove, lookup_insert_eq. run_step. unfold disk_left.
  destruct (unlinkError a); reflexivity.
Qed.

(** The admitted row is in the ledger even when the move then fails. *)
Lemma processUpload_move_fails (w : world) (f : file) (a : answers) (data : list Z)
    (e : error) :
  disk w !! path f = Some data ->
  uploadError a = None ->
  moveError a = Some e ->
  existsb (fun r => String.eqb (content_hash r) (sha256_hex data))
    (audio_files (pool w)) = false ->
  let contentHash := sha256_hex data in
  let d := fst (insert_audio_file (pool w) contentHash (permanentFileName contentHash f)
                  (originalname f) (size f) (mimetype f)) in
  processUpload sha256_hex w f a
  = (mk_world d (<[tempFileName a f := data]> (temp_uploads w))
       (audio_files_bucket w)
       (disk_left w f a)
       (fingerprintQueue w) (sse w),
     Throw e).
Proof.
  intros Hdisk Hup Hmove Hrow contentHash d. unfold processUpload. run_step.
  rewrite (computeFileHash_bytes w (path f) data Hdisk). run_step.
  rewrite Hdisk, Hup. run_step.
  subst d contentHash. unfold insert_audio_file. rewrite Hrow. run_step.
  rewrite Hmove. run_step. unfold disk_left. destruct (unlinkError a); reflexivity.
Qed.

Lemma insert_audio_file_has_row (d : database) (h p o : string) (s : Z) (m : string) :
  existsb (fun r => String.eqb (content_hash r) h)
    (audio_files (fst (insert_audio_file d h p o s m))) = true.
Proof.
  unfold insert_audio_file.
  destruct (existsb (fun r => String.eqb (content_hash r) h) (audio_files d)) eqn:E;
    [exact E|].
  cbn [fst audio_files]. rewrite existsb_app. cbn [existsb content_hash].
  rewrite String.eqb_refl. apply orb_true_iff. right. reflexivity.
Qed.

(** Once a call has uploaded its bytes, the ledger holds a row for their
    digest, however the call ends. *)
Lemma processUpload_row (w : world) (f : file) (a : answers) (data : list Z) :
  disk w !! path f = Some data ->
  uploadError a = None ->
  existsb (fun r => String.eqb (content_hash r) (sha256_hex data))
    (audio_files (pool (fst (processUpload sha256_hex w f a)))) = true.
Proof.
  intros Hdisk Hup.
  destruct (existsb (fun r => String.eqb (content_hash r) (sha256_hex data))
              (audio_files (pool w))) eqn:Hrow.
  - rewrite (processUpload_duplicate w f a data Hdisk Hup Hrow). exact Hrow.
  - destruct (moveError a) as [e|] eqn:Hmove.
    + rewrite (processUpload_move_fails w f a data e Hdisk Hup Hmove Hrow).
      cbn [fst pool]. apply insert_audio_file_has_row.
    + rewrite (processUpload_accepted w f a data Hdisk Hup Hmove Hrow).
      cbn [fst pool insert_upload_attempt audio_files]. apply insert_audio_file_has_row.
Qed.

(** C10. Two submissions with the same bytes: when the first has reached
    the ledger, the second is answered [{duplicate: true}], whatever the
    paths, names, declared types and sizes of the two files, and whatever
    the first call returned. *)
Theorem same_bytes_duplicate (w : world) (data : list Z) (f1 f2 : file)
    (a1 a2 : answers) :
  uploadError a1 = None ->
  uploadError a2 = None ->
  let w1 := fst (processUpload sha256_hex (multer_store w f1 data) f1 a1) in
  snd (processUpload sha256_hex (multer_store w1 f2 data) f2 a2)
  = Return (duplicate_true "Exact duplicate detected").
Proof.
  intros Hup1 Hup2 w1.
  assert (Hrow : existsb (fun r => String.eqb (content_hash r) (sha256_hex data))
                   (audio_files (pool w1)) = true).
  { apply processUpload_row; [|exact Hup1]. apply lookup_insert_eq. }
  rewrite (processUpload_duplicate (multer_store w1 f2 data) f2 a2 data);
    [reflexivity|apply lookup_insert_eq|exact Hup2|exact Hrow].
Qed.

End UploadFacts.

Lemma same_bytes_duplicate_witness :
  let sha := fun data : list Z => String (ascii_of_nat (length data)) EmptyString in
  let f1 := mk_file "uploads/aa01" "audio/mpeg" 4 "song.mp3" in
  let f2 := mk_file "uploads/bb02" "audio/x-wav" 9000 "renamed.wav" in
  let a1 := mk_answers "u1" None None None None in
  let a2 := mk_answers "u2" None None None None in
  uploadError a1 = None /\ uploadError a2 = None /\
  snd (processUpload sha (multer_store empty_world f1 [73; 68; 51; 4]) f1 a1)
  = Return (duplicate_false 0%nat) /\
  snd (processUpload sha
         (multer_store
            (fst (processUpload sha (multer_store empty_world f1 [73; 68; 51; 4]) f1 a1))
            f2 [73; 68; 51; 4]) f2 a2)
  = Return (duplicate_true "Exact duplicate detected").
Proof.
  intros sha f1 f2 a1 a2.
  split; [reflexivity|]. split; [reflexivity|]. split.
  - rewrite (processUpload_accepted sha (multer_store empty_world f1 [73; 68; 51; 4])
               f1 a1 [73; 68; 51; 4]); reflexivity.
  - exact (same_bytes_duplicate sha empty_world [73; 68; 51; 4] f1 f2 a1 a2
             eq_refl eq_refl).
Defined.

(** ** Counting *)

Lemma count_insert {A : Type} (f : A -> bool) (l : list A) (i : nat) (x y : A) :
  l !! i = Some x ->
  (count f (<[i := y]> l) + Nat.b2n (f x) = count f l + Nat.b2n (f y))%nat.
Proof.
  unfold count. revert i. induction l as [|z l IH]; intros i H; [discriminate|].
  destruct i as [|i].
  - injection H as ->. simpl. destruct (f x), (f y); simpl; lia.
  - simpl in H. specialize (IH i H). simpl. destruct (f z); simpl; lia.
Qed.

Lemma count_lookup_pos {A : Type} (f : A -> bool) (l : list A) (i : nat) (x : A) :
  l !! i = Some x -> f x = true -> (0 < count f l)%nat.
Proof.
  unfold count. revert i. induction l as [|z l IH]; intros i H Hf; [discriminate|].
  destruct i as [|i].
  - injection H as ->. simpl. rewrite Hf. simpl. lia.
  - simpl in H. specialize (IH i H Hf). simpl. destruct (f z); simpl; lia.
Qed.

Lemma count_app {A : Type} (f : A -> bool) (l1 l2 : list A) :
  count f (l1 ++ l2) = (count f l1 + count f l2)%nat.
Proof. unfold count. rewrite List.filter_app, length_app. reflexivity. Qed.

Lemma count_zero_existsb {A : Type} (f : A -> bool) (l : list A) :
  existsb f l = false <-> count f l = 0%nat.
Proof.
  unfold count. induction l as [|x l IH]; simpl; [tauto|].
  destruct (f x); simpl; [split; [discriminate|lia]|exact IH].
Qed.

(** ** Concurrent admission *)

Section AdmissionFacts.

Variable sha256_hex : list Z -> string.
Variable w0 : world.
Variable D : string.

Lemma rows_insert_audio_file (d : database) (h p o : string) (s : Z) (m : string) :
  let r := insert_audio_file d h p o s m in
  (rows_with_hash h d = 0%nat /\ snd r = [next_uuid d] /\
   forall D', rows_with_hash D' (fst r)
              = (rows_with_hash D' d + Nat.b2n (String.eqb h D'))%nat) \/
  ((0 < rows_with_hash h d)%nat /\ snd r = [] /\ fst r = d).
Proof.
  unfold insert_audio_file, rows_with_hash.
  destruct (existsb (fun r => String.eqb (content_hash r) h) (audio_files d)) eqn:E.
  - right. split; [|split; reflexivity].
    destruct (count (fun r => String.eqb (content_hash r) h) (audio_files d)) eqn:C;
      [|lia].
    apply count_zero_existsb in C. congruence.
  - left. apply count_zero_existsb in E. split; [exact E|]. split; [reflexivity|].
    intros D'. cbn [fst audio_files]. rewrite count_app. unfold count at 2.
    cbn [List.filter content_hash]. destruct (String.eqb h D'); reflexivity.
Qed.

(** What one step does to the disk, to the ledger and to the call. *)
Lemma upload_step_summary (w : world) (f : file) (a : answers) (p : pc) :
  let w' := fst (upload_step sha256_hex w f a p) in
  let p' := snd (upload_step sha256_hex w f a p) in
  disk w' ⊆ disk w /\
  match p with
  | Start =>
      audio_files (pool w') = audio_files (pool w) /\
      (thrown_pc p' = true \/
       exists data, disk w !! path f = Some data /\ p' = Hashed (sha256_hex data))
  | Hashed h =>
      audio_files (pool w') = audio_files (pool w) /\
      (thrown_pc p' = true \/ p' = Uploaded h)
  | Uploaded h =>
      (rows_with_hash h (pool w) = 0%nat /\ p' = Moving h (next_uuid (pool w)) /\
       forall D', rows_with_hash D' (pool w')
                  = (rows_with_hash D' (pool w) + Nat.b2n (String.eqb h D'))%nat) \/
      ((0 < rows_with_hash h (pool w))%nat /\ p' = Removing h /\
       audio_files (pool w') = audio_files (pool w))
  | Removing h =>
      audio_files (pool w') = audio_files (pool w) /\ p' = RecordingDuplicate h
  | RecordingDuplicate h =>
      audio_files (pool w') = audio_files (pool w) /\
      p' = Returned (duplicate_true "Exact duplicate detected")
  | Moving h audioId =>
      audio_files (pool w') = audio_files (pool w) /\
      (thrown_pc p' = true \/ p' = Recording h audioId)
  | Recording h audioId =>
      audio_files (pool w') = audio_files (pool w) /\ p' = Queueing audioId
  | Queueing audioId =>
      audio_files (pool w') = audio_files (pool w) /\
      p' = Returned (duplicate_false audioId)
  | Returned _ | Thrown _ => w' = w /\ p' = p
  end.
Proof.
  assert (Hdel : forall k, delete k (disk w) ⊆ disk w) by (intros k; apply delete_subseteq).
  destruct p as [|h|h|h|h|h audioId|h audioId|audioId|r|e]; cbn [upload_step].
  - unfold computeFileHash. destruct (disk w !! path f) as [data|] eqn:E; run_step.
    + split; [reflexivity|]. split; [reflexivity|]. right. exists data.
      unfold createReadStream. rewrite chunks_concat. split; reflexivity.
    + destruct (unlinkError a); (split; [first [apply Hdel|reflexivity]|]);
        (split; [reflexivity|]); left; reflexivity.
  - destruct (disk w !! path f) as [data|] eqn:E; run_step.
    + destruct (uploadError a); run_step.
      * destruct (unlinkError a); (split; [first [apply Hdel|reflexivity]|]);
        (split; [reflexivity|]); left; reflexivity.
      * split; [reflexivity|]. split; [reflexivity|]. right. reflexivity.
    + destruct (unlinkError a); (split; [first [apply Hdel|reflexivity]|]);
        (split; [reflexivity|]); left; reflexivity.
  - pose proof (rows_insert_audio_file (pool w) h (permanentFileName h f)
                  (originalname f) (size f) (mimetype f)) as R. cbv zeta in R.
    destruct (insert_audio_file (pool w) h (permanentFileName h f) (originalname f)
                (size f) (mimetype f)) as [d rows].
    cbn [fst snd] in R. destruct R as [(R0 & -> & R1)|(R0 & -> & ->)]; run_step.
    + split; [reflexivity|]. left. split; [exact R0|]. split; [reflexivity|exact R1].
    + split; [reflexivity|]. right. split; [exact R0|]. split; reflexivity.
  - destruct (deleteError a); run_step; split; try reflexivity; split; reflexivity.
  - run_step. destruct (unlinkError a); (split; [first [apply Hdel|reflexivity]|]);
    split; reflexivity.
  - destruct (moveError a); [|destruct (temp_uploads w !! tempFileName a f)]; run_step.
    + destruct (unlinkError a); (split; [first [apply Hdel|reflexivity]|]);
        (split; [reflexivity|]); left; reflexivity.
    + split; [reflexivity|]. split; [reflexivity|]. right. reflexivity.
    + destruct (unlinkError a); (split; [first [apply Hdel|reflexivity]|]);
        (split; [reflexivity|]); left; reflexivity.
  - run_step. split; [reflexivity|]. split; reflexivity.
  - run_step. destruct (unlinkError a); (split; [first [apply Hdel|reflexivity]|]);
    split; reflexivity.
  - split; [reflexivity|]. split; reflexivity.
  - split; [reflexivity|]. split; reflexivity.
Qed.

Lemma thrown_pc_flags (p : pc) :
  thrown_pc p = true ->
  admitted_pc p = false /\ past_insert_pc p = false /\ pc_hash p = None.
Proof. destruct p; try discriminate. intros _. repeat split. Qed.

Lemma hashes_to_pc_hash (c : call) (h : string) :
  pc_ok sha256_hex w0 c -> pc_hash (call_pc c) = Some h ->
  hashes_to sha256_hex w0 D c = String.eqb h D.
Proof.
  intros Hok Hh. destruct (Hok h Hh) as (data & Hdata & <-).
  unfold hashes_to. rewrite Hdata. reflexivity.
Qed.

Lemma rows_with_hash_same (d d' : database) :
  audio_files d' = audio_files d -> rows_with_hash D d' = rows_with_hash D d.
Proof. unfold rows_with_hash. intros ->. reflexivity. Qed.

(** Every step of every call keeps the invariant. *)
Lemma sched_step_inv (st : world * list call) (i : nat) :
  upload_inv sha256_hex w0 D st ->
  upload_inv sha256_hex w0 D (sched_step sha256_hex st i).
Proof.
  destruct st as [w calls]. unfold sched_step.
  destruct (calls !! i) as [c|] eqn:Hc; [|auto].
  destruct c as [f a p]. cbn [call_file call_answers call_pc].
  pose proof (upload_step_summary w f a p) as S.
  destruct (upload_step sha256_hex w f a p) as [w' p']. cbn [fst snd] in S.
  destruct S as [Hdisk Hcase].
  unfold upload_inv. cbn [fst snd]. intros (I1 & I2 & I3 & I4 & I5 & I6).
  pose proof (Forall_lookup_1 _ _ _ _ I2 Hc) as Hok.
  assert (Hb : forall h, pc_hash p = Some h ->
                         hashes_to sha256_hex w0 D (mk_call f a p) = String.eqb h D)
    by (intros h; apply (hashes_to_pc_hash (mk_call f a p) h Hok)).
  pose proof (count_insert
                (fun c => hashes_to sha256_hex w0 D c && admitted_pc (call_pc c))
                calls i _ (mk_call f a p') Hc) as Ca.
  pose proof (count_insert
                (fun c => hashes_to sha256_hex w0 D c && past_insert_pc (call_pc c))
                calls i _ (mk_call f a p') Hc) as Cp.
  pose proof (count_insert
                (fun c => hashes_to sha256_hex w0 D c && thrown_pc (call_pc c))
                calls i _ (mk_call f a p') Hc) as Ct.
  cbn [call_pc] in Ca, Cp, Ct.
  change (hashes_to sha256_hex w0 D (mk_call f a p'))
    with (hashes_to sha256_hex w0 D (mk_call f a p)) in Ca, Cp, Ct.
  set (b := hashes_to sha256_hex w0 D (mk_call f a p)) in *.
  assert (Hsub : disk w' ⊆ disk w0) by (etrans; eassumption).
  assert (Hokstep : pc_ok sha256_hex w0 (mk_call f a p')).
  { intros h' Hh'. cbn [call_pc call_file] in *.
    destruct p as [|h|h|h|h|h audioId|h audioId|audioId|r|e]; cbn [pc_hash] in *.
    - destruct Hcase as (_ & [Ht|(data & Hdata & ->)]).
      + apply thrown_pc_flags in Ht as (_ & _ & Ht). congruence.
      + injection Hh' as <-. exists data. split; [|reflexivity].
        eapply lookup_weaken; eassumption.
    - destruct Hcase as (_ & [Ht| ->]).
      + apply thrown_pc_flags in Ht as (_ & _ & Ht). congruence.
      + apply (Hok h'). exact Hh'.
    - destruct Hcase as [(_ & -> & _)|(_ & -> & _)]; apply (Hok h'); exact Hh'.
    - destruct Hcase as (_ & ->). apply (Hok h'). exact Hh'.
    - destruct Hcase as (_ & ->). discriminate.
    - destruct Hcase as (_ & [Ht| ->]).
      + apply thrown_pc_flags in Ht as (_ & _ & Ht). congruence.
      + apply (Hok h'). exact Hh'.
    - destruct Hcase as (_ & ->). discriminate.
    - destruct Hcase as (_ & ->). discriminate.
    - destruct Hcase as (_ & ->). discriminate.
    - destruct Hcase as (_ & ->). discriminate. }
  split; [exact Hsub|]. split; [apply Forall_insert; assumption|].
  destruct p as [|h|h|h|h|h audioId|h audioId|audioId|r|e];
    cbn [pc_hash admitted_pc past_insert_pc thrown_pc] in *.
  - destruct Hcase as (Hrows & [Ht|(data & Hdata & ->)]);
      rewrite (rows_with_hash_same _ _ Hrows).
    + destruct (thrown_pc_flags _ Ht) as (Ha & Hp & _). rewrite Ha, Hp, Ht in *.
      destruct b; cbn in *; lia.
    + cbn [admitted_pc past_insert_pc thrown_pc] in *. destruct b; cbn in *; lia.
  - destruct Hcase as (Hrows & [Ht| ->]); rewrite (rows_with_hash_same _ _ Hrows).
    + destruct (thrown_pc_flags _ Ht) as (Ha & Hp & _). rewrite Ha, Hp, Ht in *.
      destruct b; cbn in *; lia.
    + cbn [admitted_pc past_insert_pc thrown_pc] in *. destruct b; cbn in *; lia.
  - specialize (Hb h eq_refl).
    destruct Hcase as [(R0 & -> & R1)|(R0 & -> & Hrows)].
    + rewrite (R1 D), <- Hb. cbn [admitted_pc past_insert_pc thrown_pc] in *.
      destruct b; cbn in *.
      * symmetry in Hb. apply String.eqb_eq in Hb. subst h. lia.
      * lia.
    + rewrite (rows_with_hash_same _ _ Hrows).
      cbn [admitted_pc past_insert_pc thrown_pc] in *.
      destruct b; cbn in *.
      * symmetry in Hb. apply String.eqb_eq in Hb. subst h. lia.
      * lia.
  - destruct Hcase as (Hrows & ->). rewrite (rows_with_hash_same _ _ Hrows).
    cbn [admitted_pc past_insert_pc thrown_pc] in *. destruct b; cbn in *; lia.
  - destruct Hcase as (Hrows & ->). rewrite (rows_with_hash_same _ _ Hrows).
    cbn [admitted_pc past_insert_pc thrown_pc] in *. destruct b; cbn in *; lia.
  - destruct Hcase as (Hrows & [Ht| ->]); rewrite (rows_with_hash_same _ _ Hrows).
    + destruct (thrown_pc_flags _ Ht) as (Ha & Hp & _). rewrite Ha, Hp, Ht in *.
      destruct b; cbn in *; lia.
    + cbn [admitted_pc past_insert_pc thrown_pc] in *. destruct b; cbn in *; lia.
  - destruct Hcase as (Hrows & ->). rewrite (rows_with_hash_same _ _ Hrows).
    cbn [admitted_pc past_insert_pc thrown_pc] in *. destruct b; cbn in *; lia.
  - destruct Hcase as (Hrows & ->). rewrite (rows_with_hash_same _ _ Hrows).
    cbn [admitted_pc past_insert_pc thrown_pc] in *. destruct b; cbn in *; lia.
  - destruct Hcase as (-> & ->). cbn [admitted_pc past_insert_pc thrown_pc] in *.
    destruct b; cbn in *; lia.
  - destruct Hcase as (-> & ->). cbn [admitted_pc past_insert_pc thrown_pc] in *.
    destruct b; cbn in *; lia.
Qed.

Lemma run_schedule_inv (schedule : list nat) (st : world * list call) :
  upload_inv sha256_hex w0 D st ->
  upload_inv sha256_hex w0 D (run_schedule sha256_hex schedule st).
Proof.
  unfold run_schedule. revert st.
  induction schedule as [|i schedule IH]; intros st H; [exact H|].
  cbn [fold_left]. apply IH, sched_step_inv, H.
Qed.

Lemma count_none {A : Type} (f : A -> bool) (l : list A) :
  Forall (fun x => f x = false) l -> count f l = 0%nat.
Proof.
  unfold count. induction 1 as [|x l Hx _ IH]; [reflexivity|].
  simpl. rewrite Hx. exact IH.
Qed.

Lemma count_filter {A : Type} (f g : A -> bool) (l : list A) :
  count (fun x => f x && g x) l = count g (List.filter f l).
Proof.
  unfold count. induction l as [|x l IH]; [reflexivity|].
  simpl. destruct (f x); simpl; [destruct (g x); simpl; lia|exact IH].
Qed.

Lemma count_ext {A : Type} (f g : A -> bool) (l : list A) :
  Forall (fun x => f x = g x) l -> count f l = count g l.
Proof.
  unfold count. induction 1 as [|x l Hx _ IH]; [reflexivity|].
  simpl. rewrite Hx. destruct (g x); simpl; lia.
Qed.

Lemma count_all {A : Type} (f : A -> bool) (l : list A) :
  Forall (fun x => f x = true) l -> count f l = length l.
Proof.
  unfold count. induction 1 as [|x l Hx _ IH]; [reflexivity|].
  simpl. rewrite Hx. simpl. lia.
Qed.

Lemma count_split {A : Type} (f g h : A -> bool) (l : list A) :
  Forall (fun x => Nat.b2n (f x) = (Nat.b2n (g x) + Nat.b2n (h x))%nat) l ->
  count f l = (count g l + count h l)%nat.
Proof.
  unfold count. induction 1 as [|x l Hx _ IH]; [reflexivity|].
  simpl. destruct (f x), (g x), (h x); simpl in *; lia.
Qed.

Lemma initial_inv (calls : list call) :
  Forall (fun c => call_pc c = Start) calls ->
  upload_inv sha256_hex w0 D (w0, calls).
Proof.
  intros Hstart. unfold upload_inv. cbn [fst snd].
  assert (Z1 : forall g : pc -> bool, g Start = false ->
               count (fun c => hashes_to sha256_hex w0 D c && g (call_pc c)) calls
               = 0%nat).
  { intros g Hg. apply count_none. eapply Forall_impl; [exact Hstart|].
    intros c Hc. cbn beta in Hc. rewrite Hc, Hg. apply andb_false_r. }
  rewrite !Z1 by reflexivity.
  split; [reflexivity|]. split.
  - eapply Forall_impl; [exact Hstart|]. intros c Hc h Hh. cbn beta in Hc.
    rewrite Hc in Hh. discriminate.
  - lia.
Qed.

Lemma accepted_le_admitted (l : list call) :
  (count (fun c => accepted_pc (call_pc c)) l
   <= count (fun c => admitted_pc (call_pc c)) l)%nat.
Proof.
  unfold count. induction l as [|c l IH]; [simpl; lia|].
  simpl. destruct (call_pc c) as [| | | | | | | |[]|]; simpl; lia.
Qed.

Lemma returned_le_past (l : list call) :
  (count (fun c => returned_pc (call_pc c)) l
   <= count (fun c => past_insert_pc (call_pc c)) l)%nat.
Proof.
  unfold count. induction l as [|c l IH]; [simpl; lia|].
  simpl. destruct (call_pc c); simpl; lia.
Qed.

(** C1, amended. Any number of calls run in any interleaving, from a
    ledger that has no row for the digest [D].  Among the calls whose
    bytes hash to [D]: at most one has returned
    [{duplicate: false, audioId}], and every other one that has returned
    has returned [{duplicate: true}]; once one of them has returned, the
    ledger holds exactly one row for [D], and either exactly one call
    holds the admission or some call has thrown; and when all of them
    have returned, exactly one returned [{duplicate: false, audioId}]. *)
Theorem exactly_one_admitted (schedule : list nat) (calls : list call) :
  Forall (fun c => call_pc c = Start) calls ->
  rows_with_hash D (pool w0) = 0%nat ->
  let final := run_schedule sha256_hex schedule (w0, calls) in
  let attempts := List.filter (hashes_to sha256_hex w0 D) (snd final) in
  let accepted := count (fun c => accepted_pc (call_pc c)) attempts in
  let duplicates := count (fun c => duplicate_pc (call_pc c)) attempts in
  let returned := count (fun c => returned_pc (call_pc c)) attempts in
  let rows := rows_with_hash D (pool (fst final)) in
  (accepted <= 1)%nat /\
  returned = (accepted + duplicates)%nat /\
  ((0 < returned)%nat ->
   rows = 1%nat /\
   (count (fun c => admitted_pc (call_pc c)) attempts = 1%nat \/
    (0 < count (fun c => thrown_pc (call_pc c)) attempts)%nat)) /\
  (attempts <> [] ->
   Forall (fun c => returned_pc (call_pc c) = true) attempts ->
   accepted = 1%nat /\ duplicates = (length attempts - 1)%nat /\ rows = 1%nat).
Proof.
  intros Hstart Hrows final attempts accepted duplicates returned rows.
  pose proof (run_schedule_inv schedule (w0, calls) (initial_inv calls Hstart))
    as (_ & _ & I3 & I4 & I5 & I6).
  fold final in I3, I4, I5, I6.
  rewrite count_filter in I3. rewrite count_filter in I5.
  rewrite (count_filter _ (fun c => admitted_pc (call_pc c))) in I6.
  rewrite (count_filter _ (fun c => thrown_pc (call_pc c))) in I6.
  fold attempts in I3, I5, I6. fold rows in I3, I4, I5, I6.
  rewrite Hrows in I3, I4. specialize (I6 Hrows).
  pose proof (accepted_le_admitted attempts) as Hacc. fold accepted in Hacc.
  pose proof (returned_le_past attempts) as Hpast. fold returned in Hpast.
  assert (Hsplit : returned = (accepted + duplicates)%nat).
  { apply count_split. apply Forall_forall. intros c _.
    destruct (call_pc c) as [| | | | | | | |[]|]; reflexivity. }
  assert (Hone : (0 < returned)%nat -> rows = 1%nat) by (intros H; lia).
  split; [lia|]. split; [exact Hsplit|]. split.
  - intros H. split; [exact (Hone H)|]. exact (I6 (Hone H)).
  - intros Hne Hret.
    assert (Hall : returned = length attempts) by (apply count_all; exact Hret).
    assert (Hthr : count (fun c => thrown_pc (call_pc c)) attempts = 0%nat).
    { apply count_none. eapply Forall_impl; [exact Hret|].
      intros c Hc. cbn beta in Hc. destruct (call_pc c); try discriminate. reflexivity. }
    assert (Hadm : count (fun c => admitted_pc (call_pc c)) attempts = accepted).
    { apply count_ext. eapply Forall_impl; [exact Hret|].
      intros c Hc. cbn beta in Hc. destruct (call_pc c) as [| | | | | | | |[]|];
        try discriminate; reflexivity. }
    assert (Hlen : (0 < length attempts)%nat)
      by (destruct attempts; [congruence|simpl; lia]).
    rewrite Hthr, Hadm in I6.
    assert (Hr : rows = 1%nat) by (apply Hone; lia).
    specialize (I6 Hr). lia.
Qed.

(** X6. Whatever the interleaving and whichever calls fail or are still
    running: from a ledger without a row for [D] there is never more
    than one row for [D], never more than one call that was told
    [{duplicate: false}], and as soon as one call for [D] is past its
    insert the row is there. *)
Theorem at_most_one_row_any_schedule (schedule : list nat) (calls : list call) :
  Forall (fun c => call_pc c = Start) calls ->
  rows_with_hash D (pool w0) = 0%nat ->
  let final := run_schedule sha256_hex schedule (w0, calls) in
  let attempts := List.filter (hashes_to sha256_hex w0 D) (snd final) in
  (rows_with_hash D (pool (fst final)) <= 1)%nat /\
  (count (fun c => accepted_pc (call_pc c)) attempts
   <= rows_with_hash D (pool (fst final)))%nat /\
  ((0 < count (fun c => past_insert_pc (call_pc c)) attempts)%nat ->
   rows_with_hash D (pool (fst final)) = 1%nat).
Proof.
  intros Hstart Hrows final attempts.
  pose proof (run_schedule_inv schedule (w0, calls) (initial_inv calls Hstart))
    as (_ & _ & I3 & I4 & I5 & _).
  fold final in I3, I4, I5.
  rewrite count_filter in I3. rewrite count_filter in I5. fold attempts in I3, I5.
  rewrite Hrows in I3, I4. pose proof (accepted_le_admitted attempts). lia.
Qed.

(** X7. When the ledger already has a row for [D], no call whose bytes
    hash to [D] is ever admitted, in any interleaving, and the number of
    rows for [D] stays what it was. *)
Theorem known_digest_never_admitted (schedule : list nat) (calls : list call) :
  Forall (fun c => call_pc c = Start) calls ->
  (1 <= rows_with_hash D (pool w0))%nat ->
  let final := run_schedule sha256_hex schedule (w0, calls) in
  let attempts := List.filter (hashes_to sha256_hex w0 D) (snd final) in
  count (fun c => accepted_pc (call_pc c)) attempts = 0%nat /\
  rows_with_hash D (pool (fst final)) = rows_with_hash D (pool w0).
Proof.
  intros Hstart Hrows final attempts.
  pose proof (run_schedule_inv schedule (w0, calls) (initial_inv calls Hstart))
    as (_ & _ & I3 & I4 & _ & _).
  fold final in I3, I4. rewrite count_filter in I3. fold attempts in I3.
  pose proof (accepted_le_admitted attempts). lia.
Qed.

End AdmissionFacts.

Lemma exactly_one_admitted_witness :
  let final := run_schedule spell three_uploads_schedule
                 (three_uploads_world, three_uploads) in
  let attempts := List.filter (hashes_to spell three_uploads_world (spell song))
                    (snd final) in
  Forall (fun c => call_pc c = Start) three_uploads /\
  rows_with_hash (spell song) (pool three_uploads_world) = 0%nat /\
  attempts <> [] /\
  Forall (fun c => returned_pc (call_pc c) = true) attempts /\
  count (fun c => accepted_pc (call_pc c)) attempts = 1%nat /\
  count (fun c => duplicate_pc (call_pc c)) attempts = (length attempts - 1)%nat /\
  rows_with_hash (spell song) (pool (fst final)) = 1%nat.
Proof.
  intros final attempts.
  assert (H1 : Forall (fun c => call_pc c = Start) three_uploads)
    by (repeat constructor).
  assert (H2 : rows_with_hash (spell song) (pool three_uploads_world) = 0%nat)
    by reflexivity.
  assert (H3 : attempts <> []) by (vm_compute; discriminate).
  assert (H4 : Forall (fun c => returned_pc (call_pc c) = true) attempts)
    by (vm_compute; repeat constructor).
  split; [exact H1|]. split; [exact H2|]. split; [exact H3|]. split; [exact H4|].
  exact (proj2 (proj2 (proj2
           (exactly_one_admitted spell three_uploads_world (spell song)
              three_uploads_schedule three_uploads H1 H2))) H3 H4).
Defined.

(** C1, the statement as given fails when the call that won the insert
    then fails to move its object: it throws, its row stays in the
    ledger, and the other call for the same bytes is told
    [{duplicate: true}]; both calls have settled and none was accepted. *)
Lemma failed_move_counterexample :
  let final := run_schedule spell failed_move_schedule
                 (failed_move_world, failed_move_uploads) in
  let attempts := List.filter (hashes_to spell failed_move_world (spell song))
                    (snd final) in
  rows_with_hash (spell song) (pool failed_move_world) = 0%nat /\
  map call_pc (snd final)
  = [ Thrown (Error "move failed");
      Returned (duplicate_true "Exact duplicate detected") ] /\
  length attempts = 2%nat /\
  count (fun c => accepted_pc (call_pc c)) attempts = 0%nat /\
  count (fun c => duplicate_pc (call_pc c)) attempts = 1%nat /\
  rows_with_hash (spell song) (pool (fst final)) = 1%nat.
Proof. vm_compute. repeat split. Qed.

Lemma three_uploads_outcome :
  map call_pc (snd (run_schedule spell three_uploads_schedule
                      (three_uploads_world, three_uploads)))
  = [ Returned (duplicate_true "Exact duplicate detected");
      Returned (duplicate_false 0%nat);
      Returned (duplicate_false 1%nat) ].
Proof. vm_compute. reflexivity. Qed.

(** * Further properties of the code *)

(** ** The percentage always lies between 0 and 100 *)

(** X1. The factor 6 per encoded character is an upper bound of the 8
    bits per decoded byte: for two non-blank fingerprints the distance
    never exceeds [maxBits], and the percentage is a finite number
    between 0 and 100. *)
Theorem percent_between_0_and_100 (a b : string) :
  falsy (trim a) = false -> falsy (trim b) = false ->
  exists (d : Z) (q : Q),
    hammingDistance (Some a) (Some b) = num d /\
    0 <= d <= maxBits a b /\
    similarityPercent a b = Fin q /\ (0 <= q)%Q /\ (q <= 100)%Q.
Proof.
  intros Ha Hb. destruct (percent_formula a b Ha Hb) as (Hd & _ & _ & _).
  destruct (distance_bounds a b Ha) as [_ Hdm].
  destruct (nonblank_percent a b Ha Hb) as (q & Hq & H0 & H100 & _).
  exists (spec_distance (Buffer_from_base64 a) (Buffer_from_base64 b)), q.
  split; [exact Hd|]. split; [exact Hdm|]. split; [exact Hq|]. split; assumption.
Qed.

Lemma percent_between_0_and_100_witness :
  falsy (trim "AQID") = false /\ falsy (trim "////") = false /\
  exists (d : Z) (q : Q),
    hammingDistance (Some "AQID") (Some "////") = num d /\
    0 <= d <= maxBits "AQID" "////" /\
    similarityPercent "AQID" "////" = Fin q /\ (0 <= q)%Q /\ (q <= 100)%Q.
Proof.
  split; [reflexivity|]. split; [reflexivity|].
  apply (percent_between_0_and_100 "AQID" "////"); reflexivity.
Defined.

(** ** Identical fingerprints *)

Lemma xor_popcount_self (bin : list Z) : xor_popcount bin bin = 0.
Proof.
  induction bin as [|x bin IH]; [reflexivity|].
  simpl. rewrite Z.lxor_nilpotent, IH. reflexivity.
Qed.

(** X2. A non-blank fingerprint compared with itself has distance 0 and
    percentage 100, and so is a match. *)
Theorem identical_fingerprints_match (a : string) :
  falsy (trim a) = false ->
  hammingDistance (Some a) (Some a) = num 0 /\
  (exists q : Q, similarityPercent a a = Fin q /\ (q == 100)%Q) /\
  js_ge (similarityPercent a a) SIMILARITY_THRESHOLD = true.
Proof.
  intros Ha. destruct (percent_formula a a Ha Ha) as (Hd & _ & _ & _).
  assert (E0 : spec_distance (Buffer_from_base64 a) (Buffer_from_base64 a) = 0).
  { unfold spec_distance. rewrite Z.sub_diag, xor_popcount_self. reflexivity. }
  change (hammingDistance (Some a) (Some a)
          = num (spec_distance (Buffer_from_base64 a) (Buffer_from_base64 a))) in Hd.
  rewrite E0 in Hd.
  destruct (nonblank_percent a a Ha Ha) as (q & Hq & _ & _ & Hsame).
  specialize (Hsame E0).
  split; [exact Hd|]. split.
  - exists q. split; [exact Hq|exact Hsame].
  - rewrite Hq. unfold SIMILARITY_THRESHOLD, num. cbn [js_ge].
    apply Qle_bool_iff. destruct to_double_constants as (_ & _ & E70 & _).
    rewrite E70, Hsame. discriminate.
Qed.

Lemma identical_fingerprints_match_witness :
  falsy (trim "AQIDBAUG") = false /\
  hammingDistance (Some "AQIDBAUG") (Some "AQIDBAUG") = num 0 /\
  js_ge (similarityPercent "AQIDBAUG" "AQIDBAUG") SIMILARITY_THRESHOLD = true.
Proof.
  split; [reflexivity|].
  destruct (identical_fingerprints_match "AQIDBAUG" eq_refl) as (H1 & _ & H2).
  split; [exact H1|exact H2].
Defined.

(** ** Invariants of the database *)

Lemma reachable_ind (P : database -> Prop) :
  P empty_database ->
  (forall d d', reachable d -> P d -> db_step d d' -> P d') ->
  forall d, reachable d -> P d.
Proof.
  intros H0 Hstep d Hd. unfold reachable in Hd.
  apply (rtc_ind_r (R := db_step) (fun d => reachable d /\ P d) empty_database);
    [split; [apply rtc_refl|exact H0]| |exact Hd].
  intros y z _ Hyz [Hy Py]. split.
  - eapply rtc_r; eassumption.
  - eapply Hstep; eassumption.
Qed.

Lemma existsb_hash_false (h : string) (rows : list audio_file) :
  existsb (fun r => String.eqb (content_hash r) h) rows = false ->
  ~ In h (map content_hash rows).
Proof.
  intros E Hin. apply in_map_iff in Hin. destruct Hin as (r & <- & Hr).
  assert (existsb (fun r0 => String.eqb (content_hash r0) (content_hash r)) rows = true).
  { apply existsb_exists. exists r. split; [exact Hr|apply String.eqb_refl]. }
  congruence.
Qed.

Lemma findSimilar_loop_db_full (d : database) (h : hub) (audioId : uuid)
    (fingerprint filename : string) (rows : list candidate) :
  let d' := snd (fst (findSimilar_loop d h audioId fingerprint filename rows)) in
  d' = d \/
  exists row : candidate,
    In row rows /\ is_match fingerprint row = true /\
    existsb (fun w => Nat.eqb (audio_id_a w) audioId && Nat.eqb (audio_id_b w) (cand_id row))
      (similarity_warnings d) = false /\
    known_id d audioId = true /\ known_id d (cand_id row) = true /\
    d' = mk_database (audio_files d) (upload_attempts d)
           (similarity_warnings d ++
              [mk_similarity_warning (next_uuid d) audioId (cand_id row) filename
                 (cand_original_filename row)
                 (toFixed2 (similarityPercent fingerprint (cand_perceptual_hash row)))])
           (S (next_uuid d)).
Proof.
  induction rows as [|row rows IH]; [left; reflexivity|].
  destruct (is_match fingerprint row) eqn:Hm.
  - rewrite findSimilar_loop_hit by exact Hm.
    unfold insert_similarity_warning.
    destruct (existsb _ (similarity_warnings d)) eqn:E; [left; reflexivity|].
    destruct (known_id d audioId) eqn:Ka; [|left; reflexivity].
    destruct (known_id d (cand_id row)) eqn:Kb; [|left; reflexivity].
    right. exists row. cbn [andb fst snd]. repeat split; try assumption.
    left. reflexivity.
  - change (row :: rows) with ([row] ++ rows).
    rewrite findSimilar_loop_skip by (constructor; [exact Hm|constructor]).
    destruct IH as [IH|(r & Hin & IH)]; [left; exact IH|].
    right. exists r. split; [right; exact Hin|exact IH].
Qed.

Lemma select_candidates_not_subject (d : database) (audioId : uuid) (row : candidate) :
  In row (select_candidates d audioId) -> cand_id row <> audioId.
Proof.
  unfold select_candidates. intros H. apply in_flat_map in H.
  destruct H as (r & _ & Hin). destruct (perceptual_hash r); [|destruct Hin].
  destruct (Nat.eqb (id r) audioId) eqn:E; [destruct Hin|].
  destruct Hin as [<-|[]]. simpl. apply Nat.eqb_neq. exact E.
Qed.

Lemma map_update_rows {B : Type} (g : audio_file -> B) (f : audio_file -> audio_file)
    (rows : list audio_file) :
  (forall r, g (f r) = g r) -> map g (map f rows) = map g rows.
Proof.
  intros H. induction rows as [|r rows IH]; [reflexivity|].
  simpl. rewrite H, IH. reflexivity.
Qed.

Lemma update_fingerprint_keys (d : database) (fp : string) (dur : option number)
    (audioId : uuid) :
  map id (audio_files (update_fingerprint d fp dur audioId)) = map id (audio_files d) /\
  map content_hash (audio_files (update_fingerprint d fp dur audioId))
  = map content_hash (audio_files d).
Proof.
  unfold update_fingerprint. cbn [audio_files].
  split; apply map_update_rows; intros r; destruct (Nat.eqb (id r) audioId); reflexivity.
Qed.

Lemma update_similar_found_keys (d : database) (audioId : uuid) :
  map id (audio_files (update_similar_found d audioId)) = map id (audio_files d) /\
  map content_hash (audio_files (update_similar_found d audioId))
  = map content_hash (audio_files d).
Proof.
  unfold update_similar_found. cbn [audio_files].
  split; apply map_update_rows; intros r; destruct (Nat.eqb (id r) audioId); reflexivity.
Qed.

Lemma findSimilar_audio_files (d : database) (h : hub) (audioId : uuid)
    (fingerprint filename : string) :
  audio_files (snd (fst (findSimilar d h audioId fingerprint filename))) = audio_files d /\
  (next_uuid d <= next_uuid (snd (fst (findSimilar d h audioId fingerprint filename))))%nat.
Proof.
  unfold findSimilar.
  destruct (findSimilar_loop_db_full d h audioId fingerprint filename
              (select_candidates d audioId)) as [->|(row & _ & _ & _ & _ & _ & ->)];
    cbn [audio_files next_uuid]; split; try reflexivity; lia.
Qed.

Lemma Forall_id_lt (rows : list audio_file) (n m : nat) :
  (n <= m)%nat -> Forall (fun r => (id r < n)%nat) rows ->
  Forall (fun r => (id r < m)%nat) rows.
Proof.
  intros Hnm H. eapply Forall_impl; [exact H|]. intros r Hr. cbn beta in Hr. lia.
Qed.

Lemma Forall_map_id (rows rows' : list audio_file) (n : nat) :
  map id rows' = map id rows ->
  Forall (fun r => (id r < n)%nat) rows -> Forall (fun r => (id r < n)%nat) rows'.
Proof.
  intros Hmap H.
  assert (G : forall l : list audio_file,
             Forall (fun r => (id r < n)%nat) l <-> Forall (fun i => (i < n)%nat) (map id l)).
  { intros l. rewrite Forall_map. reflexivity. }
  apply G. rewrite Hmap. apply G. exact H.
Qed.

Lemma db_step_ledger_inv (d d' : database) :
  db_step d d' -> ledger_inv d -> ledger_inv d'.
Proof.
  unfold ledger_inv. intros Hstep (Hh & Hi & Hlt). destruct Hstep.
  - unfold insert_audio_file.
    destruct (existsb _ (audio_files d)) eqn:E; cbn [fst audio_files next_uuid];
      [repeat split; assumption|].
    rewrite !map_app. cbn [map content_hash id]. split; [|split].
    + apply NoDup_app. split; [exact Hh|]. split; [|apply NoDup_singleton].
      intros x Hx Hx'. apply list_elem_of_In in Hx.
      apply list_elem_of_singleton in Hx'. subst x.
      apply existsb_hash_false in E. contradiction.
    + apply NoDup_app. split; [exact Hi|]. split; [|apply NoDup_singleton].
      intros x Hx Hx'. apply list_elem_of_singleton in Hx'. subst x.
      apply list_elem_of_In, in_map_iff in Hx. destruct Hx as (r & Hr & Hin).
      rewrite Forall_forall in Hlt. apply list_elem_of_In, Hlt in Hin. lia.
    + apply Forall_app. split.
      * eapply Forall_id_lt; [|exact Hlt]. lia.
      * constructor; [simpl; lia|constructor].
  - cbn [insert_upload_attempt audio_files next_uuid]. split; [exact Hh|].
    split; [exact Hi|]. eapply Forall_id_lt; [|exact Hlt]. lia.
  - destruct (update_fingerprint_keys d fingerprint duration audioId) as [Ei Eh].
    rewrite Ei, Eh. split; [exact Hh|]. split; [exact Hi|].
    eapply Forall_map_id; [exact Ei|exact Hlt].
  - destruct (update_similar_found_keys d audioId) as [Ei Eh].
    rewrite Ei, Eh. split; [exact Hh|]. split; [exact Hi|].
    eapply Forall_map_id; [exact Ei|exact Hlt].
  - destruct (findSimilar_audio_files d h audioId fingerprint filename) as [E Hn].
    rewrite E. split; [exact Hh|]. split; [exact Hi|].
    eapply Forall_id_lt; [exact Hn|exact Hlt].
Qed.

Lemma reachable_ledger_inv (d : database) : reachable d -> ledger_inv d.
Proof.
  intros Hd.
  apply (reachable_ind ledger_inv); [|intros; eapply db_step_ledger_inv; eauto|exact Hd].
  repeat split; constructor.
Qed.

(** X4. In every database the services can produce, no two rows of
    [audio_files] share a content hash and no two share an id. *)
Theorem ledger_rows_unique (d : database) :
  reachable d ->
  NoDup (map content_hash (audio_files d)) /\ NoDup (map id (audio_files d)).
Proof.
  intros Hd. destruct (reachable_ledger_inv d Hd) as (Hh & Hi & _). split; assumption.
Qed.

Lemma ledger_rows_unique_witness :
  reachable run_db5 /\
  NoDup (map content_hash (audio_files run_db5)) /\ NoDup (map id (audio_files run_db5)).
Proof.
  split; [exact reachable_run_db5|].
  exact (ledger_rows_unique run_db5 reachable_run_db5).
Defined.

Lemma known_id_In (d : database) (i : uuid) :
  known_id d i = true <-> In i (map id (audio_files d)).
Proof.
  unfold known_id. rewrite existsb_exists, in_map_iff. split.
  - intros (r & Hr & E). apply Nat.eqb_eq in E. exists r. split; assumption.
  - intros (r & E & Hr). exists r. split; [exact Hr|]. apply Nat.eqb_eq. exact E.
Qed.

Lemma db_step_known_id (d d' : database) (i : uuid) :
  db_step d d' -> known_id d i = true -> known_id d' i = true.
Proof.
  intros Hstep. rewrite !known_id_In. destruct Hstep.
  - unfold insert_audio_file. destruct (existsb _ (audio_files d)); cbn [fst audio_files];
      [tauto|]. rewrite map_app, in_app_iff. tauto.
  - cbn [insert_upload_attempt audio_files]. tauto.
  - destruct (update_fingerprint_keys d fingerprint duration audioId) as [-> _]. tauto.
  - destruct (update_similar_found_keys d audioId) as [-> _]. tauto.
  - destruct (findSimilar_audio_files d h audioId fingerprint filename) as [-> _]. tauto.
Qed.

Lemma existsb_pair_false (a b : uuid) (ws : list similarity_warning) :
  existsb (fun w => Nat.eqb (audio_id_a w) a && Nat.eqb (audio_id_b w) b) ws = false ->
  ~ In (a, b) (map pair_of ws).
Proof.
  intros E Hin. apply in_map_iff in Hin. destruct Hin as (w & Hw & Hin).
  unfold pair_of in Hw. injection Hw as <- <-.
  assert (existsb (fun w0 => Nat.eqb (audio_id_a w0) (audio_id_a w)
                             && Nat.eqb (audio_id_b w0) (audio_id_b w)) ws = true).
  { apply existsb_exists. exists w. split; [exact Hin|]. rewrite !Nat.eqb_refl. reflexivity. }
  congruence.
Qed.

Lemma fingerprinted_spec (d : database) (i : uuid) :
  fingerprinted d i = true <->
  exists r, In r (audio_files d) /\ id r = i /\ perceptual_hash r <> None.
Proof.
  unfold fingerprinted. rewrite existsb_exists. split.
  - intros (r & Hr & E). apply andb_prop in E as [E1 E2]. apply Nat.eqb_eq in E1.
    exists r. split; [exact Hr|]. split; [exact E1|].
    destruct (perceptual_hash r); [discriminate|discriminate E2].
  - intros (r & Hr & E1 & E2). exists r. split; [exact Hr|].
    apply andb_true_intro. split; [apply Nat.eqb_eq; exact E1|].
    destruct (perceptual_hash r); [reflexivity|contradiction].
Qed.

Lemma select_candidates_fingerprinted (d : database) (audioId : uuid) (row : candidate) :
  In row (select_candidates d audioId) -> fingerprinted d (cand_id row) = true.
Proof.
  unfold select_candidates. intros H. apply in_flat_map in H.
  destruct H as (r & Hr & Hin). apply fingerprinted_spec.
  destruct (perceptual_hash r) as [fp|] eqn:E; [|destruct Hin].
  destruct (Nat.eqb (id r) audioId); [destruct Hin|].
  destruct Hin as [<-|[]]. exists r. cbn [cand_id].
  split; [exact Hr|]. split; [reflexivity|]. rewrite E. discriminate.
Qed.

Lemma db_step_warnings (d d' : database) :
  db_step d d' ->
  similarity_warnings d' = similarity_warnings d \/
  exists w, similarity_warnings d' = similarity_warnings d ++ [w] /\
            ~ In (pair_of w) (map pair_of (similarity_warnings d)) /\
            warning_refs_ok d w /\
            fingerprinted d (audio_id_a w) = true /\
            fingerprinted d (audio_id_b w) = true.
Proof.
  intros Hstep. destruct Hstep as [| | | |d h audioId fingerprint filename Hfp];
    try (left; reflexivity).
  - left. unfold insert_audio_file. destruct (existsb _ (audio_files d)); reflexivity.
  - unfold findSimilar.
    destruct (findSimilar_loop_db_full d h audioId fingerprint filename
                (select_candidates d audioId))
      as [->|(row & Hrow & _ & E & Ka & Kb & ->)]; [left; reflexivity|].
    right. eexists. cbn [similarity_warnings]. split; [reflexivity|]. split.
    + apply existsb_pair_false. exact E.
    + unfold warning_refs_ok. cbn [audio_id_a audio_id_b]. split.
      * split; [|split; assumption].
        intros Heq. apply select_candidates_not_subject in Hrow. congruence.
      * split; [exact Hfp|]. eapply select_candidates_fingerprinted. exact Hrow.
Qed.

(** X3. The unique constraint as the code has it: in every database the
    services can produce, no two warning rows have the same ordered pair
    [(audio_id_a, audio_id_b)]; and inserting a pair that was just
    inserted, with whatever names and percentage, changes nothing and is
    not an error. *)
Theorem warnings_unique_per_ordered_pair (d : database) :
  reachable d ->
  NoDup (map pair_of (similarity_warnings d)) /\
  forall (a b : uuid) (fa fb fa' fb' : string) (p p' : number) (d1 : database),
    insert_similarity_warning d a b fa fb p = Return d1 ->
    insert_similarity_warning d1 a b fa' fb' p' = Return d1.
Proof.
  intros Hd. split.
  - apply (reachable_ind (fun d => NoDup (map pair_of (similarity_warnings d))));
      [constructor| |exact Hd].
    intros d0 d' _ IH Hstep.
    destruct (db_step_warnings d0 d' Hstep) as [->|(w & -> & Hnew & _)]; [exact IH|].
    rewrite map_app. cbn [map]. apply NoDup_app. split; [exact IH|].
    split; [|apply NoDup_singleton].
    intros x Hx Hx'. apply list_elem_of_singleton in Hx'. subst x.
    apply list_elem_of_In in Hx. contradiction.
  - intros a b fa fb fa' fb' p p' d1. unfold insert_similarity_warning.
    destruct (existsb _ (similarity_warnings d)) eqn:E.
    + intros H. injection H as <-. rewrite E. reflexivity.
    + destruct (known_id d a && known_id d b); [|discriminate].
      intros H. injection H as <-. cbn [similarity_warnings].
      rewrite existsb_app. cbn [existsb audio_id_a audio_id_b].
      rewrite !Nat.eqb_refl. cbn [andb orb]. rewrite orb_true_r. reflexivity.
Qed.

Lemma warnings_unique_per_ordered_pair_witness :
  reachable run_db6 /\ NoDup (map pair_of (similarity_warnings run_db6)).
Proof.
  assert (H : reachable run_db6).
  { eapply rtc_r; [exact reachable_run_db5|].
    exact (step_findSimilar run_db5 empty_hub 0%nat "AAAA" "a.mp3" eq_refl). }
  split; [exact H|]. exact (proj1 (warnings_unique_per_ordered_pair run_db6 H)).
Defined.

(** X5. In every database the services can produce, each warning row
    relates two different files, and both are rows of [audio_files]. *)
Theorem warnings_reference_two_files (d : database) :
  reachable d -> Forall (warning_refs_ok d) (similarity_warnings d).
Proof.
  apply (reachable_ind (fun d => Forall (warning_refs_ok d) (similarity_warnings d)));
    [constructor|].
  intros d0 d' _ IH Hstep.
  assert (Hmono : forall w, warning_refs_ok d0 w -> warning_refs_ok d' w).
  { intros w (Hne & Ka & Kb). split; [exact Hne|].
    split; eapply db_step_known_id; eassumption. }
  destruct (db_step_warnings d0 d' Hstep) as [->|(w & -> & _ & Hw & _)].
  - eapply Forall_impl; [exact IH|exact Hmono].
  - apply Forall_app. split; [eapply Forall_impl; [exact IH|exact Hmono]|].
    constructor; [apply Hmono; exact Hw|constructor].
Qed.

Lemma warnings_reference_two_files_witness :
  reachable run_db5 /\ Forall (warning_refs_ok run_db5) (similarity_warnings run_db5).
Proof.
  split; [exact reachable_run_db5|].
  exact (warnings_reference_two_files run_db5 reachable_run_db5).
Defined.

Lemma at_most_one_row_any_schedule_witness :
  let final := run_schedule spell [1; 0; 1; 0; 1; 2]%nat
                 (three_uploads_world, three_uploads) in
  Forall (fun c => call_pc c = Start) three_uploads /\
  rows_with_hash (spell song) (pool three_uploads_world) = 0%nat /\
  (rows_with_hash (spell song) (pool (fst final)) <= 1)%nat.
Proof.
  intros final.
  assert (H1 : Forall (fun c => call_pc c = Start) three_uploads)
    by (repeat constructor).
  assert (H2 : rows_with_hash (spell song) (pool three_uploads_world) = 0%nat)
    by reflexivity.
  split; [exact H1|]. split; [exact H2|].
  exact (proj1 (at_most_one_row_any_schedule spell three_uploads_world (spell song)
                  [1; 0; 1; 0; 1; 2]%nat three_uploads H1 H2)).
Defined.

Lemma known_digest_never_admitted_witness :
  let final := run_schedule spell [0; 0; 0; 0; 0; 0]%nat (replay_world, replay) in
  let attempts := List.filter (hashes_to spell replay_world (spell song)) (snd final) in
  Forall (fun c => call_pc c = Start) replay /\
  (1 <= rows_with_hash (spell song) (pool replay_world))%nat /\
  count (fun c => accepted_pc (call_pc c)) attempts = 0%nat /\
  rows_with_hash (spell song) (pool (fst final))
  = rows_with_hash (spell song) (pool replay_world).
Proof.
  intros final attempts.
  assert (H1 : Forall (fun c => call_pc c = Start) replay) by (repeat constructor).
  assert (H2 : (1 <= rows_with_hash (spell song) (pool replay_world))%nat)
    by (vm_compute; lia).
  split; [exact H1|]. split; [exact H2|].
  exact (known_digest_never_admitted spell replay_world (spell song)
           [0; 0; 0; 0; 0; 0]%nat replay H1 H2).
Defined.

(** ** What a call of [processUpload] leaves behind *)

Section UploadEffects.

Variable sha256_hex : list Z -> string.

Lemma processUpload_missing_file (w : world) (f : file) (a : answers) :
  disk w !! path f = None ->
  processUpload sha256_hex w f a = (fst (leave w f a Start), Throw (Error "ENOENT")).
Proof.
  intros Hdisk. unfold processUpload. run_step.
  rewrite (computeFileHash_missing sha256_hex w (path f) Hdisk). run_step.
  destruct (unlinkError a); reflexivity.
Qed.

Lemma processUpload_upload_fails (w : world) (f : file) (a : answers) (data : list Z)
    (e : error) :
  disk w !! path f = Some data -> uploadError a = Some e ->
  processUpload sha256_hex w f a = (fst (leave w f a Start), Throw e).
Proof.
  intros Hdisk Hup. unfold processUpload. run_step.
  rewrite (computeFileHash_bytes sha256_hex w (path f) data Hdisk). run_step.
  rewrite Hdisk, Hup. run_step. destruct (unlinkError a); reflexivity.
Qed.

Lemma processUpload_paths (w : world) (f : file) (a : answers) :
  upload_path sha256_hex w f a.
Proof.
  destruct (disk w !! path f) as [data|] eqn:Hdisk.
  - destruct (uploadError a) as [e|] eqn:Hup.
    + eapply path_upload_fails; eauto using processUpload_upload_fails.
    + destruct (existsb (fun r => String.eqb (content_hash r) (sha256_hex data))
                  (audio_files (pool w))) eqn:Hrow.
      * eapply path_duplicate; eauto using processUpload_duplicate.
      * destruct (moveError a) as [e|] eqn:Hmove.
        -- eapply path_move_fails; eauto.
           apply (processUpload_move_fails sha256_hex w f a data e); assumption.
        -- eapply path_accepted; eauto.
           apply (processUpload_accepted sha256_hex w f a data); assumption.
  - apply path_missing; [exact Hdisk|]. apply processUpload_missing_file. exact Hdisk.
Qed.

Lemma leave_disk (w : world) (f : file) (a : answers) (p : pc) :
  disk (fst (leave w f a p)) = disk_left w f a.
Proof. unfold leave, disk_left. destruct (unlinkError a); reflexivity. Qed.

Lemma processUpload_disk (w : world) (f : file) (a : answers) :
  disk (fst (processUpload sha256_hex w f a)) = disk_left w f a.
Proof.
  destruct (processUpload_paths w f a) as [? ->|? ? ? ? ->|? ? ? ? ->|? ? ? ? ? ? ->|? ? ? ? ? ->];
    cbn [fst disk]; try reflexivity; apply leave_disk.
Qed.

(** X8. A call always settles within its six awaits.  However it ends,
    by [return] or by [throw], the [finally] block has removed the local
    file multer stored, unless [unlinkSync] itself fails: that error is
    caught, and the local files are then as they were. *)
Theorem processUpload_settles_and_cleans (w : world) (f : file) (a : answers) :
  (let p := snd (upload_steps sha256_hex 6 w f a Start) in
   returned_pc p || thrown_pc p = true) /\
  (unlinkError a = None ->
   disk (fst (processUpload sha256_hex w f a)) !! path f = None) /\
  (forall e : error, unlinkError a = Some e ->
   disk (fst (processUpload sha256_hex w f a)) = disk w).
Proof.
  split; [|split].
  - cbv zeta. run_step. unfold computeFileHash.
    destruct (disk w !! path f) as [data|] eqn:Hdisk; run_step;
      [|destruct (unlinkError a); reflexivity].
    rewrite Hdisk. destruct (uploadError a); run_step;
      [destruct (unlinkError a); reflexivity|].
    destruct (insert_audio_file _ _ _ _ _ _) as [d [|audioId rows]]; run_step.
    + destruct (deleteError a); run_step; destruct (unlinkError a); reflexivity.
    + destruct (moveError a); run_step; [destruct (unlinkError a); reflexivity|].
      rewrite lookup_insert_eq. run_step. destruct (unlinkError a); reflexivity.
  - intros Hun. rewrite processUpload_disk. unfold disk_left. rewrite Hun.
    apply lookup_delete_eq.
  - intros e Hun. rewrite processUpload_disk. unfold disk_left. rewrite Hun.
    reflexivity.
Qed.

(** X9. What an accepted upload leaves: one new ledger row with the
    returned id, the digest of the bytes, a null fingerprint and status
    pending; the bytes in the permanent bucket under [<digest>_<name>];
    one audit row with [was_duplicate = false]; one fingerprint job for
    the new id; and no object under the temporary name. *)
Theorem accepted_upload_effects (w : world) (f : file) (a : answers) (audioId : uuid) :
  snd (processUpload sha256_hex w f a) = Return (duplicate_false audioId) ->
  let w' := fst (processUpload sha256_hex w f a) in
  exists data : list Z,
    disk w !! path f = Some data /\
    rows_with_hash (sha256_hex data) (pool w) = 0%nat /\
    audioId = next_uuid (pool w) /\
    audio_files (pool w')
    = audio_files (pool w) ++
      [mk_audio_file audioId (sha256_hex data) None
         (sha256_hex data +:+ "_" +:+ originalname f) (originalname f) (size f)
         (mimetype f) None pending] /\
    upload_attempts (pool w')
    = upload_attempts (pool w) ++ [mk_upload_attempt (S audioId) (sha256_hex data) false] /\
    audio_files_bucket w' !! (sha256_hex data +:+ "_" +:+ originalname f) = Some data /\
    fingerprintQueue w'
    = fingerprintQueue w ++ [mk_job "fingerprint" audioId (originalname f)] /\
    temp_uploads w' !! tempFileName a f = None.
Proof.
  intros Hret w'. subst w'.
  destruct (processUpload_paths w f a)
    as [? E|? ? ? ? E|? ? ? ? E|? ? ? ? ? ? E|data Hdisk Hup Hmove Hrow E];
    rewrite E in Hret |- *; cbn [snd] in Hret; try discriminate.
  injection Hret as <-. exists data. cbn [fst pool audio_files_bucket fingerprintQueue
    temp_uploads insert_upload_attempt audio_files upload_attempts].
  unfold insert_audio_file. rewrite Hrow.
  cbn [fst audio_files upload_attempts next_uuid].
  split; [exact Hdisk|]. split; [apply count_zero_existsb; exact Hrow|].
  split; [reflexivity|]. split; [reflexivity|]. split; [reflexivity|].
  split; [apply lookup_insert_eq|]. split; [reflexivity|apply lookup_delete_eq].
Qed.

(** X10. What a rejected duplicate leaves: the ledger rows, the warnings,
    the permanent bucket and the queue are as before; the only trace is
    one audit row with [was_duplicate = true]; and the ledger did hold a
    row with the digest of the submitted bytes. *)
Theorem duplicate_upload_effects (w : world) (f : file) (a : answers) (msg : string) :
  snd (processUpload sha256_hex w f a) = Return (duplicate_true msg) ->
  let w' := fst (processUpload sha256_hex w f a) in
  exists data : list Z,
    disk w !! path f = Some data /\
    (1 <= rows_with_hash (sha256_hex data) (pool w))%nat /\
    msg = "Exact duplicate detected"%string /\
    audio_files (pool w') = audio_files (pool w) /\
    similarity_warnings (pool w') = similarity_warnings (pool w) /\
    upload_attempts (pool w')
    = upload_attempts (pool w) ++
      [mk_upload_attempt (next_uuid (pool w)) (sha256_hex data) true] /\
    audio_files_bucket w' = audio_files_bucket w /\
    fingerprintQueue w' = fingerprintQueue w /\
    (deleteError a = None -> temp_uploads w' !! tempFileName a f = None).
Proof.
  intros Hret w'. subst w'.
  destruct (processUpload_paths w f a)
    as [? E|? ? ? ? E|data Hdisk Hup Hrow E|? ? ? ? ? ? E|? ? ? ? ? E];
    rewrite E in Hret |- *; cbn [snd] in Hret; try discriminate.
  injection Hret as <-. exists data.
  cbn [fst pool audio_files_bucket fingerprintQueue temp_uploads insert_upload_attempt
       audio_files upload_attempts similarity_warnings].
  split; [exact Hdisk|]. split.
  { destruct (rows_with_hash (sha256_hex data) (pool w)) eqn:C; [|lia].
    apply count_zero_existsb in C. congruence. }
  repeat (split; [reflexivity|]).
  intros ->. apply lookup_delete_eq.
Qed.

End UploadEffects.

Lemma processUpload_settles_and_cleans_witness :
  let w := multer_store empty_world file_a song in
  let a := mk_answers "u1" None None None (Some (Error "EPERM")) in
  unlinkError a = Some (Error "EPERM") /\
  disk w !! path file_a = Some song /\
  snd (processUpload spell w file_a a) = Return (duplicate_false 0%nat) /\
  disk (fst (processUpload spell w file_a a)) = disk w.
Proof.
  intros w a. split; [reflexivity|]. split; [vm_compute; reflexivity|].
  split; [vm_compute; reflexivity|].
  exact (proj2 (proj2 (processUpload_settles_and_cleans spell w file_a a))
           (Error "EPERM") eq_refl).
Defined.

Lemma accepted_upload_effects_witness :
  let w := multer_store empty_world file_a song in
  let a := mk_answers "u1" None None None None in
  snd (processUpload spell w file_a a) = Return (duplicate_false 0%nat) /\
  exists data : list Z,
    disk w !! path file_a = Some data /\
    fingerprintQueue (fst (processUpload spell w file_a a))
    = [mk_job "fingerprint" 0%nat "song.mp3"].
Proof.
  intros w a.
  assert (H : snd (processUpload spell w file_a a) = Return (duplicate_false 0%nat))
    by (vm_compute; reflexivity).
  split; [exact H|].
  destruct (accepted_upload_effects spell w file_a a 0%nat H)
    as (data & Hd & _ & _ & _ & _ & _ & Hq & _).
  exists data. split; [exact Hd|exact Hq].
Defined.

Lemma duplicate_upload_effects_witness :
  let a := mk_answers "u4" None None None None in
  snd (processUpload spell replay_world file_b a)
  = Return (duplicate_true "Exact duplicate detected") /\
  audio_files (pool (fst (processUpload spell replay_world file_b a)))
  = audio_files (pool replay_world).
Proof.
  intros a.
  assert (H : snd (processUpload spell replay_world file_b a)
              = Return (duplicate_true "Exact duplicate detected"))
    by (vm_compute; reflexivity).
  split; [exact H|].
  destruct (duplicate_upload_effects spell replay_world file_b a _ H)
    as (data & _ & _ & _ & Hrows & _).
  exact Hrows.
Defined.

(** ** The subscriber hub *)

Lemma fold_try_write (e : sse_event) (subscribers : list res) (h : hub) :
  fold_left (fun h r => try_write h r e) subscribers h
  = mk_hub (warningSubscribers h)
      (written h ++ map (fun r => (r, e)) (live h subscribers)) (broken h) (ended h).
Proof.
  revert h. induction subscribers as [|r subscribers IH]; intros h.
  - simpl. rewrite app_nil_r. destruct h; reflexivity.
  - cbn [fold_left]. rewrite IH. unfold try_write, live. cbn [List.filter].
    destruct (decide (r ∈ broken h)) as [Hb|Hb].
    + rewrite (bool_decide_eq_true_2 _ Hb). reflexivity.
    + rewrite (bool_decide_eq_false_2 _ Hb).
      cbn [negb warningSubscribers written broken ended map].
      rewrite <- app_assoc. reflexivity.
Qed.

Lemma notify_one_spec (e : sse_event) (h : hub) (audioId : uuid) :
  notify_one e h audioId
  = mk_hub (warningSubscribers h)
      (written h ++ map (fun r => (r, e)) (live h (subscribers_of h audioId)))
      (broken h) (ended h).
Proof.
  unfold notify_one, subscribers_of.
  destruct (warningSubscribers h !! audioId) as [subscribers|]; cbn [default].
  - apply fold_try_write.
  - cbn [live List.filter map]. rewrite app_nil_r. destruct h; reflexivity.
Qed.

Lemma notifyWarning_written (h : hub) (audioIdA audioIdB : uuid)
    (filenameA filenameB : string) (percent : number) :
  let e := similarity_detected audioIdA filenameA audioIdB filenameB percent in
  notifyWarning h audioIdA audioIdB filenameA filenameB percent
  = mk_hub (warningSubscribers h)
      (written h
       ++ map (fun r => (r, e)) (live h (subscribers_of h audioIdA))
       ++ map (fun r => (r, e)) (live h (subscribers_of h audioIdB)))
      (broken h) (ended h).
Proof.
  intros e. unfold notifyWarning. cbn [fold_left]. fold e.
  rewrite !notify_one_spec. unfold subscribers_of, live.
  cbn [warningSubscribers written broken ended]. rewrite <- app_assoc. reflexivity.
Qed.

(** X11. A broadcast writes the event once on every registered response
    whose write does not throw, first for the subscribers of the first
    id, in registration order, then for those of the second id; a
    throwing response is skipped and the others still get the event; the
    registry itself is not changed. *)
Theorem notifyWarning_delivers (h : hub) (audioIdA audioIdB : uuid)
    (filenameA filenameB : string) (percent : number) :
  let e := similarity_detected audioIdA filenameA audioIdB filenameB percent in
  notifyWarning h audioIdA audioIdB filenameA filenameB percent
  = mk_hub (warningSubscribers h)
      (written h
       ++ map (fun r => (r, e)) (live h (subscribers_of h audioIdA))
       ++ map (fun r => (r, e)) (live h (subscribers_of h audioIdB)))
      (broken h) (ended h).
Proof.
  exact (notifyWarning_written h audioIdA audioIdB filenameA filenameB percent).
Qed.

Lemma splice_first_last (r : res) (subscribers : list res) :
  ~ In r subscribers -> splice_first r (subscribers ++ [r]) = subscribers.
Proof.
  induction subscribers as [|x subscribers IH]; intros Hnot.
  - simpl. rewrite Nat.eqb_refl. reflexivity.
  - cbn [app splice_first]. destruct (Nat.eqb x r) eqn:E.
    + apply Nat.eqb_eq in E. subst x. exfalso. apply Hnot. left. reflexivity.
    + rewrite IH; [reflexivity|]. intros Hin. apply Hnot. right. exact Hin.
Qed.

Lemma registry_lookup_insert (m : gmap uuid (list res)) (i : uuid) (x : list res) :
  <[i := x]> m !! i = Some x.
Proof. apply lookup_insert_eq. Qed.

Lemma registry_lookup_insert_ne (m : gmap uuid (list res)) (i j : uuid) (x : list res) :
  i <> j -> <[i := x]> m !! j = m !! j.
Proof. apply lookup_insert_ne. Qed.

(** X12. Subscribing and then disconnecting gives the registry its
    former subscribers back for that id (the entry stays, possibly
    empty), leaves every other id alone, and ends the response. *)
Theorem subscribe_then_close (h : hub) (audioId : uuid) (r : res) :
  r ∉ broken h ->
  ~ In r (subscribers_of h audioId) ->
  let h1 := snd (subscribeToWarnings h (Some audioId) r) in
  let h2 := on_close h1 audioId r in
  subscribers_of h1 audioId = subscribers_of h audioId ++ [r] /\
  warningSubscribers h2 !! audioId = Some (subscribers_of h audioId) /\
  (forall other, other <> audioId ->
                 warningSubscribers h2 !! other = warningSubscribers h !! other) /\
  r ∈ ended h2 /\
  received h1 r = received h r ++ [connected].
Proof.
  intros Hlive Hnew h1 h2. subst h2 h1. unfold subscribeToWarnings.
  destruct (decide (r ∈ broken h)) as [Hb|_]; [contradiction|].
  cbn [snd warningSubscribers written broken ended].
  unfold on_close, remove_subscriber, subscribers_of in *.
  cbn [warningSubscribers written broken ended].
  rewrite !registry_lookup_insert. cbn [default].
  split; [reflexivity|]. split.
  - rewrite splice_first_last by exact Hnew. reflexivity.
  - split.
    + intros other Hne. rewrite !registry_lookup_insert_ne by congruence. reflexivity.
    + split; [set_solver|].
      unfold received. cbn [written]. rewrite List.filter_app, map_app.
      cbn [List.filter fst]. rewrite Nat.eqb_refl. reflexivity.
Qed.

Lemma received_app (h : hub) (extra : list (res * sse_event)) (r : res) :
  received (mk_hub (warningSubscribers h) (written h ++ extra) (broken h) (ended h)) r
  = received h r ++ map snd (List.filter (fun x => Nat.eqb (fst x) r) extra).
Proof. unfold received. cbn [written]. rewrite List.filter_app, map_app. reflexivity. Qed.

Lemma deliveries_to (e : sse_event) (r : res) (subscribers : list res) :
  map snd (List.filter (fun x => Nat.eqb (fst x) r) (map (fun s => (s, e)) subscribers))
  = map (fun _ => e) (List.filter (fun s => Nat.eqb s r) subscribers).
Proof.
  induction subscribers as [|s subscribers IH]; [reflexivity|].
  cbn [map List.filter fst]. destruct (Nat.eqb s r); cbn [map snd]; rewrite IH; reflexivity.
Qed.

Lemma filter_none {A : Type} (f : A -> bool) (l : list A) :
  (forall x, In x l -> f x = false) -> List.filter f l = [].
Proof.
  induction l as [|x l IH]; intros H; [reflexivity|].
  cbn [List.filter]. rewrite (H x (or_introl eq_refl)). apply IH.
  intros y Hy. apply H. right. exact Hy.
Qed.

Lemma live_In (h : hub) (subscribers : list res) (r : res) :
  In r (live h subscribers) <-> In r subscribers /\ r ∉ broken h.
Proof.
  unfold live. rewrite filter_In, negb_true_iff, bool_decide_eq_false. reflexivity.
Qed.

(** X13. A response that is registered under neither of the two ids of a
    broadcast gets nothing written by it. *)
Theorem unsubscribed_receive_nothing (h : hub) (audioIdA audioIdB : uuid)
    (filenameA filenameB : string) (percent : number) (r : res) :
  ~ In r (subscribers_of h audioIdA) -> ~ In r (subscribers_of h audioIdB) ->
  received (notifyWarning h audioIdA audioIdB filenameA filenameB percent) r
  = received h r.
Proof.
  intros HA HB. rewrite notifyWarning_written. cbv zeta.
  rewrite received_app, List.filter_app, map_app, !deliveries_to.
  rewrite !(filter_none (fun s => Nat.eqb s r)), app_nil_r; [reflexivity| |].
  - intros s Hs. apply Nat.eqb_neq. intros ->. apply live_In in Hs. tauto.
  - intros s Hs. apply Nat.eqb_neq. intros ->. apply live_In in Hs. tauto.
Qed.

(** X14. After a response has subscribed to an id, a broadcast that
    names this id, in the first or in the second position, writes its
    event on that response. *)
Theorem subscriber_receives_broadcast (h : hub) (audioId other : uuid)
    (filename otherFilename : string) (percent : number) (r : res) :
  r ∉ broken h ->
  let h1 := snd (subscribeToWarnings h (Some audioId) r) in
  In (similarity_detected audioId filename other otherFilename percent)
    (received (notifyWarning h1 audioId other filename otherFilename percent) r) /\
  In (similarity_detected other otherFilename audioId filename percent)
    (received (notifyWarning h1 other audioId otherFilename filename percent) r).
Proof.
  intros Hlive h1.
  assert (Hb : broken h1 = broken h).
  { subst h1. unfold subscribeToWarnings.
    destruct (decide (r ∈ broken h)); reflexivity. }
  assert (Hin : In r (live h1 (subscribers_of h1 audioId))).
  { apply live_In. rewrite Hb. split; [|exact Hlive].
    subst h1. unfold subscribeToWarnings, subscribers_of.
    destruct (decide (r ∈ broken h)) as [?|_]; [contradiction|].
    cbn [snd warningSubscribers]. rewrite registry_lookup_insert. cbn [default].
    apply in_or_app. right. left. reflexivity. }
  assert (Hdel : forall (e : sse_event) (subscribers : list res),
             In r subscribers ->
             In e (map snd (List.filter (fun x => Nat.eqb (fst x) r)
                              (map (fun s => (s, e)) subscribers)))).
  { intros e subscribers Hs. rewrite deliveries_to. apply in_map_iff.
    exists r. split; [reflexivity|]. apply filter_In. split; [exact Hs|].
    apply Nat.eqb_refl. }
  split; rewrite notifyWarning_written; cbv zeta;
    rewrite received_app, List.filter_app, map_app; apply in_or_app; right;
    apply in_or_app; [left|right]; apply Hdel; exact Hin.
Qed.

Lemma subscribe_then_close_witness :
  (5%nat ∉ broken empty_hub) /\ ~ In 5%nat (subscribers_of empty_hub 0%nat) /\
  warningSubscribers
    (on_close (snd (subscribeToWarnings empty_hub (Some 0%nat) 5%nat)) 0%nat 5%nat)
  !! 0%nat = Some [].
Proof.
  assert (H1 : 5%nat ∉ broken empty_hub) by apply not_elem_of_empty.
  assert (H2 : ~ In 5%nat (subscribers_of empty_hub 0%nat)) by (intros []).
  split; [exact H1|]. split; [exact H2|].
  exact (proj1 (proj2 (subscribe_then_close empty_hub 0%nat 5%nat H1 H2))).
Defined.

Lemma unsubscribed_receive_nothing_witness :
  let h := snd (subscribeToWarnings empty_hub (Some 0%nat) 5%nat) in
  ~ In 6%nat (subscribers_of h 0%nat) /\ ~ In 6%nat (subscribers_of h 1%nat) /\
  received (notifyWarning h 0%nat 1%nat "a.mp3" "b.flac" (Fin (9583 # 100))) 6%nat
  = received h 6%nat.
Proof.
  intros h.
  assert (H1 : ~ In 6%nat (subscribers_of h 0%nat))
    by (vm_compute; intros [H|[]]; discriminate H).
  assert (H2 : ~ In 6%nat (subscribers_of h 1%nat)) by (vm_compute; intros []).
  split; [exact H1|]. split; [exact H2|].
  exact (unsubscribed_receive_nothing h 0%nat 1%nat "a.mp3" "b.flac" (Fin (9583 # 100))
           6%nat H1 H2).
Defined.

Lemma subscriber_receives_broadcast_witness :
  (5%nat ∉ broken empty_hub) /\
  In (similarity_detected 0%nat "a.mp3" 1%nat "b.flac" (Fin (9583 # 100)))
    (received
       (notifyWarning (snd (subscribeToWarnings empty_hub (Some 0%nat) 5%nat))
          0%nat 1%nat "a.mp3" "b.flac" (Fin (9583 # 100))) 5%nat).
Proof.
  assert (H1 : 5%nat ∉ broken empty_hub) by apply not_elem_of_empty.
  split; [exact H1|].
  exact (proj1 (subscriber_receives_broadcast empty_hub 0%nat 1%nat "a.mp3" "b.flac"
                  (Fin (9583 # 100)) 5%nat H1)).
Defined.

(** ** The analysis of an admitted file *)

Lemma findSimilar_loop_result (d : database) (h : hub) (audioId : uuid)
    (fingerprint filename : string) (rows : list candidate) :
  match fst (fst (findSimilar_loop d h audioId fingerprint filename rows)) with
  | Return None => existsb (is_match fingerprint) rows = false
  | _ => existsb (is_match fingerprint) rows = true
  end.
Proof.
  induction rows as [|row rows IH]; [reflexivity|].
  cbn [existsb]. destruct (is_match fingerprint row) eqn:Hm.
  - rewrite findSimilar_loop_hit by exact Hm.
    destruct (insert_similarity_warning _ _ _ _ _ _); reflexivity.
  - change (row :: rows) with ([row] ++ rows).
    rewrite findSimilar_loop_skip by (constructor; [exact Hm|constructor]).
    exact IH.
Qed.

Section AnalysisFacts.

Variable parseFloat : string -> number.
Variable fpcalc : option (list Z) -> exec_result.
Variable tmpdir : string.

(** X15. The state machine of the analysis: when [process] completes,
    the extractor has run on a local copy of the bytes stored for the
    file, the row of the file holds the fingerprint and the duration the
    extractor gave, its status is [similar_found] exactly when some
    other fingerprinted file reaches the threshold and [processed]
    otherwise, and every other row is as before. *)
Theorem process_success_state (w : world) (randomUUID : string) (audioId : uuid) :
  fst (process parseFloat fpcalc tmpdir w randomUUID audioId) = Return tt ->
  let w' := snd (process parseFloat fpcalc tmpdir w randomUUID audioId) in
  let tempFilePath := tmpdir +:+ "/" +:+ "fp_" +:+ randomUUID +:+ ".tmp" in
  exists (row : audio_file) (buffer : list Z)
         (fingerprint : string) (duration : option number) (s : status),
    head (select_audio_file (pool w) audioId) = Some row /\
    audio_files_bucket w !! storage_path row = Some buffer /\
    runFpcalc parseFloat fpcalc (set_disk w (<[tempFilePath := buffer]> (disk w)))
      tempFilePath
    = Return (fingerprint, duration) /\
    audio_files (pool w')
    = map (analysed fingerprint duration s audioId) (audio_files (pool w)) /\
    (s = similar_found \/ s = processed) /\
    (s = similar_found <->
     existsb (is_match fingerprint)
       (select_candidates (update_fingerprint (pool w) fingerprint duration audioId)
          audioId) = true).
Proof.
  unfold process, downloadFromSupabase.
  destruct (select_audio_file (pool w) audioId) as [|row rest]; [discriminate|].
  destruct (audio_files_bucket w !! storage_path row) as [buffer|] eqn:Hbuf;
    [|discriminate].
  unfold process_local.
  set (tempFilePath := tmpdir +:+ "/" +:+ "fp_" +:+ randomUUID +:+ ".tmp").
  set (w1 := set_disk w (<[tempFilePath := buffer]> (disk w))).
  destruct (runFpcalc parseFloat fpcalc w1 tempFilePath) as [[fingerprint duration]|e]
    eqn:Hrun; [|discriminate].
  change (pool w1) with (pool w).
  set (d1 := update_fingerprint (pool w) fingerprint duration audioId).
  pose proof (findSimilar_audio_files d1 (sse w1) audioId fingerprint (original_filename row))
    as [Hrows _].
  pose proof (findSimilar_loop_result d1 (sse w1) audioId fingerprint
                (original_filename row) (select_candidates d1 audioId)) as Hres.
  fold (findSimilar d1 (sse w1) audioId fingerprint (original_filename row)) in Hres.
  destruct (findSimilar d1 (sse w1) audioId fingerprint (original_filename row))
    as [[[[similar|]|e] d2] h2]; cbn [fst snd] in *; [| |discriminate].
  - intros _. exists row, buffer, fingerprint, duration, similar_found.
    split; [reflexivity|]. split; [exact Hbuf|]. split; [exact Hrun|].
    cbn [unlink_if_exists set_disk set_sse set_pool pool update_similar_found audio_files].
    rewrite Hrows. subst d1. cbn [update_fingerprint audio_files]. rewrite map_map.
    split; [|split; [left; reflexivity|tauto]].
    apply map_ext. intros r. unfold analysed.
    destruct (Nat.eqb (id r) audioId) eqn:E; cbn [id]; rewrite E; reflexivity.
  - intros _. exists row, buffer, fingerprint, duration, processed.
    split; [reflexivity|]. split; [exact Hbuf|]. split; [exact Hrun|].
    cbn [unlink_if_exists set_disk set_sse set_pool pool audio_files].
    rewrite Hrows. subst d1. cbn [update_fingerprint audio_files].
    split; [reflexivity|]. split; [right; reflexivity|].
    rewrite Hres. split; discriminate.
Qed.

End AnalysisFacts.

(** ** The warning endpoints *)

(** X16. [GET /upload/warnings] answers 200 with at most 100 warnings,
    [total] is the number it lists, the list starts with the newest row,
    and when the table has at most 100 rows it lists them all. *)
Theorem getAllWarnings_capped (d : database) :
  exists listed : list warning_json,
    getAllWarnings d = mk_response 200 (body_all_warnings (length listed) listed) /\
    length listed = Nat.min 100 (length (similarity_warnings d)) /\
    listed = take 100 (map warning_to_json (rev (similarity_warnings d))) /\
    ((length (similarity_warnings d) <= 100)%nat ->
     listed = rev (map warning_to_json (similarity_warnings d))).
Proof.
  exists (map warning_to_json (select_recent_warnings d)).
  unfold getAllWarnings, select_recent_warnings. rewrite !length_map.
  split; [reflexivity|]. split; [rewrite length_take, length_rev; reflexivity|].
  split.
  - rewrite <- fmap_take. reflexivity.
  - intros Hle. rewrite take_ge by (rewrite length_rev; exact Hle).
    rewrite map_rev. reflexivity.
Qed.







Lemma process_success_state_witness :
  let run := process (fun _ => Fin 12) fpcalc_AAAB "/tmp" run_world3 "u9" 1%nat in
  fst run = Return tt /\
  exists (row : audio_file) (buffer : list Z)
         (fingerprint : string) (duration : option number) (s : status),
    head (select_audio_file (pool run_world3) 1%nat) = Some row /\
    audio_files_bucket run_world3 !! storage_path row = Some buffer /\
    runFpcalc (fun _ => Fin 12) fpcalc_AAAB
      (set_disk run_world3 (<["/tmp/fp_u9.tmp" := buffer]> (disk run_world3)))
      "/tmp/fp_u9.tmp"
    = Return (fingerprint, duration) /\
    audio_files (pool (snd run))
    = map (analysed fingerprint duration s 1%nat) (audio_files (pool run_world3)) /\
    (s = similar_found \/ s = processed).
Proof.
  intros run.
  assert (H : fst run = Return tt) by (vm_compute; reflexivity).
  split; [exact H|].
  destruct (process_success_state (fun _ => Fin 12) fpcalc_AAAB "/tmp" run_world3 "u9"
              1%nat H) as (row & buffer & fp & dur & s & H0 & Hb & Hr & H1 & H2 & _).
  exists row, buffer, fp, dur, s.
  split; [exact H0|]. split; [exact Hb|]. split; [exact Hr|]. split; [exact H1|exact H2].
Defined.

Lemma process_run_world3 :
  map (fun r => (id r, perceptual_hash r, similarity_status r))
    (audio_files (pool (snd (process (fun _ => Fin 12) fpcalc_AAAB "/tmp" run_world3
                               "u9" 1%nat))))
  = [ (0%nat, Some "AAAA"%string, processed);
      (1%nat, Some "AAAB"%string, similar_found) ].
Proof. vm_compute. reflexivity. Qed.

(** ** Reading the extractor's output *)

Lemma split_no_sep (sep : ascii) (s : string) :
  lacks sep s = true -> split sep s = [s].
Proof.
  induction s as [|c s IH]; [reflexivity|].
  cbn [lacks split]. intros H. apply andb_prop in H as [Hc Hs].
  apply negb_true_iff in Hc. rewrite Hc, (IH Hs). reflexivity.
Qed.

Lemma split_at_sep (sep : ascii) (s rest : string) :
  lacks sep s = true ->
  split sep (s +:+ String sep rest) = s :: split sep rest.
Proof.
  induction s as [|c s IH]; intros H.
  - change (EmptyString +:+ String sep rest) with (String sep rest).
    cbn [split]. rewrite Ascii.eqb_refl. reflexivity.
  - cbn [lacks] in H. apply andb_prop in H as [Hc Hs]. apply negb_true_iff in Hc.
    change (String c s +:+ String sep rest) with (String c (s +:+ String sep rest)).
    cbn [split]. rewrite Hc, (IH Hs). reflexivity.
Qed.

Lemma startsWith_prefix (p s : string) : startsWith p (p +:+ s) = true.
Proof.
  induction p as [|c p IH]; [reflexivity|].
  change (String c p +:+ s) with (String c (p +:+ s)).
  cbn [startsWith]. rewrite Ascii.eqb_refl. exact IH.
Qed.

Lemma lacks_app (c : ascii) (s t : string) :
  lacks c (s +:+ t) = lacks c s && lacks c t.
Proof.
  induction s as [|x s IH]; [reflexivity|].
  change (String x s +:+ t) with (String x (s +:+ t)).
  cbn [lacks]. rewrite IH, andb_assoc. reflexivity.
Qed.

Lemma append_assoc (a b c : string) : (a +:+ b) +:+ c = a +:+ (b +:+ c).
Proof.
  induction a as [|x a IH]; [reflexivity|].
  change (String x a +:+ b) with (String x (a +:+ b)).
  change (String x (a +:+ b) +:+ c) with (String x ((a +:+ b) +:+ c)).
  rewrite IH. reflexivity.
Qed.

Section ExtractorOutput.

Variable parseFloat : string -> number.
Variable fpcalc : option (list Z) -> exec_result.

(** X18. On the usual output of the extractor, a [DURATION=] line
    followed by a [FINGERPRINT=] line, [runFpcalc] returns the text after
    [FINGERPRINT=] up to the end of the line, or up to the first [=] of
    the padding when there is one, and the parsed duration. *)
Theorem runFpcalc_reads_output (w : world) (localFilePath : string)
    (durationText fingerprint padding : string) :
  lacks "010"%char durationText = true -> lacks "="%char durationText = true ->
  lacks "010"%char fingerprint = true -> lacks "="%char fingerprint = true ->
  lacks "010"%char padding = true ->
  (padding = EmptyString \/ startsWith "=" padding = true) ->
  fpcalc (disk w !! localFilePath)
  = exec_ok ("DURATION=" +:+ durationText +:+ newline
             +:+ "FINGERPRINT=" +:+ fingerprint +:+ padding +:+ newline) ->
  runFpcalc parseFloat fpcalc w localFilePath
  = Return (fingerprint, Some (parseFloat durationText)).
Proof.
  intros Hd1 Hd2 Hf1 Hf2 Hp1 Hp2 Hout. unfold runFpcalc. rewrite Hout.
  assert (Hlines :
    split "010"%char ("DURATION=" +:+ durationText +:+ newline
                      +:+ "FINGERPRINT=" +:+ fingerprint +:+ padding +:+ newline)
    = [ "DURATION=" +:+ durationText; "FINGERPRINT=" +:+ fingerprint +:+ padding;
        EmptyString ]).
  { unfold newline.
    rewrite <- (append_assoc "DURATION=" durationText).
    change (String "010"%char EmptyString +:+ "FINGERPRINT=" +:+ fingerprint +:+ padding
            +:+ String "010"%char EmptyString)
      with (String "010"%char ("FINGERPRINT=" +:+ fingerprint +:+ padding
                               +:+ String "010"%char EmptyString)).
    rewrite split_at_sep by (rewrite lacks_app, Hd1; reflexivity).
    rewrite <- (append_assoc fingerprint padding).
    rewrite <- (append_assoc "FINGERPRINT=" (fingerprint +:+ padding)).
    rewrite split_at_sep
      by (rewrite !lacks_app, Hf1, Hp1; reflexivity).
    reflexivity. }
  rewrite Hlines.
  assert (Hfind1 : List.find (startsWith "FINGERPRINT=")
                     [ "DURATION=" +:+ durationText;
                       "FINGERPRINT=" +:+ fingerprint +:+ padding; EmptyString ]
                   = Some ("FINGERPRINT=" +:+ fingerprint +:+ padding)).
  { cbn [List.find]. change (startsWith "FINGERPRINT=" ("DURATION=" +:+ durationText))
      with false. cbv iota. rewrite startsWith_prefix. reflexivity. }
  assert (Hfind2 : List.find (startsWith "DURATION=")
                     [ "DURATION=" +:+ durationText;
                       "FINGERPRINT=" +:+ fingerprint +:+ padding; EmptyString ]
                   = Some ("DURATION=" +:+ durationText)).
  { cbn [List.find]. rewrite startsWith_prefix. reflexivity. }
  rewrite Hfind1, Hfind2.
  assert (Hfp : nth 1 (split "="%char ("FINGERPRINT=" +:+ fingerprint +:+ padding))
                  EmptyString = fingerprint).
  { change ("FINGERPRINT=" +:+ fingerprint +:+ padding)
      with ("FINGERPRINT" +:+ String "="%char (fingerprint +:+ padding)).
    rewrite split_at_sep by reflexivity.
    destruct Hp2 as [->|Hp2].
    - replace (fingerprint +:+ EmptyString) with fingerprint
        by (clear; induction fingerprint as [|c s IH];
            [reflexivity|change (String c s +:+ EmptyString)
                           with (String c (s +:+ EmptyString)); rewrite <- IH; reflexivity]).
      rewrite split_no_sep by exact Hf2. reflexivity.
    - destruct padding as [|c padding]; [discriminate|].
      cbn [startsWith] in Hp2. destruct (Ascii.eqb "=" c) eqn:E; [|discriminate].
      apply Ascii.eqb_eq in E. subst c.
      rewrite split_at_sep by exact Hf2. reflexivity. }
  assert (Hdur : nth 1 (split "="%char ("DURATION=" +:+ durationText)) EmptyString
                 = durationText).
  { change ("DURATION=" +:+ durationText)
      with ("DURATION" +:+ String "="%char durationText).
    rewrite split_at_sep by reflexivity.
    rewrite split_no_sep by exact Hd2. reflexivity. }
  rewrite Hfp, Hdur. reflexivity.
Qed.

End ExtractorOutput.

Lemma runFpcalc_reads_output_witness :
  lacks "010"%char "12.5" = true /\ lacks "="%char "12.5" = true /\
  lacks "010"%char "AQID" = true /\ lacks "="%char "AQID" = true /\
  lacks "010"%char "==" = true /\
  runFpcalc (fun _ => Fin (25 # 2)) fpcalc_padded empty_world "/tmp/fp_u1.tmp"
  = Return ("AQID"%string, Some (Fin (25 # 2))).
Proof.
  repeat (split; [reflexivity|]).
  apply (runFpcalc_reads_output (fun _ => Fin (25 # 2)) fpcalc_padded empty_world
           "/tmp/fp_u1.tmp" "12.5" "AQID" "==");
    try reflexivity.
  right. reflexivity.
Defined.

(** ** The streamed digest *)

Lemma chunks_sizes (fuel n : nat) (data : list Z) :
  (0 < n)%nat -> (length data <= fuel * n)%nat ->
  Forall (fun chunk => (0 < length chunk <= n)%nat) (chunks fuel n data).
Proof.
  intros Hn. revert data. induction fuel as [|fuel IH]; intros data Hlen.
  - destruct data; [constructor|simpl in Hlen; lia].
  - destruct data as [|x data]; [constructor|].
    cbn [chunks]. constructor.
    + rewrite length_take. simpl length. lia.
    + apply IH. rewrite length_drop. lia.
Qed.

(** X19. The read stream delivers the file in non-empty chunks of at
    most 65536 bytes whose concatenation is the file, and the digest
    [computeFileHash] resolves with is the digest of the whole file:
    it does not depend on the chunking. *)
Theorem streamed_digest_is_file_digest (sha256_hex : list Z -> string) (w : world)
    (filePath : string) (data : list Z) :
  disk w !! filePath = Some data ->
  Forall (fun chunk => 0 < Z.of_nat (length chunk) <= 65536) (createReadStream data) /\
  concat (createReadStream data) = data /\
  computeFileHash sha256_hex w filePath = Return (sha256_hex data).
Proof.
  intros Hdisk. split; [|split].
  - unfold createReadStream.
    assert (H : Forall (fun chunk => (0 < length chunk <= highWaterMark)%nat)
                  (chunks (length data) highWaterMark data)).
    { apply chunks_sizes; unfold highWaterMark; [lia|nia]. }
    eapply Forall_impl; [exact H|]. intros chunk Hc. cbn beta in Hc.
    unfold highWaterMark in Hc. lia.
  - unfold createReadStream. clear Hdisk. generalize (length data) at 1. intros fuel.
    revert data. induction fuel as [|fuel IH]; intros data.
    + destruct data; [reflexivity|]. cbn [chunks concat]. apply app_nil_r.
    + destruct data as [|x data]; [reflexivity|].
      cbn [chunks concat].
      rewrite (IH (drop highWaterMark (x :: data))). apply take_drop.
  - unfold computeFileHash, createReadStream. rewrite Hdisk, chunks_concat. reflexivity.
Qed.

Lemma streamed_digest_is_file_digest_witness :
  disk (multer_store empty_world file_a song) !! path file_a = Some song /\
  computeFileHash spell (multer_store empty_world file_a song) (path file_a)
  = Return (spell song).
Proof.
  assert (H : disk (multer_store empty_world file_a song) !! path file_a = Some song)
    by reflexivity.
  split; [exact H|].
  exact (proj2 (proj2 (streamed_digest_is_file_digest spell
                         (multer_store empty_world file_a song) (path file_a) song H))).
Defined.

(** ** The upload endpoint *)

Lemma rows_existsb (h : string) (d : database) :
  existsb (fun r => String.eqb (content_hash r) h) (audio_files d)
  = negb (Nat.eqb (rows_with_hash h d) 0).
Proof.
  destruct (existsb (fun r => String.eqb (content_hash r) h) (audio_files d)) eqn:E.
  - destruct (rows_with_hash h d) eqn:C; [|reflexivity].
    apply count_zero_existsb in C. congruence.
  - apply count_zero_existsb in E. unfold rows_with_hash. rewrite E. reflexivity.
Qed.

(** X20. [POST /upload] for a file of a supported type whose bytes reach
    the temporary bucket: 409 with the duplicate message when the ledger
    has a row for the digest of the bytes; 201 with the new id when it
    has none and the move succeeds; and when the move fails, the error
    handler's answer, which is 500 unless the error carries a status of
    its own. *)
Theorem upload_answers (sha256_hex : list Z -> string) (w : world) (f : file)
    (a : answers) (data : list Z) :
  isSupportedAudio (mimetype f) = true ->
  disk w !! path f = Some data ->
  uploadError a = None ->
  let rows := rows_with_hash (sha256_hex data) (pool w) in
  let resp := snd (uploadAudio sha256_hex w (Some f) a) in
  ((1 <= rows)%nat ->
   resp = mk_response 409 (body_duplicate "Exact duplicate detected")) /\
  (rows = 0%nat -> moveError a = None ->
   resp = mk_response 201 (body_accepted (next_uuid (pool w)))) /\
  (forall e, rows = 0%nat -> moveError a = Some e ->
             resp = errorHandler e /\
             (error_status e = None -> status_code resp = 500)).
Proof.
  intros Htype Hdisk Hup rows resp. subst resp. unfold uploadAudio. rewrite Htype.
  cbn [negb]. pose proof (rows_existsb (sha256_hex data) (pool w)) as Hrows.
  fold rows in Hrows. split; [|split].
  - intros H1. destruct rows; [lia|]. cbn in Hrows.
    rewrite (processUpload_duplicate sha256_hex w f a data Hdisk Hup Hrows). reflexivity.
  - intros H0 Hmove. rewrite H0 in Hrows. cbn in Hrows.
    rewrite (processUpload_accepted sha256_hex w f a data Hdisk Hup Hmove Hrows).
    reflexivity.
  - intros e H0 Hmove. rewrite H0 in Hrows. cbn in Hrows.
    rewrite (processUpload_move_fails sha256_hex w f a data e Hdisk Hup Hmove Hrows).
    cbn [snd]. split; [reflexivity|]. intros Hs. unfold errorHandler. rewrite Hs.
    reflexivity.
Qed.

Lemma upload_answers_witness :
  let w := multer_store empty_world file_a song in
  let a := mk_answers "u1" None None None None in
  isSupportedAudio (mimetype file_a) = true /\
  disk w !! path file_a = Some song /\
  uploadError a = None /\
  snd (uploadAudio spell w (Some file_a) a) = mk_response 201 (body_accepted 0%nat).
Proof.
  intros w a. split; [reflexivity|]. split; [reflexivity|]. split; [reflexivity|].
  exact (proj1 (proj2 (upload_answers spell w file_a a song eq_refl eq_refl eq_refl))
           eq_refl eq_refl).
Defined.

Lemma getAllWarnings_capped_witness :
  (length (similarity_warnings run_db6) <= 100)%nat /\
  exists listed : list warning_json,
    getAllWarnings run_db6 = mk_response 200 (body_all_warnings (length listed) listed) /\
    listed = rev (map warning_to_json (similarity_warnings run_db6)).
Proof.
  assert (H : (length (similarity_warnings run_db6) <= 100)%nat) by (vm_compute; lia).
  split; [exact H|].
  destruct (getAllWarnings_capped run_db6) as (listed & H1 & _ & _ & H2).
  exists listed. split; [exact H1|exact (H2 H)].
Defined.

(** ** A reported match, its warning and its broadcast *)

Lemma existsb_pair_true (a b : uuid) (ws : list similarity_warning) :
  existsb (fun w => Nat.eqb (audio_id_a w) a && Nat.eqb (audio_id_b w) b) ws = true ->
  exists w, In w ws /\ audio_id_a w = a /\ audio_id_b w = b.
Proof.
  intros E. apply existsb_exists in E. destruct E as (w & Hw & E).
  apply andb_prop in E as [Ea Eb]. apply Nat.eqb_eq in Ea, Eb.
  exists w. repeat split; assumption.
Qed.

Lemma findSimilar_loop_match (d : database) (h : hub) (audioId : uuid)
    (fingerprint filename : string) (rows : list candidate) (s : similar) :
  fst (fst (findSimilar_loop d h audioId fingerprint filename rows)) = Return (Some s) ->
  let d' := snd (fst (findSimilar_loop d h audioId fingerprint filename rows)) in
  let h' := snd (findSimilar_loop d h audioId fingerprint filename rows) in
  (exists row, In row rows /\ is_match fingerprint row = true
               /\ s = match_of fingerprint row) /\
  (exists w, In w (similarity_warnings d') /\
             audio_id_a w = audioId /\ audio_id_b w = similar_id s) /\
  h' = notifyWarning h audioId (similar_id s) filename (similar_filename s) (similarity s).
Proof.
  induction rows as [|row rows IH]; [discriminate|].
  destruct (is_match fingerprint row) eqn:Hm.
  - rewrite findSimilar_loop_hit by exact Hm. unfold insert_similarity_warning.
    destruct (existsb _ (similarity_warnings d)) eqn:E.
    + cbn [fst snd]. intros H. injection H as <-. split; [|split].
      * exists row. split; [left; reflexivity|]. split; [exact Hm|reflexivity].
      * apply existsb_pair_true in E. exact E.
      * reflexivity.
    + destruct (known_id d audioId && known_id d (cand_id row)); [|discriminate].
      cbn [fst snd]. intros H. injection H as <-. split; [|split].
      * exists row. split; [left; reflexivity|]. split; [exact Hm|reflexivity].
      * eexists. cbn [similarity_warnings]. split.
        -- apply in_or_app. right. left. reflexivity.
        -- split; reflexivity.
      * reflexivity.
  - change (row :: rows) with ([row] ++ rows).
    rewrite findSimilar_loop_skip by (constructor; [exact Hm|constructor]).
    intros H. destruct (IH H) as ((r & Hr & Hs) & Hw & Hh). split; [|split].
    + exists r. split; [right; exact Hr|exact Hs].
    + exact Hw.
    + exact Hh.
Qed.

Lemma findSimilar_loop_quiet (d : database) (h : hub) (audioId : uuid)
    (fingerprint filename : string) (rows : list candidate) :
  (forall s, fst (fst (findSimilar_loop d h audioId fingerprint filename rows))
             <> Return (Some s)) ->
  findSimilar_loop d h audioId fingerprint filename rows
  = (fst (fst (findSimilar_loop d h audioId fingerprint filename rows)), d, h).
Proof.
  induction rows as [|row rows IH]; [reflexivity|].
  destruct (is_match fingerprint row) eqn:Hm.
  - rewrite findSimilar_loop_hit by exact Hm.
    destruct (insert_similarity_warning _ _ _ _ _ _) as [d'|e]; [|reflexivity].
    cbn [fst]. intros H. exfalso. eapply H. reflexivity.
  - change (row :: rows) with ([row] ++ rows).
    rewrite findSimilar_loop_skip by (constructor; [exact Hm|constructor]). exact IH.
Qed.

(** X21. When [findSimilar] reports a match, the match is a candidate
    that passed the threshold, a warning row for (subject, candidate) is
    in the table, so that the warning endpoints of both files list it,
    and exactly one broadcast for the two ids was made; when it reports
    no match or throws, nothing was stored and nothing was broadcast. *)
Theorem reported_match_is_stored_and_broadcast (d : database) (h : hub)
    (audioId : uuid) (fingerprint filename : string) :
  let r := fst (fst (findSimilar d h audioId fingerprint filename)) in
  let d' := snd (fst (findSimilar d h audioId fingerprint filename)) in
  let h' := snd (findSimilar d h audioId fingerprint filename) in
  (forall s, r = Return (Some s) ->
     (exists row, In row (select_candidates d audioId) /\
                  is_match fingerprint row = true /\ s = match_of fingerprint row) /\
     (exists w, In w (select_warnings_of d' audioId) /\
                In w (select_warnings_of d' (similar_id s)) /\
                audio_id_a w = audioId /\ audio_id_b w = similar_id s) /\
     h' = notifyWarning h audioId (similar_id s) filename (similar_filename s)
            (similarity s)) /\
  ((forall s, r <> Return (Some s)) -> d' = d /\ h' = h).
Proof.
  cbv zeta. unfold findSimilar. split.
  - intros s Hs.
    destruct (findSimilar_loop_match d h audioId fingerprint filename
                (select_candidates d audioId) s Hs) as ((row & Hrow & Hm & ->) & Hw & Hh).
    split; [|split; [|exact Hh]].
    + exists row. split; [exact Hrow|]. split; [exact Hm|reflexivity].
    + destruct Hw as (w & Hw & Ha & Hb). exists w.
      unfold select_warnings_of. rewrite <- !in_rev, !filter_In, Ha, Hb, !Nat.eqb_refl.
      rewrite orb_true_r. repeat split; try assumption; reflexivity.
  - intros Hno.
    rewrite (findSimilar_loop_quiet d h audioId fingerprint filename
               (select_candidates d audioId) Hno). split; reflexivity.
Qed.

Lemma reported_match_is_stored_and_broadcast_witness :
  let r := findSimilar run_db4 empty_hub 1%nat "AAAB" "b.flac" in
  fst (fst r) = Return (Some (mk_similar 0%nat "a.mp3" (Fin (9583 # 100)))) /\
  exists w, In w (select_warnings_of (snd (fst r)) 1%nat) /\
            In w (select_warnings_of (snd (fst r)) 0%nat).
Proof.
  intros r.
  assert (H : fst (fst r) = Return (Some (mk_similar 0%nat "a.mp3" (Fin (9583 # 100)))))
    by reflexivity.
  split; [exact H|].
  destruct (proj1 (reported_match_is_stored_and_broadcast run_db4 empty_hub 1%nat
                     "AAAB" "b.flac") _ H) as (_ & (w & H1 & H2 & _) & _).
  exists w. split; [exact H1|exact H2].
Defined.

(** ** From the upload to the analysis *)




Section UploadThenAnalysis.

Variable sha256_hex : list Z -> string.
Variable parseFloat : string -> number.
Variable fpcalc : option (list Z) -> exec_result.
Variable tmpdir : string.


End UploadThenAnalysis.

